(** * sv-modular: name derivation, path parsing, manifest merge and the
      generated CRUD service

    A shallow embedding of the generator's TypeScript sources
    ([generators/frontend], [generators/server], the older
    [create-module.ts] scripts) and of the service code their templates
    emit, with the properties the specification states about them. *)

From Stdlib Require Import ZArith Ascii String DecimalString Floats.
From stdpp Require Import base option list sorting strings gmap.

Open Scope Z_scope.

(** ** JavaScript strings

    A string is its sequence of code units.  The model keeps the code
    units below 256 (Latin-1), on which [trim], [toLowerCase], [split],
    [slice] and [endsWith] are written out below as ECMAScript defines
    them.  [toUpperCase] can leave that range and is a member of the
    [Runtime] interface further down. *)

Abbreviation jsstring := (list ascii).

Definition lit (s : string) : jsstring := list_ascii_of_string s.

Definition unit_code (c : ascii) : N := N_of_ascii c.

(** WhiteSpace and LineTerminator code units: TAB, LF, VT, FF, CR, SP and
    NBSP.  The same class is used by [String.prototype.trim] and by the
    [\s] escape of regular expressions. *)
Definition isWhiteSpace (c : ascii) : bool :=
  let n := unit_code c in
  ((9 <=? n) && (n <=? 13) || (n =? 32) || (n =? 160))%N.

(** Simple lower-case mapping: A..Z and the capital letters of the
    Latin-1 supplement (U+00C0..U+00DE without the multiplication sign)
    move up by 32. *)
Definition lowerUnit (c : ascii) : ascii :=
  let n := unit_code c in
  if ((65 <=? n) && (n <=? 90)
      || (192 <=? n) && (n <=? 222) && negb (n =? 215))%N
  then ascii_of_N (n + 32) else c.

Definition toLowerCase (s : jsstring) : jsstring := map lowerUnit s.

Fixpoint trimStart (s : jsstring) : jsstring :=
  match s with
  | c :: t => if isWhiteSpace c then trimStart t else s
  | [] => []
  end.

Definition trimEnd (s : jsstring) : jsstring := rev (trimStart (rev s)).

Definition trim (s : jsstring) : jsstring := trimEnd (trimStart s).

(** [relIndex len k]: how [slice] reads an index, negative ones counting
    from the end, both clamped to [0 .. len]. *)
Definition relIndex (len k : Z) : Z :=
  if k <? 0 then Z.max (len + k) 0 else Z.min k len.

(** [String.prototype.slice] and [Array.prototype.slice] share this
    definition. *)
Definition slice {A} (l : list A) (start stop : Z) : list A :=
  let len := Z.of_nat (length l) in
  let from := relIndex len start in
  let to := relIndex len stop in
  take (Z.to_nat (to - from)) (drop (Z.to_nat from) l).

Definition endsWith (str suffix : jsstring) : bool :=
  let start := Z.of_nat (length str) - Z.of_nat (length suffix) in
  if start <? 0 then false
  else bool_decide (drop (Z.to_nat start) str = suffix).

(** [str.split(sep)] for a separator class of single code units
    (["/"] in the path parser, [/[-/]/] in [toPascal]). *)
Fixpoint split (sep : ascii -> bool) (s : jsstring) : list jsstring :=
  match s with
  | [] => [[]]
  | c :: t =>
      if sep c then [] :: split sep t
      else match split sep t with
           | seg :: segs => (c :: seg) :: segs
           | [] => [[c]]
           end
  end.

Definition isSlash (c : ascii) : bool := bool_decide (c = "/"%char).

(** [parts.join(sep)] *)
Fixpoint join (sep : jsstring) (parts : list jsstring) : jsstring :=
  match parts with
  | [] => []
  | [p] => p
  | p :: rest => p ++ sep ++ join sep rest
  end.

(** [s.includes(k)]: [k] occurs in [s] as a contiguous run. *)
Fixpoint includes (s k : jsstring) : bool :=
  bool_decide (take (length k) s = k)
  || match s with
     | [] => false
     | _ :: t => includes t k
     end.

(** Truthiness of a string: the empty string is falsy. *)
Definition nonEmpty (s : jsstring) : bool :=
  match s with [] => false | _ => true end.

(** ** Results of fallible code *)

Inductive exn := TypeError | SyntaxError | IOError.

(** A computation returns, throws, or ends the process with
    [process.exit code]. *)
Inductive outcome (A : Type) :=
| Ret (a : A)
| Throw (e : exn)
| Exit (code : Z).
Arguments Ret {A} a.
Arguments Throw {A} e.
Arguments Exit {A} code.

(** Exit status of the process: 0 when the run returns, the argument of
    [process.exit], and 1 when an exception reaches the top level. *)
Definition exitStatus {A} (o : outcome A) : Z :=
  match o with
  | Ret _ => 0
  | Throw _ => 1
  | Exit code => code
  end.

(** ** Name normaliser ([toKebab]) *)

Definition isKebabSep (c : ascii) : bool :=
  isWhiteSpace c || bool_decide (c = "_"%char).

(** [s.replace(/[\s_]+/g, "-")]: every maximal run of separator units
    becomes one hyphen.  [inRun] tells that the previous unit belonged to
    the run being replaced. *)
Fixpoint replaceRuns (inRun : bool) (s : jsstring) : jsstring :=
  match s with
  | [] => []
  | c :: t =>
      if isKebabSep c
      then (if inRun then replaceRuns true t
            else "-"%char :: replaceRuns true t)
      else c :: replaceRuns false t
  end.

Definition toKebab (input : jsstring) : jsstring :=
  replaceRuns false (toLowerCase (trim input)).

(** ** Path parser and route builder *)

Definition plural (str : jsstring) : jsstring :=
  if endsWith str (lit "s") then str
  else if endsWith str (lit "y") then slice str 0 (-1) ++ lit "ies"
  else str ++ lit "s".

Record modulePath := {
  moduleName : option jsstring;   (* [undefined] when there is no part *)
  folderPath : jsstring;
  parts : list jsstring
}.

Definition parseModulePath (input : jsstring) : modulePath :=
  let parts :=
    List.filter (fun v => negb (bool_decide (trim v = []))) (split isSlash input) in
  {| moduleName := last parts;
     folderPath := join (lit "/") parts;
     parts := parts |}.

(** [plural(leaf)] reads [leaf.endsWith]: with no part, [leaf] is
    [undefined] and the call throws a TypeError. *)
Definition buildRoutePath (parts : list jsstring) : outcome jsstring :=
  let parents := join (lit "/") (slice parts 0 (-1)) in
  match last parts with
  | None => Throw TypeError
  | Some leaf =>
      let leafPlural := plural leaf in
      Ret (if nonEmpty parents then parents ++ lit "/" ++ leafPlural
           else leafPlural)
  end.

(** ** JSON values

    What [JSON.parse] returns and [JSON.stringify] prints.  An object is
    the list of its own properties; a lookup takes the first binding. *)

#[local] Set Warnings "-register-all".

Inductive json :=
| JNull
| JBool (b : bool)
| JNum (x : float)
| JStr (s : jsstring)
| JArr (items : list json)
| JObj (fields : list (jsstring * json)).

Fixpoint lookupField (k : jsstring) (fields : list (jsstring * json)) : option json :=
  match fields with
  | [] => None
  | (k', v) :: rest => if bool_decide (k' = k) then Some v else lookupField k rest
  end.

(** [obj[k] = v]: an existing property keeps its place, a new one goes
    last. *)
Fixpoint setField (k : jsstring) (v : json) (fields : list (jsstring * json))
  : list (jsstring * json) :=
  match fields with
  | [] => [(k, v)]
  | (k', v') :: rest =>
      if bool_decide (k' = k) then (k, v) :: rest else (k', v') :: setField k v rest
  end.

(** [v.k] for the property names the code reads ([modules], [name],
    [email], [address], [age], [id]): none of them is found on the
    prototype of a string, number, boolean or array, so only an object
    can answer; reading a property of [null] throws. *)
Definition getProp (v : json) (k : jsstring) : outcome (option json) :=
  match v with
  | JNull => Throw TypeError
  | JObj fields => Ret (lookupField k fields)
  | _ => Ret None
  end.

Definition truthy (v : json) : bool :=
  match v with
  | JNull => false
  | JBool b => b
  | JNum x => negb (PrimFloat.eqb x 0 || PrimFloat.is_nan x)
  | JStr s => nonEmpty s
  | JArr _ | JObj _ => true
  end.

(** [v === s] for a string [s] *)
Definition isStr (s : jsstring) (v : option json) : bool :=
  match v with
  | Some (JStr s') => bool_decide (s' = s)
  | _ => false
  end.

(** ** The engine's part

    Two operations of the JavaScript engine are taken as given:
    [String.prototype.toUpperCase], whose result can leave Latin-1, and
    the conversion [Number(v)] of a parsed value to a double. *)

Class Runtime := {
  toUpperCase : jsstring -> jsstring;
  toNumber : json -> float
}.

(** ** The manifest [module.json] *)

(** [json.modules.some(...)] of the server generator: a string entry is
    compared to the path, an entry of type object by its [name]. *)
Definition entryMatches (pathString : jsstring) (m : json) : outcome bool :=
  match m with
  | JStr s => Ret (bool_decide (s = pathString))
  | JNull => Throw TypeError
  | JObj fields => Ret (isStr pathString (lookupField (lit "name") fields))
  | JArr _ | JBool _ | JNum _ => Ret false
  end.

(** [Array.prototype.some]: stops at the first entry that answers true. *)
Fixpoint some (f : json -> outcome bool) (l : list json) : outcome bool :=
  match l with
  | [] => Ret false
  | m :: rest =>
      match f m with
      | Ret true => Ret true
      | Ret false => some f rest
      | Throw e => Throw e
      | Exit c => Exit c
      end
  end.

Definition emptyManifest : json := JObj [(lit "modules", JArr [])].

(** The in-memory part of [updateModuleJson] in [generators/server]:
    [Some doc] is the document written back, [None] means that no write
    takes place.  An array document takes [modules] as an extra property
    that [JSON.stringify] does not print; any other non-object document
    makes the property access or the assignment throw. *)
Definition serverManifest (doc : json) (pathString : jsstring) : outcome (option json) :=
  match doc with
  | JObj fields =>
      let modules :=
        match lookupField (lit "modules") fields with
        | Some (JArr l) => l
        | _ => []
        end in
      match some (entryMatches pathString) modules with
      | Ret true => Ret None
      | Ret false =>
          Ret (Some (JObj (setField (lit "modules")
                             (JArr (modules ++ [JStr pathString])) fields)))
      | Throw e => Throw e
      | Exit c => Exit c
      end
  | JArr items => Ret (Some (JArr items))
  | JNull | JBool _ | JNum _ | JStr _ => Throw TypeError
  end.

(** The same step in the older [create-module.ts] script:
    [json.modules.includes(pathString)]. *)
Definition serverManifestLegacy (doc : json) (pathString : jsstring) : outcome (option json) :=
  match doc with
  | JObj fields =>
      let modules :=
        match lookupField (lit "modules") fields with
        | Some (JArr l) => l
        | _ => []
        end in
      if existsb (fun m => isStr pathString (Some m)) modules then Ret None
      else Ret (Some (JObj (setField (lit "modules")
                              (JArr (modules ++ [JStr pathString])) fields)))
  | JArr items => Ret (Some (JArr items))
  | JNull | JBool _ | JNum _ | JStr _ => Throw TypeError
  end.

(** [modules.filter((m) => m.name !== rawModuleName)] *)
Fixpoint dropNamed (name : jsstring) (l : list json) : outcome (list json) :=
  match l with
  | [] => Ret []
  | m :: rest =>
      match getProp m (lit "name") with
      | Ret v =>
          match dropNamed name rest with
          | Ret rest' => Ret (if isStr name v then rest' else m :: rest')
          | other => other
          end
      | Throw e => Throw e
      | Exit c => Exit c
      end
  end.

Definition manifestEntry (name route : jsstring) : json :=
  JObj [(lit "name", JStr name); (lit "route", JStr route)].

(** The manifest step of [generateFrontendModule]: a falsy [modules] is
    replaced by an empty list, the entries named like the new module are
    filtered out and the new entry is pushed. *)
Definition frontendManifest (doc : json) (name route : jsstring) : outcome json :=
  match doc with
  | JObj fields =>
      let modules :=
        match lookupField (lit "modules") fields with
        | Some v => if truthy v then Some v else Some (JArr [])
        | None => Some (JArr [])
        end in
      match modules with
      | Some (JArr l) =>
          match dropNamed name l with
          | Ret kept =>
              Ret (JObj (setField (lit "modules")
                           (JArr (kept ++ [manifestEntry name route])) fields))
          | Throw e => Throw e
          | Exit c => Exit c
          end
      | _ => Throw TypeError
      end
  | JArr items => Ret (JArr items)
  | JNull | JBool _ | JNum _ | JStr _ => Throw TypeError
  end.

(** The older [create-module.ts] has no default for a missing [modules]:
    [jsonData.modules.filter] throws unless [modules] is an array. *)
Definition frontendManifestLegacy (doc : json) (name route : jsstring) : outcome json :=
  match doc with
  | JObj fields =>
      match lookupField (lit "modules") fields with
      | Some (JArr l) =>
          match dropNamed name l with
          | Ret kept =>
              Ret (JObj (setField (lit "modules")
                           (JArr (kept ++ [manifestEntry name route])) fields))
          | Throw e => Throw e
          | Exit c => Exit c
          end
      | _ => Throw TypeError
      end
  | _ => Throw TypeError
  end.

(** ** The file system

    Paths are absolute and normalised: the list of their segments below
    the root.  A file holds pieces of text: literal characters, the text
    a template renders for its arguments, or the text [JSON.stringify]
    prints for a value.  Permissions and device errors are outside the
    model: an operation fails only for the shape of the tree. *)

Abbreviation path := (list jsstring).

Inductive template :=
| StoreTs | StateTypesTs | ServiceTs | DefaultsTs | PageSvelte | RoutePageSvelte
| ResponseHelperTs | TypesTs | ServicesTs | SpecMd | RouteListTs | RouteDetailTs.

Inductive piece :=
| Chars (s : jsstring)
| Rendered (t : template) (args : list jsstring)
| JsonText (doc : json).

Abbreviation content := (list piece).

Inductive node :=
| Dir
| File (c : content).

Abbreviation tree := (gmap path node).

(** [path.normalize] on segments: empty segments and "." vanish, ".."
    removes the segment before it and stays at the root.  [acc] holds the
    segments passed so far, last one first. *)
Fixpoint normalizeSegs (acc : path) (segs : list jsstring) : path :=
  match segs with
  | [] => rev acc
  | s :: rest =>
      if bool_decide (s = []) || bool_decide (s = lit ".") then normalizeSegs acc rest
      else if bool_decide (s = lit "..") then normalizeSegs (tail acc) rest
      else normalizeSegs (s :: acc) rest
  end.

(** [path.join(base, ...args)] for an absolute, normalised [base]. *)
Definition pathJoin (base : path) (args : list jsstring) : path :=
  normalizeSegs (rev base) (flat_map (split isSlash) args).

(** File-system computations: the tree is threaded through, and stays as
    it is at the point where a computation throws or exits. *)
Definition io (A : Type) : Type := tree -> tree * outcome A.

#[local] Instance io_ret : MRet io := fun A a t => (t, Ret a).
#[local] Instance io_bind : MBind io := fun A B k m t =>
  match m t with
  | (t', Ret a) => k a t'
  | (t', Throw e) => (t', Throw e)
  | (t', Exit c) => (t', Exit c)
  end.

Definition throw {A} (e : exn) : io A := fun t => (t, Throw e).
Definition processExit {A} (code : Z) : io A := fun t => (t, Exit code).
Definition lift {A} (o : outcome A) : io A := fun t => (t, o).

(** [try { m } catch { handler }] *)
Definition tryCatch {A} (m : io A) (handler : exn -> io A) : io A := fun t =>
  match m t with
  | (t', Throw e) => handler e t'
  | r => r
  end.

Definition existsSync (p : path) : io bool := fun t =>
  (t, Ret (bool_decide (is_Some (t !! p)))).

(** All the ancestors of [p], the root first, and [p] itself. *)
Definition prefixes (p : path) : list path :=
  map (fun n => take n p) (seq 0 (S (length p))).

Definition isFile (t : tree) (p : path) : bool :=
  match t !! p with Some (File _) => true | _ => false end.

(** [mkdirSync(p, { recursive: true })]: fails when a file is in the way,
    otherwise makes every missing directory down to [p]. *)
Definition mkdirSync (p : path) : io unit := fun t =>
  if existsb (isFile t) (prefixes p) then (t, Throw IOError)
  else (foldr (fun q acc => <[q := Dir]> acc) t (prefixes p), Ret tt).

Definition parentDir (p : path) : path := take (length p - 1)%nat p.

(** A file can be written where its parent is a directory and the path
    itself is not one. *)
Definition writable (t : tree) (p : path) : bool :=
  match t !! p, t !! parentDir p with
  | Some Dir, _ => false
  | _, Some Dir => true
  | _, _ => false
  end.

Definition writeFileSync (p : path) (c : content) : io unit := fun t =>
  if writable t p then (<[p := File c]> t, Ret tt) else (t, Throw IOError).

Definition appendFileSync (p : path) (s : jsstring) : io unit := fun t =>
  if writable t p then
    let old := match t !! p with Some (File c) => c | _ => [] end in
    (<[p := File (old ++ [Chars s])]> t, Ret tt)
  else (t, Throw IOError).

Definition readFileSync (p : path) : io content := fun t =>
  match t !! p with
  | Some (File c) => (t, Ret c)
  | _ => (t, Throw IOError)
  end.

(** [JSON.parse] of a file's text.  The only JSON text of the model is
    the one [JSON.stringify] wrote. *)
Definition jsonParse (c : content) : outcome json :=
  match c with
  | [JsonText doc] => Ret doc
  | _ => Throw SyntaxError
  end.

(** ** The generators

    What the generators print on the console is left out; everything
    they do to the file system is kept, in the order of the source. *)

Section Generators.
Context {rt : Runtime}.

(** Where the process runs ([process.cwd()]). *)
Variable cwd : path.

(** [log(message)] of the server generator; [ts] is the reading of the
    clock, [new Date().toISOString()]. *)
Definition log (ts message : jsstring) : io unit :=
  appendFileSync (pathJoin cwd [lit "module.log"])
    (lit "[" ++ ts ++ lit "] " ++ message ++ [ascii_of_nat 10]).

Definition updateModuleJson (pathString : jsstring) : io unit :=
  let file := pathJoin cwd [lit "module.json"] in
  found ← existsSync file;
  doc ← (if (found : bool)
         then tryCatch (c ← readFileSync file; lift (jsonParse c))
                       (fun _ => mret emptyManifest)
         else mret emptyManifest);
  update ← lift (serverManifest doc pathString);
  match update with
  | Some doc' => writeFileSync file [JsonText doc']
  | None => mret tt
  end.

(** [capitalize(name)] and so every template throws on [undefined]. *)
Definition render (t : template) (name : option jsstring) (rest : list jsstring)
  : io content :=
  match name with
  | Some n => mret [Rendered t (n :: rest)]
  | None => throw TypeError
  end.

(** *** Name helpers *)

(** [str.charAt(0).toUpperCase() + str.slice(1)] *)
Definition capitalize (str : jsstring) : jsstring :=
  toUpperCase (take 1 str) ++ slice str 1 (Z.of_nat (length str)).

Definition isDashOrSlash (c : ascii) : bool :=
  bool_decide (c = "-"%char) || bool_decide (c = "/"%char).

Definition toPascal (input : jsstring) : jsstring :=
  concat (map capitalize (split isDashOrSlash input)).

(** [s.replace(/-/g, "_")] *)
Definition dashesToUnderscores (s : jsstring) : jsstring :=
  map (fun c => if bool_decide (c = "-"%char) then "_"%char else c) s.

(** *** The seed data of [values.ts]

    [templateValues] prints an array literal of five object literals.
    The literal is kept as syntax and printed as the template string
    prints it; the value of the array is obtained further down, by
    reading the printed text back. *)

Inductive expr :=
| CallRandomUUID                 (* crypto.randomUUID() *)
| StrLit (s : jsstring)          (* a double-quoted literal *)
| NumLit (n : nat).              (* a decimal literal *)

Definition decimal (n : nat) : jsstring :=
  lit (NilEmpty.string_of_uint (Nat.to_uint n)).

Definition quote : jsstring := [ascii_of_nat 34].
Definition newline : jsstring := [ascii_of_nat 10].

Definition printExpr (e : expr) : jsstring :=
  match e with
  | CallRandomUUID => lit "crypto.randomUUID()"
  | StrLit s => quote ++ s ++ quote
  | NumLit n => decimal n
  end.

(** The object literal of the record with index [i]. *)
Definition seedRecord (name : jsstring) (i : nat) : list (jsstring * expr) :=
  [ (lit "id", CallRandomUUID);
    (lit "name", StrLit (capitalize name ++ lit " User " ++ decimal (i + 1)));
    (lit "email", StrLit (name ++ decimal (i + 1) ++ lit "@example.com"));
    (lit "address", StrLit (lit "City " ++ decimal (i + 1)));
    (lit "age", NumLit (20 + i)) ].

Definition printField (f : jsstring * expr) : jsstring :=
  lit "        " ++ f.1 ++ lit ": " ++ printExpr f.2.

Definition printRecord (r : list (jsstring * expr)) : jsstring :=
  lit "    {" ++ newline
  ++ join (lit "," ++ newline) (map printField r) ++ newline
  ++ lit "    }".

(** [Array.from({ length: 5 }).map((_, i) => ...)] *)
Definition seedLiteral (name : jsstring) : list (list (jsstring * expr)) :=
  map (seedRecord name) (seq 0 5).

Definition templateValues (name : jsstring) : jsstring :=
  let Class := capitalize name in
  let UPPER := toUpperCase name in
  let dummy := join (lit "," ++ newline) (map printRecord (seedLiteral name)) in
  lit "// Values for " ++ name ++ lit " module" ++ newline ++ newline
  ++ lit "import type { " ++ Class ++ lit " } from " ++ quote ++ lit "./types" ++ quote
  ++ lit ";" ++ newline ++ newline
  ++ lit "export let FAKE_" ++ UPPER ++ lit ": " ++ Class ++ lit "[] = [" ++ newline
  ++ dummy ++ newline
  ++ lit "];" ++ newline.

(** The number a decimal literal denotes. *)
Definition numOfNat (n : nat) : float :=
  PrimFloat.of_uint63 (Uint63.of_Z (Z.of_nat n)).

(** Evaluation of an array literal of object literals when the module
    that holds it is loaded: [uuid k] is what the [k]-th call of
    [crypto.randomUUID] returns, [next] counts the calls made so far.  A
    string literal stands for its own text: the literals that are
    evaluated come from the reader below, which accepts none with an
    escape.  A name that comes twice in an object literal keeps its first
    place and takes the later value. *)
Definition evalExpr (uuid : nat -> jsstring) (next : nat) (e : expr) : json * nat :=
  match e with
  | CallRandomUUID => (JStr (uuid next), S next)
  | StrLit s => (JStr s, next)
  | NumLit n => (JNum (numOfNat n), next)
  end.

Fixpoint evalRecord (uuid : nat -> jsstring) (next : nat) (r : list (jsstring * expr))
    (acc : list (jsstring * json)) : list (jsstring * json) * nat :=
  match r with
  | [] => (acc, next)
  | (k, e) :: rest =>
      let '(v, next') := evalExpr uuid next e in
      evalRecord uuid next' rest (setField k v acc)
  end.

Fixpoint evalArray (uuid : nat -> jsstring) (next : nat)
    (rs : list (list (jsstring * expr))) : list (list (jsstring * json)) :=
  match rs with
  | [] => []
  | r :: rest =>
      let '(o, next') := evalRecord uuid next r [] in
      o :: evalArray uuid next' rest
  end.

Definition renderValues (name : option jsstring) : io content :=
  match name with
  | Some n => mret [Chars (templateValues n)]
  | None => throw TypeError
  end.

(** *** [generateServerModule] ([create-server <path>])

    [tsHelper] and [tsDone] are the two readings of the clock that the
    calls of [log] make. *)
Definition generateServerModule (tsHelper tsDone rawPath : jsstring) : io unit :=
  let p := parseModulePath rawPath in
  pluralRouteName ← lift (buildRoutePath (parts p));
  let moduleFolderFullPath := pathJoin cwd [lit "src/lib/modules"; folderPath p] in
  found ← existsSync moduleFolderFullPath;
  if (found : bool) then processExit 1 else
  let helperDir := pathJoin cwd [lit "src/lib/helpers"] in
  let helperFile := pathJoin helperDir [lit "response.ts"] in
  hasDir ← existsSync helperDir;
  (if (hasDir : bool) then mret tt else mkdirSync helperDir);;
  hasFile ← existsSync helperFile;
  (if (hasFile : bool) then mret tt
   else writeFileSync helperFile [Rendered ResponseHelperTs []];;
        log tsHelper (lit "Created response helper"));;
  mkdirSync moduleFolderFullPath;;
  types ← render TypesTs (moduleName p) [];
  writeFileSync (pathJoin moduleFolderFullPath [lit "types.ts"]) types;;
  values ← renderValues (moduleName p);
  writeFileSync (pathJoin moduleFolderFullPath [lit "values.ts"]) values;;
  services ← render ServicesTs (moduleName p) [];
  writeFileSync (pathJoin moduleFolderFullPath [lit "services.ts"]) services;;
  spec ← render SpecMd (moduleName p) [pluralRouteName];
  writeFileSync (pathJoin moduleFolderFullPath [lit "spec.md"]) spec;;
  let routeDir := pathJoin cwd [lit "src/routes/api"; pluralRouteName] in
  mkdirSync routeDir;;
  mkdirSync (pathJoin routeDir [lit "[id]"]);;
  routeList ← render RouteListTs (moduleName p) [pluralRouteName; folderPath p];
  writeFileSync (pathJoin routeDir [lit "+server.ts"]) routeList;;
  routeDetail ← render RouteDetailTs (moduleName p) [pluralRouteName; folderPath p];
  writeFileSync (pathJoin routeDir [lit "[id]"; lit "+server.ts"]) routeDetail;;
  log tsDone (lit "Generated module: " ++ rawPath);;
  updateModuleJson rawPath.

(** *** [generateFrontendModule] ([create <name> [--route <path>]])

    [ts] is what [timestamp()] returns. *)
Definition generateFrontendModule (ts inputName : jsstring) (route : option jsstring)
  : io unit :=
  let rawModuleName := toKebab inputName in
  let routePath :=
    match route with
    | Some r => if nonEmpty r then r else rawModuleName
    | None => rawModuleName
    end in
  let pascal := toPascal rawModuleName in
  let pageName := pascal ++ lit "Page" in
  let modulePath := pathJoin cwd [lit "src"; lit "lib"; lit "modules"; rawModuleName] in
  let routeFullPath := pathJoin cwd [lit "src"; lit "routes"; routePath] in
  let logFile := pathJoin cwd [lit "module.log"] in
  let jsonFile := pathJoin cwd [lit "module.json"] in
  tryCatch (mkdirSync (pathJoin modulePath [lit "components"]);;
            mkdirSync routeFullPath)
           (fun _ => processExit 1);;
  writeFileSync (pathJoin modulePath [lit "store.ts"]) [Rendered StoreTs [pascal]];;
  writeFileSync (pathJoin modulePath [lit "types.ts"]) [Rendered StateTypesTs [pascal]];;
  writeFileSync (pathJoin modulePath [lit "service.ts"]) [Rendered ServiceTs [pascal]];;
  writeFileSync (pathJoin modulePath [lit "values.ts"])
    [Rendered DefaultsTs [dashesToUnderscores (toUpperCase rawModuleName)]];;
  writeFileSync (pathJoin modulePath [pageName ++ lit ".svelte"])
    [Rendered PageSvelte [pascal; pageName]];;
  writeFileSync (pathJoin routeFullPath [lit "+page.svelte"])
    [Rendered RoutePageSvelte [pageName; rawModuleName]];;
  appendFileSync logFile
    (lit "[" ++ ts ++ lit "] Created module: " ++ rawModuleName
     ++ lit " | route: " ++ routePath ++ newline);;
  found ← existsSync jsonFile;
  doc ← (if (found : bool)
         then tryCatch (c ← readFileSync jsonFile; lift (jsonParse c))
                       (fun _ => mret emptyManifest)
         else mret emptyManifest);
  doc' ← lift (frontendManifest doc rawModuleName routePath);
  writeFileSync jsonFile [JsonText doc'].

End Generators.

(** ** The generated service ([services.ts])

    The functions [templateServices] emits, over the array [FAKE_<NAME>]
    of [values.ts].  The array is threaded through as the store; a record
    is an object, as untyped at run time as the request bodies it is
    built from. *)

Abbreviation obj := (list (jsstring * json)).

Record response := {
  status : Z;
  success : bool;
  message : jsstring;
  data : option json;      (* [None]: the member is left out *)
  error : option json
}.

(** [jsonResponse] of the response helper: the body that is sent, with
    its status.  A [data] or [error] that is [undefined] is left out. *)
Definition jsonResponse (status : Z) (success : bool) (message : jsstring)
    (data error : option json) : response :=
  {| status := status; success := success; message := message;
     data := data; error := error |}.

Definition responseOk (data : option json) (message : option jsstring) : response :=
  jsonResponse 200 true (default (lit "Success") message) data None.

Definition responseCreated (data : option json) (message : option jsstring) : response :=
  jsonResponse 201 true (default (lit "Created successfully") message) data None.

Definition responseBadRequest (message : jsstring) (error : option json) : response :=
  jsonResponse 400 false message (Some JNull) error.

Definition responseNotFound (message : jsstring) (error : option json) : response :=
  jsonResponse 404 false message (Some JNull) error.

(** [URLSearchParams]: the pairs of the query string in order;
    [query.get(k)] is the first value given for [k], or [null]. *)
Abbreviation URLSearchParams := (list (jsstring * jsstring)).

Fixpoint queryGet (query : URLSearchParams) (k : jsstring) : option jsstring :=
  match query with
  | [] => None
  | (k', v) :: rest => if bool_decide (k' = k) then Some v else queryGet rest k
  end.

(** [list.filter(f)] for a callback that can throw. *)
Fixpoint filterThrowing {A} (f : A -> outcome bool) (l : list A) : outcome (list A) :=
  match l with
  | [] => Ret []
  | x :: rest =>
      match f x with
      | Ret keep =>
          match filterThrowing f rest with
          | Ret rest' => Ret (if keep then x :: rest' else rest')
          | other => other
          end
      | Throw e => Throw e
      | Exit c => Exit c
      end
  end.

(** [v.toLowerCase()] exists on strings only. *)
Definition lowerOf (v : option json) : outcome jsstring :=
  match v with
  | Some (JStr s) => Ret (toLowerCase s)
  | _ => Throw TypeError
  end.

(** [x.age === n] *)
Definition numEq (v : option json) (n : float) : bool :=
  match v with
  | Some (JNum y) => PrimFloat.eqb y n
  | _ => false
  end.

(** [Array.prototype.findIndex], [None] for -1 *)
Fixpoint findIndex {A} (f : A -> bool) (l : list A) : option nat :=
  match l with
  | [] => None
  | x :: rest => if f x then Some 0%nat else S <$> findIndex f rest
  end.

Section Service.
Context {rt : Runtime}.

(** [capitalize(name)] of the module the service was generated for. *)
Variable Class : jsstring.

Definition filterClass (store : list obj) (query : URLSearchParams) : outcome (list obj) :=
  let list := store in
  let address := queryGet query (lit "address") in
  match
    (match address with
     | Some a =>
         if nonEmpty a
         then filterThrowing
                (fun x => match lowerOf (lookupField (lit "address") x) with
                          | Ret l => Ret (bool_decide (l = toLowerCase a))
                          | Throw e => Throw e
                          | Exit c => Exit c
                          end) list
         else Ret list
     | None => Ret list
     end)
  with
  | Ret list =>
      let age := queryGet query (lit "age") in
      let list :=
        match age with
        | Some a =>
            if nonEmpty a && negb (PrimFloat.is_nan (toNumber (JStr a)))
            then List.filter (fun x => numEq (lookupField (lit "age") x) (toNumber (JStr a))) list
            else list
        | None => list
        end in
      let s := queryGet query (lit "s") in
      match s with
      | Some s =>
          if nonEmpty s
          then let k := toLowerCase s in
               filterThrowing
                 (fun x => match lowerOf (lookupField (lit "name") x) with
                           | Ret l => Ret (includes l k)
                           | Throw e => Throw e
                           | Exit c => Exit c
                           end) list
          else Ret list
      | None => Ret list
      end
  | other => other
  end.

(** [getAll<Class>(query?)]: the store is read, never written. *)
Definition getAllClass (query : option URLSearchParams) (store : list obj)
  : list obj * outcome response :=
  match query with
  | None => (store, Ret (responseOk (Some (JArr (map JObj store))) None))
  | Some q =>
      match filterClass store q with
      | Ret l => (store, Ret (responseOk (Some (JArr (map JObj l))) None))
      | Throw e => (store, Throw e)
      | Exit c => (store, Exit c)
      end
  end.

(** [Number(body.age)]: a missing member is [undefined], which converts
    to NaN. *)
Definition numberOf (v : option json) : float :=
  match v with
  | Some v => toNumber v
  | None => PrimFloat.nan
  end.

(** The record [insert<Class>] builds: [address] defaults to the empty
    string ([??]), [age] to 0 ([||]). *)
Definition newItem (uuid : jsstring) (name email : json) (address age : option json) : obj :=
  let n := numberOf age in
  [ (lit "id", JStr uuid);
    (lit "name", name);
    (lit "email", email);
    (lit "address",
      match address with
      | None | Some JNull => JStr []
      | Some a => a
      end);
    (lit "age", JNum (if truthy (JNum n) then n else 0%float)) ].

(** [insert<Class>(request)]: [body] is what [request.json()] resolves
    to, [None] when it rejects; [uuid] is what [crypto.randomUUID()]
    returns when it is reached.  Everything thrown inside is caught; a
    member that is [undefined] is falsy. *)
Definition insertClass (uuid : jsstring) (body : option json) (store : list obj)
  : list obj * response :=
  let invalidJson := responseBadRequest (lit "Invalid JSON body") (Some (JObj [])) in
  match body with
  | None => (store, invalidJson)
  | Some body =>
      match getProp body (lit "name"), getProp body (lit "email"),
            getProp body (lit "address"), getProp body (lit "age") with
      | Ret name, Ret email, Ret address, Ret age =>
          match name, email with
          | Some name, Some email =>
              if negb (truthy name) || negb (truthy email)
              then (store, responseBadRequest (lit "Invalid payload") None)
              else
                let item := newItem uuid name email address age in
                (store ++ [item], responseCreated (Some (JObj item)) None)
          | _, _ => (store, responseBadRequest (lit "Invalid payload") None)
          end
      | _, _, _, _ => (store, invalidJson)
      end
  end.

(** [delete<Class>ById(id)] *)
Definition deleteClassById (id : jsstring) (store : list obj) : list obj * response :=
  match findIndex (fun x => isStr id (lookupField (lit "id") x)) store with
  | None => (store, responseNotFound (Class ++ lit " not found") None)
  | Some index =>
      let removed := store !! index in
      (delete index store, responseOk (JObj <$> removed) (Some (Class ++ lit " deleted")))
  end.

End Service.


(** The records of the declared interface
    [{ id; name; email; address: string; age: number }]. *)
Record person := {
  id : jsstring;
  name : jsstring;
  email : jsstring;
  address : jsstring;
  age : float
}.

Definition toObj (x : person) : obj :=
  [ (lit "id", JStr (id x)); (lit "name", JStr (name x)); (lit "email", JStr (email x));
    (lit "address", JStr (address x)); (lit "age", JNum (age x)) ].

(** ** A run-time for examples

    It agrees with an engine on the text used in the examples below.
    Letters are capitalised within Latin-1; the sharp s and the two units
    whose capitals lie outside Latin-1, U+00B5 and U+00FF, stay as they
    are.  [Number] reads the numbers of a document, blank strings (as 0)
    and unsigned decimal numerals below 2^53; signs, fractions, exponents
    and radix prefixes are not read by this stand-in. *)

Definition upperUnit (c : ascii) : ascii :=
  let n := unit_code c in
  if ((97 <=? n) && (n <=? 122)
      || (224 <=? n) && (n <=? 254) && negb (n =? 247))%N
  then ascii_of_N (n - 32) else c.

Definition isDigit (c : ascii) : bool :=
  let n := unit_code c in ((48 <=? n) && (n <=? 57))%N.

Definition digitsValue (s : jsstring) : Z :=
  foldl (fun acc c => 10 * acc + Z.of_N (unit_code c - 48)) 0 s.

Definition exampleNumber (v : json) : float :=
  match v with
  | JNum x => x
  | JStr s =>
      let s := trim s in
      if negb (nonEmpty s) then 0%float
      else if forallb isDigit s
      then PrimFloat.of_uint63 (Uint63.of_Z (digitsValue s))
      else PrimFloat.nan
  | JNull => 0%float
  | JBool b => if b then 1%float else 0%float
  | JArr _ | JObj _ => PrimFloat.nan
  end.

Definition exampleRuntime : Runtime :=
  {| toUpperCase := map upperUnit; toNumber := exampleNumber |}.


(** ** [generateModuleJson] ([generator.ts], the [module.json] initialiser)

    The default configuration is written unless [module.json] exists; a
    failure of the write is caught and reported on the console only. *)

Definition moduleConfig : json :=
  JObj [ (lit "name", JStr (lit "sv-modular-app"));
         (lit "version", JStr (lit "1.0.0"));
         (lit "type", JStr (lit "module"));
         (lit "routes", JArr [JStr (lit "/src/routes")]) ].

Definition generateModuleJson (cwd : path) : io unit :=
  let filePath := pathJoin cwd [lit "module.json"] in
  found ← existsSync filePath;
  if (found : bool) then processExit 1
  else tryCatch (writeFileSync filePath [JsonText moduleConfig]) (fun _ => mret tt).

(** ** [timestamp] of the frontend generator

    The fields of [new Date()] in local time are the arguments:
    [getFullYear()], [getMonth()] (counted from 0), [getDate()],
    [getHours()], [getMinutes()] and [getSeconds()]. *)

Record localTime := {
  fullYear : nat;
  month : nat;
  date : nat;
  hours : nat;
  minutes : nat;
  seconds : nat
}.

(** [(n) => (n < 10 ? "0" + n : n)], as the template literal prints it *)
Definition pad (n : nat) : jsstring :=
  if (n <? 10)%nat then lit "0" ++ decimal n else decimal n.

Definition timestamp (d : localTime) : jsstring :=
  decimal (fullYear d) ++ lit "-" ++ pad (month d + 1) ++ lit "-" ++ pad (date d)
  ++ lit " " ++ pad (hours d) ++ lit ":" ++ pad (minutes d) ++ lit ":" ++ pad (seconds d).

(** ** Reading [values.ts] back

    [templateValues] writes the text of a TypeScript module; the array
    [FAKE_<NAME>] exists once an engine has read that text.  The reader
    below follows the lexical grammar of ECMAScript and the grammar of
    the two statements the template is made of, on this part of the
    language: line comments, ASCII identifiers, double-quoted string
    literals without escapes, decimal integer literals of at most 15
    digits, and the punctuators of the template.  [None] stands for
    every text it does not accept: text that is no module at all, and
    text outside this part of the language. *)

Inductive punct :=
| LBrace | RBrace | LBracket | RBracket | LParen | RParen
| Colon | Comma | Semicolon | Equals | Dot.

#[local] Instance punct_eq_dec : EqDecision punct.
Proof. solve_decision. Defined.

Inductive token :=
| TIdent (s : jsstring)
| TStr (s : jsstring)
| TNum (n : nat)
| TPunct (p : punct).

Definition isLineTerminator (c : ascii) : bool :=
  let n := unit_code c in ((n =? 10) || (n =? 13))%N.

Definition isQuote (c : ascii) : bool := (unit_code c =? 34)%N.

Definition isBackslash (c : ascii) : bool := (unit_code c =? 92)%N.

Definition isDot (c : ascii) : bool := (unit_code c =? 46)%N.

(** A-Z, a-z, [_] and [$] start an identifier, the digits continue it. *)
Definition identStart (c : ascii) : bool :=
  let n := unit_code c in
  ((65 <=? n) && (n <=? 90) || (97 <=? n) && (n <=? 122) || (n =? 95) || (n =? 36))%N.

Definition identPart (c : ascii) : bool := identStart c || isDigit c.

Definition identifierName (s : jsstring) : bool :=
  match s with
  | c :: rest => identStart c && forallb identPart rest
  | [] => false
  end.

(** A unit that stands for itself inside a double-quoted literal. *)
Definition strChar (c : ascii) : bool :=
  negb (isQuote c || isBackslash c || isLineTerminator c).

Definition punctOf (c : ascii) : option punct :=
  let n := unit_code c in
  if (n =? 123)%N then Some LBrace
  else if (n =? 125)%N then Some RBrace
  else if (n =? 91)%N then Some LBracket
  else if (n =? 93)%N then Some RBracket
  else if (n =? 40)%N then Some LParen
  else if (n =? 41)%N then Some RParen
  else if (n =? 58)%N then Some Colon
  else if (n =? 44)%N then Some Comma
  else if (n =? 59)%N then Some Semicolon
  else if (n =? 61)%N then Some Equals
  else if (n =? 46)%N then Some Dot
  else None.

Inductive lexState :=
| Start
| Slash                       (* one "/" read *)
| InComment
| InIdent (acc : jsstring)
| InNum (acc : jsstring)
| InStr (acc : jsstring).

(** A decimal literal: no leading zero, and few enough digits for the
    number to be exact.  A literal with a fraction or an exponent, or
    with a name right behind it, is not accepted. *)
Definition numToken (digits : jsstring) : option token :=
  match digits with
  | [] => None
  | c :: rest =>
      if (negb (unit_code c =? 48)%N || negb (nonEmpty rest))
         && (length digits <=? 15)%nat
      then Some (TNum (Z.to_nat (digitsValue digits))) else None
  end.

(** The first unit of a token. *)
Definition stepStart (c : ascii) : option (lexState * list token) :=
  if isWhiteSpace c then Some (Start, [])
  else if identStart c then Some (InIdent [c], [])
  else if isDigit c then Some (InNum [c], [])
  else if isQuote c then Some (InStr [], [])
  else if isSlash c then Some (Slash, [])
  else match punctOf c with
       | Some p => Some (Start, [TPunct p])
       | None => None
       end.

(** One unit read in a state: the next state and the tokens that are
    complete. *)
Definition step (st : lexState) (c : ascii) : option (lexState * list token) :=
  match st with
  | Start => stepStart c
  | Slash => if isSlash c then Some (InComment, []) else None
  | InComment => if isLineTerminator c then Some (Start, []) else Some (InComment, [])
  | InIdent acc =>
      if identPart c then Some (InIdent (acc ++ [c]), [])
      else '(st', new) ← stepStart c; Some (st', TIdent acc :: new)
  | InNum acc =>
      if isDigit c then Some (InNum (acc ++ [c]), [])
      else if identStart c || isDot c then None
      else t ← numToken acc; '(st', new) ← stepStart c; Some (st', t :: new)
  | InStr acc =>
      if isQuote c then Some (Start, [TStr acc])
      else if strChar c then Some (InStr (acc ++ [c]), [])
      else None
  end.

(** The end of the text. *)
Definition finish (st : lexState) : option (list token) :=
  match st with
  | Start | InComment => Some []
  | InIdent acc => Some [TIdent acc]
  | InNum acc => t ← numToken acc; Some [t]
  | Slash | InStr _ => None
  end.

(** The units of [s] read from the state [st]: the state that is
    reached and the tokens that are complete. *)
Fixpoint lexRun (st : lexState) (s : jsstring) : option (lexState * list token) :=
  match s with
  | [] => Some (st, [])
  | c :: rest =>
      '(st', new) ← step st c;
      '(st'', more) ← lexRun st' rest;
      Some (st'', new ++ more)
  end.

Definition tokens (s : jsstring) : option (list token) :=
  '(st, toks) ← lexRun Start s; last ← finish st; Some (toks ++ last).

(** The reserved words, with the names a strict-mode binding cannot
    have. *)
Definition reservedWords : list jsstring :=
  map lit
    [ "break"; "case"; "catch"; "class"; "const"; "continue"; "debugger"; "default";
      "delete"; "do"; "else"; "enum"; "export"; "extends"; "false"; "finally"; "for";
      "function"; "if"; "import"; "in"; "instanceof"; "new"; "null"; "return"; "super";
      "switch"; "this"; "throw"; "true"; "try"; "typeof"; "var"; "void"; "while";
      "with"; "let"; "static"; "implements"; "interface"; "package"; "private";
      "protected"; "public"; "yield"; "await"; "eval"; "arguments" ]%string.

Definition isReserved (s : jsstring) : bool := bool_decide (s ∈ reservedWords).

Definition expectIdent (word : string) (ts : list token) : option (list token) :=
  match ts with
  | TIdent s :: rest => if bool_decide (s = lit word) then Some rest else None
  | _ => None
  end.

Definition expectPunct (p : punct) (ts : list token) : option (list token) :=
  match ts with
  | TPunct q :: rest => if bool_decide (q = p) then Some rest else None
  | _ => None
  end.

(** A name that is bound or referred to. *)
Definition takeName (ts : list token) : option (jsstring * list token) :=
  match ts with
  | TIdent s :: rest => if isReserved s then None else Some (s, rest)
  | _ => None
  end.

Definition takeString (ts : list token) : option (jsstring * list token) :=
  match ts with
  | TStr s :: rest => Some (s, rest)
  | _ => None
  end.

(** The three expressions of the template: a call of
    [crypto.randomUUID], a string literal, a decimal literal. *)
Definition parseExpr (ts : list token) : option (expr * list token) :=
  match ts with
  | TStr s :: rest => Some (StrLit s, rest)
  | TNum n :: rest => Some (NumLit n, rest)
  | TIdent _ :: _ =>
      ts ← expectIdent "crypto" ts; ts ← expectPunct Dot ts;
      ts ← expectIdent "randomUUID" ts; ts ← expectPunct LParen ts;
      ts ← expectPunct RParen ts; Some (CallRandomUUID, ts)
  | _ => None
  end.

(** The members of an object literal, up to its closing brace.  A member
    named [__proto__] sets no property and is not accepted.  Every member
    takes tokens, so as many steps as there are tokens are enough. *)
Fixpoint parseFields (fuel : nat) (ts : list token)
  : option (list (jsstring * expr) * list token) :=
  match fuel, ts with
  | S fuel, TIdent k :: rest =>
      if bool_decide (k = lit "__proto__") then None else
      rest ← expectPunct Colon rest;
      '(e, rest) ← parseExpr rest;
      match rest with
      | TPunct Comma :: rest =>
          '(fs, rest) ← parseFields fuel rest; Some ((k, e) :: fs, rest)
      | TPunct RBrace :: rest => Some ([(k, e)], rest)
      | _ => None
      end
  | _, _ => None
  end.

(** The object literals of an array literal, up to its closing
    bracket. *)
Fixpoint parseRecords (fuel : nat) (ts : list token)
  : option (list (list (jsstring * expr)) * list token) :=
  match fuel with
  | S fuel =>
      ts ← expectPunct LBrace ts;
      '(r, ts) ← parseFields (length ts) ts;
      match ts with
      | TPunct Comma :: ts =>
          '(rs, ts) ← parseRecords fuel ts; Some (r :: rs, ts)
      | TPunct RBracket :: ts => Some ([r], ts)
      | _ => None
      end
  | O => None
  end.

(** [import type { T } from "..."; export let X: T'[] = [ ... ];] *)
Definition parseValues (ts : list token) : option (list (list (jsstring * expr))) :=
  ts ← expectIdent "import" ts; ts ← expectIdent "type" ts;
  ts ← expectPunct LBrace ts; '(_, ts) ← takeName ts; ts ← expectPunct RBrace ts;
  ts ← expectIdent "from" ts; '(_, ts) ← takeString ts; ts ← expectPunct Semicolon ts;
  ts ← expectIdent "export" ts; ts ← expectIdent "let" ts; '(_, ts) ← takeName ts;
  ts ← expectPunct Colon ts; '(_, ts) ← takeName ts;
  ts ← expectPunct LBracket ts; ts ← expectPunct RBracket ts;
  ts ← expectPunct Equals ts; ts ← expectPunct LBracket ts;
  '(rs, ts) ← parseRecords (length ts) ts;
  match ts with
  | [] | [TPunct Semicolon] => Some rs
  | _ => None
  end.

Definition readValues (text : jsstring) : option (list (list (jsstring * expr))) :=
  tokens text ≫= parseValues.

(** [FAKE_<NAME>] as the generated module starts with it, when the text
    of [values.ts] can be read. *)
Definition seedStore {rt : Runtime} (uuid : nat -> jsstring) (name : jsstring)
  : option (list (list (jsstring * json))) :=
  evalArray uuid 0 <$> readValues (templateValues name).

(** ** More of the generated service and its route handlers *)

(** The own enumerable properties an object spread copies from a value:
    those of an object, the indexed units of a string, the indexed items
    of an array, none of [null], a number or a boolean. *)
Definition spreadSource (v : json) : list (jsstring * json) :=
  match v with
  | JObj fields => fields
  | JStr s => imap (fun i c => (decimal i, JStr [c])) s
  | JArr items => imap (fun i x => (decimal i, x)) items
  | JNull | JBool _ | JNum _ => []
  end.

(** An array index, as the engine tells it from other property names:
    the canonical decimal string of an integer from 0 to 2^32 - 2. *)
Definition arrayIndex (k : jsstring) : option Z :=
  match k with
  | [] => None
  | c :: rest =>
      if forallb isDigit k && (negb (unit_code c =? 48)%N || negb (nonEmpty rest))
         && (digitsValue k <=? 4294967294)
      then Some (digitsValue k) else None
  end.

(** A new array index goes in front of the first property that is no
    array index or a greater one. *)
Fixpoint insertIndex (n : Z) (k : jsstring) (v : json) (o : list (jsstring * json))
  : list (jsstring * json) :=
  match o with
  | [] => [(k, v)]
  | (k', v') :: rest =>
      match arrayIndex k' with
      | Some n' => if n' <? n then (k', v') :: insertIndex n k v rest else (k, v) :: o
      | None => (k, v) :: o
      end
  end.

(** [CreateDataProperty] on an ordinary object, with the order in which
    the engine then lists the own properties: array indices first, in
    ascending order, then the other names in the order of their creation.
    A property that exists keeps its place. *)
Definition defineField (k : jsstring) (v : json) (o : list (jsstring * json))
  : list (jsstring * json) :=
  match arrayIndex k, lookupField k o with
  | Some n, None => insertIndex n k v o
  | _, _ => setField k v o
  end.

(** [{ ...target, ...source }]: a new object on which the properties of
    [target] and then those of [source] are defined one after the
    other. *)
Definition spread (target : obj) (source : json) : obj :=
  foldl (fun acc kv => defineField kv.1 kv.2 acc) [] (target ++ spreadSource source).

Section ServiceById.
Context {rt : Runtime}.
Variable Class : jsstring.

(** [get<Class>ById(id)] *)
Definition getClassById (id : jsstring) (store : list obj) : response :=
  match List.find (fun x => isStr id (lookupField (lit "id") x)) store with
  | None => responseNotFound (Class ++ lit " not found") None
  | Some found => responseOk (Some (JObj found)) None
  end.

(** [edit<Class>ById(id, request)]: the index is looked up before the
    body is read; [request.json()] is awaited outside any [try], so its
    rejection ([body = None]) is thrown on. *)
Definition editClassById (id : jsstring) (body : option json) (store : list obj)
  : list obj * outcome response :=
  match findIndex (fun x => isStr id (lookupField (lit "id") x)) store with
  | None => (store, Ret (responseNotFound (Class ++ lit " not found") None))
  | Some index =>
      match body with
      | None => (store, Throw SyntaxError)
      | Some body =>
          let merged := spread (default [] (store !! index)) body in
          (<[index := merged]> store, Ret (responseOk (Some (JObj merged)) None))
      end
  end.

(** [validateId] of the detail route: [null] for a missing, empty or
    white-space-only id, else the id as it came. *)
Definition validateId (id : option jsstring) : option jsstring :=
  match id with
  | Some s => if negb (nonEmpty s) || bool_decide (trim s = []) then None else Some s
  | None => None
  end.

(** The handlers of [/api/<route>/:id]; [id] is [params.id]. *)
Definition detailGET (id : option jsstring) (store : list obj)
  : list obj * outcome response :=
  match validateId id with
  | None => (store, Ret (responseBadRequest (lit "Invalid ID") None))
  | Some id => (store, Ret (getClassById id store))
  end.

Definition detailPUT (id : option jsstring) (body : option json) (store : list obj)
  : list obj * outcome response :=
  match validateId id with
  | None => (store, Ret (responseBadRequest (lit "Invalid ID") None))
  | Some id => editClassById id body store
  end.

Definition detailDELETE (id : option jsstring) (store : list obj)
  : list obj * outcome response :=
  match validateId id with
  | None => (store, Ret (responseBadRequest (lit "Invalid ID") None))
  | Some id =>
      let '(store', r) := deleteClassById Class id store in (store', Ret r)
  end.

End ServiceById.

(** ** Vocabulary of the statements *)

(** An entry of the manifest that is an object whose [name] is [n]. *)
Definition namedLike (n : jsstring) (m : json) : bool :=
  match m with
  | JObj fields => isStr n (lookupField (lit "name") fields)
  | _ => false
  end.

(** An entry that is the string [s] itself. *)
Definition isEntry (s : jsstring) (m : json) : bool := isStr s (Some m).

(** A segment the path parser drops: empty or white space only. *)
Definition blank (seg : jsstring) : bool := forallb isWhiteSpace seg.

(** A manifest as [create foo] leaves it. *)
Definition shopManifest : json :=
  JObj [(lit "modules", JArr [manifestEntry (lit "shop") (lit "shop")])].

(** The directory [generateServerModule] guards and fills for a path. *)
Definition serverModuleFolder (cwd : path) (rawPath : jsstring) : path :=
  pathJoin cwd [lit "src/lib/modules"; folderPath (parseModulePath rawPath)].

(** The directory [generateFrontendModule] fills for a name. *)
Definition frontendModuleFolder (cwd : path) (inputName : jsstring) : path :=
  pathJoin cwd [lit "src"; lit "lib"; lit "modules"; toKebab inputName].

(** A computation that never removes an entry of the tree. *)
Definition grows {A} (m : io A) : Prop :=
  forall t t' o, m t = (t', o) -> forall p, is_Some (t !! p) -> is_Some (t' !! p).

(** A computation that never ends the process itself. *)
Definition noExit {A} (m : io A) : Prop :=
  forall t t' c, m t <> (t', Exit c).

(** A computation that can only be stopped by the file system. *)
Definition ioOnly {A} (m : io A) : Prop :=
  forall t t' o, m t = (t', o) -> (exists a, o = Ret a) \/ o = Throw IOError.

(** A project directory with nothing in it, and the same after
    [create-server bands/linkinpark/song] and after [create shop]. *)
Definition projectDir : path := [lit "home"; lit "dev"; lit "app"].

Definition emptyProject : tree := (mkdirSync projectDir ∅).1.

Definition projectWithSong : tree :=
  (generateServerModule (rt := exampleRuntime) projectDir
     (lit "2025-01-01T10:00:00.000Z") (lit "2025-01-01T10:00:00.001Z")
     (lit "bands/linkinpark/song") emptyProject).1.

Definition projectWithShop : tree :=
  (generateFrontendModule (rt := exampleRuntime) projectDir
     (lit "2025-01-01 10:00:00") (lit "shop") None emptyProject).1.

(** A project whose [module.log] cannot be appended to (a directory
    stands in its place), and what a run of [create-server] leaves of
    it. *)
Definition projectWithoutLog : tree := <[projectDir ++ [lit "module.log"] := Dir]> emptyProject.

Definition projectAfterLogFailure : tree :=
  (generateServerModule (rt := exampleRuntime) projectDir
     (lit "2025-01-01T10:00:00.000Z") (lit "2025-01-01T10:00:00.001Z")
     (lit "bands/linkinpark/song") projectWithoutLog).1.

(** The filters a query asks for: a parameter that is absent or empty
    asks for nothing, and so does an [age] that [Number] reads as NaN. *)
Definition addressFilter (query : URLSearchParams) : option jsstring :=
  match queryGet query (lit "address") with
  | Some a => if nonEmpty a then Some a else None
  | None => None
  end.

Definition ageFilter {rt : Runtime} (query : URLSearchParams) : option float :=
  match queryGet query (lit "age") with
  | Some a =>
      if nonEmpty a && negb (PrimFloat.is_nan (toNumber (JStr a)))
      then Some (toNumber (JStr a)) else None
  | None => None
  end.

Definition searchFilter (query : URLSearchParams) : option jsstring :=
  match queryGet query (lit "s") with
  | Some s => if nonEmpty s then Some s else None
  | None => None
  end.

(** A record passes when it meets every filter asked for: the address
    up to case, the age as a number, the search key as a part of the
    name up to case. *)
Definition passes {rt : Runtime} (query : URLSearchParams) (x : person) : bool :=
  match addressFilter query with
  | Some a => bool_decide (toLowerCase (address x) = toLowerCase a)
  | None => true
  end
  && match ageFilter query with
     | Some n => PrimFloat.eqb (age x) n
     | None => true
     end
  && match searchFilter query with
     | Some s => includes (toLowerCase (name x)) (toLowerCase s)
     | None => true
     end.

(** The seed records, read at the declared interface. *)
Definition seedPeople {rt : Runtime} (uuid : nat -> jsstring) (module : jsstring) : list person :=
  map (fun i =>
         {| id := uuid i;
            name := capitalize module ++ lit " User " ++ decimal (i + 1);
            email := module ++ decimal (i + 1) ++ lit "@example.com";
            address := lit "City " ++ decimal (i + 1);
            age := numOfNat (20 + i) |})
      (seq 0 5).

(** Identifiers for examples: "u0", "u1", ... *)
Definition exampleUuid (k : nat) : jsstring := lit "u" ++ decimal k.

(** The seed stores of the modules [song] and [member]. *)
Definition songStore : list obj :=
  map toObj (seedPeople (rt := exampleRuntime) exampleUuid (lit "song")).

Definition memberStore : list obj :=
  map toObj (seedPeople (rt := exampleRuntime) exampleUuid (lit "member")).

(** A request body for examples. *)
Definition exampleBody : json :=
  JObj [(lit "name", JStr (lit "Mike")); (lit "email", JStr (lit "mike@example.com"));
        (lit "age", JStr (lit "47"))].

(** ** More vocabulary *)

(** The test by which the service finds a record. *)
Definition hasId (id : jsstring) (x : obj) : bool := isStr id (lookupField (lit "id") x).

(** The order of two property names in an object: an array index comes
    before a greater one and before every other name. *)
Definition keyBefore (k1 k2 : jsstring) : Prop :=
  match arrayIndex k1, arrayIndex k2 with
  | Some m, Some n => m < n
  | None, Some _ => False
  | _, None => True
  end.

(** An object as the engine lists it: no name twice, the array indices
    first and ascending. *)
Definition wellOrdered (o : obj) : Prop :=
  NoDup (map fst o) /\ StronglySorted keyBefore (map fst o).

(** A computation that leaves every directory a directory and every file
    a file. *)
Definition keepsKind {A} (m : io A) : Prop :=
  forall t t' o, m t = (t', o) ->
    forall p, (t !! p = Some Dir -> t' !! p = Some Dir)
              /\ (isFile t p = true -> isFile t' p = true).

(** A computation that can only add to the end of the file at [p]. *)
Definition appendsOnly {A} (p : path) (m : io A) : Prop :=
  forall t t' o c, m t = (t', o) -> t !! p = Some (File c) ->
    exists more, t' !! p = Some (File (c ++ more)).

(** A computation that does not touch the file at [p]. *)
Definition leavesFile {A} (p : path) (m : io A) : Prop :=
  forall t t' o c, m t = (t', o) -> t !! p = Some (File c) -> t' !! p = Some (File c).

(** A project in which [src] is a file, so that no directory can be made
    below it. *)
Definition projectWithSrcFile : tree := <[projectDir ++ [lit "src"] := File []]> emptyProject.

(** * Properties *)

(** ** Worked examples *)

Example split_slashes :
  split isSlash (lit "/bands//song/") = [[]; lit "bands"; []; lit "song"; []].
Proof. reflexivity. Qed.

Example split_empty : split isSlash [] = [[]].
Proof. reflexivity. Qed.

Example join_three : join (lit "/") [lit "a"; lit "b"; lit "c"] = lit "a/b/c".
Proof. reflexivity. Qed.

Example trim_tabs : trim (" "%char :: ascii_of_nat 9 :: lit "a b " ++ [ascii_of_nat 160]) = lit "a b".
Proof. reflexivity. Qed.

Example slice_negative : slice (lit "category") 0 (-1) = lit "categor".
Proof. reflexivity. Qed.

Example slice_from_one : slice (lit "song") 1 4 = lit "ong".
Proof. reflexivity. Qed.

Example endsWith_longer : endsWith (lit "s") (lit "ss") = false.
Proof. reflexivity. Qed.

Example includes_middle : includes (lit "song user 2") (lit "user") = true.
Proof. reflexivity. Qed.

Example includes_empty : includes [] [] = true.
Proof. reflexivity. Qed.

Example kebab_mixed :
  toKebab (lit "  User_Profile   Page ") = lit "user-profile-page".
Proof. reflexivity. Qed.

Example kebab_edges : toKebab (lit "_a_") = lit "-a-".
Proof. reflexivity. Qed.

Example plural_empty : plural [] = lit "s".
Proof. reflexivity. Qed.

Example parse_blank_segments :
  parseModulePath (lit "/bands/ /song/")
  = {| moduleName := Some (lit "song"); folderPath := lit "bands/song";
       parts := [lit "bands"; lit "song"] |}.
Proof. reflexivity. Qed.

Example route_single : buildRoutePath [lit "category"] = Ret (lit "categories").
Proof. reflexivity. Qed.

Example join_dots :
  pathJoin [lit "home"; lit "app"] [lit "src/lib/modules"; lit "a/../b/./c"]
  = [lit "home"; lit "app"; lit "src"; lit "lib"; lit "modules"; lit "b"; lit "c"].
Proof. reflexivity. Qed.

Example pascal_of_kebab :
  toPascal (rt := exampleRuntime) (lit "user-profile") = lit "UserProfile".
Proof. reflexivity. Qed.

Example mkdir_blocked_by_file :
  (mkdirSync [lit "a"; lit "b"] (<[ [lit "a"] := File [] ]> ∅)).2 = Throw IOError.
Proof. reflexivity. Qed.

Example server_run_on_empty_project :
  (generateServerModule (rt := exampleRuntime) projectDir
     (lit "2025-01-01T10:00:00.000Z") (lit "2025-01-01T10:00:00.001Z")
     (lit "bands/linkinpark/song") emptyProject).2 = Ret tt /\
  projectWithSong !! (projectDir ++ [lit "module.json"])
  = Some (File [JsonText (JObj [(lit "modules", JArr [JStr (lit "bands/linkinpark/song")])])]) /\
  projectWithSong
    !! (projectDir ++ [lit "src"; lit "routes"; lit "api"; lit "bands"; lit "linkinpark";
                       lit "songs"; lit "[id]"; lit "+server.ts"])
  = Some (File [Rendered RouteDetailTs
                  [lit "song"; lit "bands/linkinpark/songs"; lit "bands/linkinpark/song"]]).
Proof. repeat split; vm_compute; reflexivity. Qed.

(** ** Strings *)

Lemma lowerUnit_idem c : lowerUnit (lowerUnit c) = lowerUnit c.
Proof. destruct c as [[] [] [] [] [] [] [] []]; reflexivity. Qed.

Lemma whitespace_is_sep c : isWhiteSpace c = true -> isKebabSep c = true.
Proof. unfold isKebabSep. intros ->. reflexivity. Qed.

Lemma trimStart_id s :
  Forall (fun c => isWhiteSpace c = false) s -> trimStart s = s.
Proof. destruct 1 as [|c t Hc _]; simpl; [reflexivity | now rewrite Hc]. Qed.

Lemma trim_id s :
  Forall (fun c => isWhiteSpace c = false) s -> trim s = s.
Proof.
  intros H. unfold trim, trimEnd. rewrite (trimStart_id s H).
  rewrite trimStart_id by now apply Forall_rev.
  apply rev_involutive.
Qed.

Lemma trimStart_blank s :
  trimStart s = [] <-> Forall (fun c => isWhiteSpace c = true) s.
Proof.
  induction s as [|c t IH]; simpl.
  - split; [constructor | reflexivity].
  - destruct (isWhiteSpace c) eqn:E.
    + rewrite IH. split; [now constructor | now inversion 1].
    + split; [discriminate | inversion 1; congruence].
Qed.

(** A segment is dropped by the parser exactly when all its units are
    white space. *)
Lemma trim_blank s :
  trim s = [] <-> Forall (fun c => isWhiteSpace c = true) s.
Proof.
  unfold trim, trimEnd. split.
  - intros H. apply (f_equal (@rev ascii)) in H. rewrite rev_involutive in H.
    simpl in H. apply trimStart_blank in H.
    apply Forall_rev in H. rewrite rev_involutive in H.
    destruct (trimStart s) eqn:E; [now apply trimStart_blank|].
    clear -E H. exfalso.
    assert (Hn : isWhiteSpace a = false).
    { clear H. induction s as [|c t IH]; simpl in E; [discriminate|].
      destruct (isWhiteSpace c) eqn:Ec; [auto | congruence]. }
    inversion H; congruence.
  - intros H. apply trimStart_blank in H. now rewrite H.
Qed.

Lemma endsWith_app t suffix : endsWith (t ++ suffix) suffix = true.
Proof.
  unfold endsWith. rewrite length_app.
  replace (Z.of_nat (length t + length suffix) - Z.of_nat (length suffix))
    with (Z.of_nat (length t)) by lia.
  destruct (Z.ltb_spec (Z.of_nat (length t)) 0); [lia|].
  rewrite Nat2Z.id, drop_app_length. now apply bool_decide_eq_true.
Qed.

Lemma endsWith_inv str suffix :
  endsWith str suffix = true -> exists t, str = t ++ suffix.
Proof.
  unfold endsWith. destruct (_ <? 0); [discriminate|].
  intros H%bool_decide_eq_true.
  exists (take (Z.to_nat (Z.of_nat (length str) - Z.of_nat (length suffix))) str).
  pose proof (take_drop (Z.to_nat (Z.of_nat (length str) - Z.of_nat (length suffix))) str) as E.
  rewrite H in E. now symmetry.
Qed.

Lemma slice_init {A} (l : list A) x : slice (l ++ [x]) 0 (-1) = l.
Proof.
  unfold slice, relIndex. rewrite length_app. simpl.
  replace (Z.max (Z.of_nat (length l + 1) + -1) 0) with (Z.of_nat (length l)) by lia.
  replace (Z.min 0 (Z.of_nat (length l + 1))) with 0 by lia.
  rewrite Z.sub_0_r, Nat2Z.id. simpl. apply take_app_length.
Qed.

(** [split] cuts at the separators and nowhere else. *)
Lemma split_not_nil sep s : split sep s <> [].
Proof. destruct s as [|c t]; simpl; [easy|]. destruct (sep c); [easy|]. destruct (split sep t); easy. Qed.

Lemma join_cons2 sep p q r : join sep (p :: q :: r) = p ++ sep ++ join sep (q :: r).
Proof. reflexivity. Qed.

Lemma join_split s : join (lit "/") (split isSlash s) = s.
Proof.
  induction s as [|c t IH]; [reflexivity|].
  pose proof (split_not_nil isSlash t) as Hne.
  cbn [split]. destruct (split isSlash t) as [|seg segs]; [easy|].
  destruct (isSlash c) eqn:E.
  - apply bool_decide_eq_true in E. subst c.
    rewrite join_cons2, IH. reflexivity.
  - destruct segs as [|seg' segs].
    + cbn [join] in *. now rewrite IH.
    + rewrite join_cons2 in *. rewrite <- IH. reflexivity.
Qed.

Lemma split_no_sep sep s :
  Forall (Forall (fun c => sep c = false)) (split sep s).
Proof.
  induction s as [|c t IH]; simpl; [repeat constructor|].
  destruct (sep c) eqn:E; [now constructor|].
  destruct (split sep t); [repeat constructor; assumption|].
  inversion IH; subst. constructor; [now constructor | assumption].
Qed.

Lemma blank_forallb v :
  negb (bool_decide (trim v = [])) = negb (forallb isWhiteSpace v).
Proof.
  f_equal. apply eq_true_iff_eq.
  rewrite bool_decide_eq_true, trim_blank, forallb_forall, Forall_forall.
  split; intros H c Hc; apply H; now apply list_elem_of_In.
Qed.

Lemma join_nonEmpty sep p rest :
  p <> [] -> nonEmpty (join sep (p :: rest)) = true.
Proof. destruct p; [easy|]. destruct rest; reflexivity. Qed.

(** ** Name normaliser *)

Lemma replaceRuns_no_sep b s :
  Forall (fun c => isKebabSep c = false) (replaceRuns b s).
Proof.
  revert b. induction s as [|c t IH]; intros b; simpl; [constructor|].
  destruct (isKebabSep c) eqn:E.
  - destruct b; [apply IH | constructor; [reflexivity | apply IH]].
  - constructor; [assumption | apply IH].
Qed.

Lemma replaceRuns_id b s :
  Forall (fun c => isKebabSep c = false) s -> replaceRuns b s = s.
Proof.
  intros H. revert b. induction H as [|c t Hc _ IH]; intros b; simpl; [reflexivity|].
  rewrite Hc. now rewrite IH.
Qed.

Lemma replaceRuns_lower_fixed b s :
  Forall (fun c => lowerUnit c = c) (replaceRuns b (toLowerCase s)).
Proof.
  revert b. induction s as [|c t IH]; intros b; simpl; [constructor|].
  destruct (isKebabSep (lowerUnit c)).
  - destruct b; [apply IH | constructor; [reflexivity | apply IH]].
  - constructor; [apply lowerUnit_idem | apply IH].
Qed.

Lemma toLowerCase_fixed s :
  Forall (fun c => lowerUnit c = c) s -> toLowerCase s = s.
Proof. induction 1 as [|c t Hc _ IH]; simpl; [reflexivity | now rewrite Hc, IH]. Qed.

Lemma not_sep_not_whitespace s :
  Forall (fun c => isKebabSep c = false) s ->
  Forall (fun c => isWhiteSpace c = false) s.
Proof.
  intros Hs. eapply Forall_impl; [exact Hs|]. simpl.
  intros c H. destruct (isWhiteSpace c) eqn:E; [|reflexivity].
  apply whitespace_is_sep in E. congruence.
Qed.

(** C9. [toKebab] is idempotent: applied to its own result it changes
    nothing.  The result holds no white space and no underscore, which is
    why the second pass finds nothing to trim, lower or replace.  The
    function is defined on every string. *)
Theorem toKebab_idempotent (s : jsstring) :
  toKebab (toKebab s) = toKebab s /\
  Forall (fun c => isWhiteSpace c = false /\ c <> "_"%char) (toKebab s).
Proof.
  pose proof (replaceRuns_no_sep false (toLowerCase (trim s))) as Hsep.
  split.
  - unfold toKebab at 1. fold (toKebab s) in Hsep.
    rewrite (trim_id (toKebab s)) by now apply not_sep_not_whitespace.
    rewrite (toLowerCase_fixed (toKebab s)) by apply replaceRuns_lower_fixed.
    now apply replaceRuns_id.
  - fold (toKebab s) in Hsep. eapply Forall_impl; [exact Hsep|]. simpl. intros c H.
    unfold isKebabSep in H. apply orb_false_iff in H as [Hw Hu].
    split; [assumption|]. intros ->. discriminate Hu.
Qed.

(** ** Path parser *)

(** C1. The pluraliser leaves a leaf ending in "s" as it is, turns a final
    "y" into "ies", and appends "s" to every other leaf. *)
Theorem plural_rule (str : jsstring) :
  (forall t, str = t ++ lit "s" -> plural str = str) /\
  (forall t, str = t ++ lit "y" -> plural str = t ++ lit "ies") /\
  ((forall t, str <> t ++ lit "s") -> (forall t, str <> t ++ lit "y") ->
   plural str = str ++ lit "s") /\
  plural (lit "category") = lit "categories" /\
  plural (lit "song") = lit "songs" /\
  plural (lit "status") = lit "status".
Proof.
  repeat split; try reflexivity.
  - intros t ->. unfold plural. now rewrite endsWith_app.
  - intros t ->. unfold plural.
    destruct (endsWith (t ++ lit "y") (lit "s")) eqn:Es.
    + apply endsWith_inv in Es as [u Hu].
      apply app_inj_tail in Hu as [_ Hu]. discriminate Hu.
    + rewrite endsWith_app. change (lit "y") with ["y"%char].
      now rewrite slice_init.
  - intros Hs Hy. unfold plural.
    destruct (endsWith str (lit "s")) eqn:Es.
    { apply endsWith_inv in Es as [u Hu]. now apply Hs in Hu. }
    destruct (endsWith str (lit "y")) eqn:Ey.
    { apply endsWith_inv in Ey as [u Hu]. now apply Hy in Hu. }
    reflexivity.
Qed.

(** C2. The parser splits the input at every "/", drops the segments that
    are empty or white space only, joins the rest into [folderPath], and
    the route path is the parent segments followed by the pluralised
    leaf. *)
Theorem parse_route_spec (input : jsstring) :
  let segs := split isSlash input in
  let p := parseModulePath input in
  join (lit "/") segs = input /\
  Forall (Forall (fun c => c <> "/"%char)) segs /\
  parts p = List.filter (fun seg => negb (blank seg)) segs /\
  folderPath p = join (lit "/") (parts p) /\
  (forall parents leaf, parts p = parents ++ [leaf] ->
     buildRoutePath (parts p)
     = Ret (match parents with
            | [] => plural leaf
            | _ => join (lit "/") parents ++ lit "/" ++ plural leaf
            end)) /\
  buildRoutePath (parts (parseModulePath (lit "bands/linkinpark/song")))
  = Ret (lit "bands/linkinpark/songs") /\
  folderPath (parseModulePath (lit "bands/linkinpark/song"))
  = lit "bands/linkinpark/song".
Proof.
  cbv zeta. split; [apply join_split|]. split.
  { eapply Forall_impl; [apply (split_no_sep isSlash)|]. simpl. intros seg Hseg.
    eapply Forall_impl; [exact Hseg|]. simpl. intros c Hc ->. discriminate Hc. }
  split.
  { unfold parseModulePath. simpl. apply filter_ext. intros v. apply blank_forallb. }
  split; [reflexivity|]. split; [|split; reflexivity].
  intros parents leaf Hp.
  assert (Hne : Forall (fun v => v <> []) (parts (parseModulePath input))).
  { unfold parseModulePath. simpl. apply Forall_forall. intros v Hv.
    apply list_elem_of_In, filter_In in Hv as [_ Hv].
    intros ->. discriminate Hv. }
  rewrite Hp in *. unfold buildRoutePath.
  rewrite last_snoc, slice_init.
  destruct parents as [|q qs]; [reflexivity|].
  rewrite join_nonEmpty; [reflexivity|].
  now inversion Hne.
Qed.

(** ** Manifest *)

Lemma some_entryMatches path l :
  Forall (fun m => m <> JNull) l ->
  some (entryMatches path) l = Ret (existsb (fun m => isEntry path m || namedLike path m) l).
Proof.
  induction 1 as [|m rest Hm _ IH]; [reflexivity|].
  cbn [some existsb]. rewrite IH.
  destruct m as [| b | x | s | items | fields];
    [easy | reflexivity | reflexivity | | reflexivity | ].
  - cbn [entryMatches isEntry namedLike isStr orb].
    now destruct (bool_decide (s = path)).
  - cbn [entryMatches isEntry namedLike isStr orb].
    now destruct (isStr path (lookupField (lit "name") fields)).
Qed.

Lemma dropNamed_filter name l :
  Forall (fun m => m <> JNull) l ->
  dropNamed name l = Ret (List.filter (fun m => negb (namedLike name m)) l).
Proof.
  induction 1 as [|m rest Hm _ IH]; [reflexivity|].
  cbn [dropNamed List.filter]. rewrite IH.
  destruct m as [| b | x | s | items | fields];
    [now destruct Hm | reflexivity .. | ].
  cbn [getProp namedLike negb].
  now destruct (isStr name (lookupField (lit "name") fields)).
Qed.

(** The server generator of the command line does not push a path that
    an object entry already carries as its [name], although no entry is
    that string. *)
Lemma server_manifest_skips_named_object :
  existsb (isEntry (lit "shop")) [manifestEntry (lit "shop") (lit "shop")] = false /\
  lookupField (lit "modules") [(lit "modules", JArr [manifestEntry (lit "shop") (lit "shop")])]
  = Some (JArr [manifestEntry (lit "shop") (lit "shop")]) /\
  serverManifest shopManifest (lit "shop") = Ret None.
Proof. repeat split. Qed.

(** C8 (as amended). On a manifest whose [modules] is a list without
    [null] entries: the frontend generator removes every object entry
    whose name is the new module's and pushes the new entry; the server
    generator pushes the path exactly when no entry is that string and no
    object entry has it as its name; the older script pushes it exactly
    when no entry is that string. *)
Theorem manifest_dedupe (fields : list (jsstring * json)) (l : list json)
    (name route pathString : jsstring) :
  lookupField (lit "modules") fields = Some (JArr l) ->
  Forall (fun m => m <> JNull) l ->
  frontendManifest (JObj fields) name route
  = Ret (JObj (setField (lit "modules")
                 (JArr (List.filter (fun m => negb (namedLike name m)) l
                        ++ [manifestEntry name route])) fields)) /\
  frontendManifestLegacy (JObj fields) name route
  = frontendManifest (JObj fields) name route /\
  serverManifest (JObj fields) pathString
  = Ret (if existsb (fun m => isEntry pathString m || namedLike pathString m) l
         then None
         else Some (JObj (setField (lit "modules") (JArr (l ++ [JStr pathString])) fields))) /\
  serverManifestLegacy (JObj fields) pathString
  = Ret (if existsb (isEntry pathString) l
         then None
         else Some (JObj (setField (lit "modules") (JArr (l ++ [JStr pathString])) fields))).
Proof.
  intros Hl Hn. repeat split.
  - unfold frontendManifest. rewrite Hl. simpl. now rewrite dropNamed_filter.
  - unfold frontendManifestLegacy, frontendManifest. rewrite Hl. reflexivity.
  - unfold serverManifest. rewrite Hl, some_entryMatches by assumption.
    now destruct (existsb _ l).
  - unfold serverManifestLegacy. rewrite Hl. now destruct (existsb _ l).
Qed.

Lemma manifest_dedupe_witness :
  frontendManifest shopManifest (lit "shop") (lit "store")
  = Ret (JObj [(lit "modules", JArr [manifestEntry (lit "shop") (lit "store")])]) /\
  serverManifestLegacy shopManifest (lit "shop")
  = Ret (Some (JObj [(lit "modules",
                      JArr [manifestEntry (lit "shop") (lit "shop"); JStr (lit "shop")])])).
Proof.
  pose proof (manifest_dedupe
                [(lit "modules", JArr [manifestEntry (lit "shop") (lit "shop")])]
                [manifestEntry (lit "shop") (lit "shop")]
                (lit "shop") (lit "store") (lit "shop") eq_refl
                ltac:(repeat constructor; discriminate)) as (Hf & _ & _ & Hl).
  split; [exact Hf | exact Hl].
Defined.

(** ** Leaf name *)

Lemma filter_none {A} (f : A -> bool) l :
  Forall (fun x => f x = false) l -> List.filter f l = [].
Proof. induction 1 as [|x t Hx _ IH]; simpl; [reflexivity | now rewrite Hx]. Qed.

Lemma last_filter {A} (f : A -> bool) l :
  Exists (fun x => f x = true) l ->
  exists pre x post, l = pre ++ x :: post /\ f x = true /\
    Forall (fun y => f y = false) post /\ last (List.filter f l) = Some x.
Proof.
  induction l as [|y t IH] using rev_ind; intros He; [inversion He|].
  destruct (f y) eqn:Ey.
  - exists t, y, []. repeat split; [assumption | constructor |].
    rewrite List.filter_app. simpl. rewrite Ey. apply last_snoc.
  - apply Exists_app in He as [He | He].
    + destruct (IH He) as (pre & x & post & -> & Hx & Hpost & Hlast).
      exists pre, x, (post ++ [y]). repeat split.
      * now rewrite <- app_assoc.
      * assumption.
      * apply Forall_app. split; [assumption | now constructor].
      * rewrite List.filter_app. simpl. rewrite Ey, app_nil_r. exact Hlast.
    + inversion He as [? ? Hy | ? ? Hy]; [congruence | inversion Hy].
Qed.

(** ** File system *)

Lemma bind_lift {A B} (a : A) (k : A -> io B) t : (lift (Ret a) ≫= k) t = k a t.
Proof. reflexivity. Qed.

Lemma bind_lift_throw {A B} e (k : A -> io B) t : (lift (Throw e) ≫= k) t = (t, Throw e).
Proof. reflexivity. Qed.

Lemma bind_existsSync {B} p (k : bool -> io B) t :
  (existsSync p ≫= k) t = k (bool_decide (is_Some (t !! p))) t.
Proof. reflexivity. Qed.

Lemma foldr_mkdir_lookup (qs : list path) (t : tree) (p : path) :
  foldr (fun q acc => <[q := Dir]> acc) t qs !! p
  = if bool_decide (p ∈ qs) then Some Dir else t !! p.
Proof.
  induction qs as [|q qs IH]; simpl.
  - reflexivity.
  - destruct (decide (q = p)) as [-> | Hne].
    + rewrite lookup_insert_eq. rewrite bool_decide_eq_true_2; [reflexivity | left].
    + rewrite lookup_insert_ne by assumption. rewrite IH.
      destruct (bool_decide (p ∈ qs)) eqn:E.
      * apply bool_decide_eq_true in E.
        rewrite bool_decide_eq_true_2; [reflexivity | now right].
      * apply bool_decide_eq_false in E.
        rewrite bool_decide_eq_false_2; [reflexivity|].
        intros Hin. apply elem_of_cons in Hin as [-> | Hin]; [now apply Hne | now apply E].
Qed.

Lemma prefixes_self (p : path) : p ∈ prefixes p.
Proof.
  unfold prefixes. apply list_elem_of_fmap. exists (length p). split.
  - symmetry. apply firstn_all.
  - apply list_elem_of_In, in_seq. lia.
Qed.

Lemma mkdirSync_creates p t t' :
  mkdirSync p t = (t', Ret tt) -> t' !! p = Some Dir.
Proof.
  unfold mkdirSync. pose proof (prefixes_self p) as Hp.
  remember (prefixes p) as qs. destruct (existsb (isFile t) qs); [discriminate|].
  intros [= <-]. rewrite foldr_mkdir_lookup.
  now rewrite bool_decide_eq_true_2.
Qed.

Section Grows.
Context {rt : Runtime}.
Variable cwd : path.

Lemma grows_ret {A} (a : A) : grows (mret a).
Proof. intros t t' o [= <- _] p Hp. exact Hp. Qed.

Lemma grows_lift {A} (o : outcome A) : grows (lift o).
Proof. intros t t' o' [= <- _] p Hp. exact Hp. Qed.

Lemma grows_throw {A} e : grows (@throw A e).
Proof. intros t t' o' [= <- _] p Hp. exact Hp. Qed.

Lemma grows_exit {A} c : grows (@processExit A c).
Proof. intros t t' o' [= <- _] p Hp. exact Hp. Qed.

Lemma grows_bind {A B} (m : io A) (k : A -> io B) :
  grows m -> (forall a, grows (k a)) -> grows (m ≫= k).
Proof.
  intros Hm Hk t t' o E p Hp. unfold mbind, io_bind in E.
  destruct (m t) as [t1 [a | e | c]] eqn:Em.
  - eapply Hk; [exact E|]. eapply Hm; [exact Em | exact Hp].
  - injection E as <- _. eapply Hm; [exact Em | exact Hp].
  - injection E as <- _. eapply Hm; [exact Em | exact Hp].
Qed.

Lemma grows_tryCatch {A} (m : io A) (h : exn -> io A) :
  grows m -> (forall e, grows (h e)) -> grows (tryCatch m h).
Proof.
  intros Hm Hh t t' o E p Hp. unfold tryCatch in E.
  destruct (m t) as [t1 [a | e | c]] eqn:Em.
  - injection E as <- _. eapply Hm; [exact Em | exact Hp].
  - eapply Hh; [exact E|]. eapply Hm; [exact Em | exact Hp].
  - injection E as <- _. eapply Hm; [exact Em | exact Hp].
Qed.

Lemma grows_existsSync p : grows (existsSync p).
Proof. intros t t' o [= <- _] q Hq. exact Hq. Qed.

Lemma grows_readFileSync p : grows (readFileSync p).
Proof.
  intros t t' o E q Hq. unfold readFileSync in E.
  destruct (t !! p) as [[|c]|]; injection E as <- _; exact Hq.
Qed.

Lemma grows_insert (t : tree) p n q : is_Some (t !! q) -> is_Some (<[p := n]> t !! q).
Proof.
  intros Hq. destruct (decide (p = q)) as [-> | Hne].
  - rewrite lookup_insert_eq. eauto.
  - now rewrite lookup_insert_ne.
Qed.

Lemma grows_mkdirSync p : grows (mkdirSync p).
Proof.
  intros t t' o E q Hq. unfold mkdirSync in E.
  remember (prefixes p) as qs.
  destruct (existsb (isFile t) qs); injection E as <- _; [exact Hq|].
  rewrite foldr_mkdir_lookup. destruct (bool_decide (q ∈ qs)); eauto.
Qed.

Lemma grows_writeFileSync p c : grows (writeFileSync p c).
Proof.
  intros t t' o E q Hq. unfold writeFileSync in E.
  destruct (writable t p); injection E as <- _; [now apply grows_insert | exact Hq].
Qed.

Lemma grows_appendFileSync p s : grows (appendFileSync p s).
Proof.
  intros t t' o E q Hq. unfold appendFileSync in E.
  destruct (writable t p); injection E as <- _; [now apply grows_insert | exact Hq].
Qed.

End Grows.

Ltac grows_step :=
  first
    [ apply grows_bind; [| intros ?]
    | apply grows_tryCatch; [| intros ?]
    | apply grows_ret | apply grows_lift | apply grows_throw | apply grows_exit
    | apply grows_existsSync | apply grows_readFileSync | apply grows_mkdirSync
    | apply grows_writeFileSync | apply grows_appendFileSync
    | match goal with
      | |- grows (if ?b then _ else _) => destruct b
      | |- grows (match ?x with _ => _ end) => destruct x
      end
    | progress unfold log, updateModuleJson, render, renderValues ].

(** Neither generator ever removes a file or a directory. *)
Lemma grows_generateServerModule {rt : Runtime} cwd tsHelper tsDone rawPath :
  grows (generateServerModule cwd tsHelper tsDone rawPath).
Proof. unfold generateServerModule. repeat grows_step. Qed.

Lemma grows_generateFrontendModule {rt : Runtime} cwd ts inputName route :
  grows (generateFrontendModule cwd ts inputName route).
Proof. unfold generateFrontendModule. repeat grows_step. Qed.

(** ** Generators *)

Lemma buildRoutePath_cases ps :
  (ps = [] /\ buildRoutePath ps = Throw TypeError)
  \/ (ps <> [] /\ exists r, buildRoutePath ps = Ret r).
Proof.
  destruct ps as [|q qs] using rev_ind; [left; split; reflexivity|].
  right. split; [now destruct qs|].
  unfold buildRoutePath. rewrite last_snoc. eauto.
Qed.

(** The frontend generator run on a project that already holds the
    module: it ends normally, and [module.log] has one more line. *)
Lemma frontend_has_no_guard :
  projectWithShop !! frontendModuleFolder projectDir (lit "shop") = Some Dir /\
  (generateFrontendModule (rt := exampleRuntime) projectDir
     (lit "2025-01-02 09:00:00") (lit "shop") None projectWithShop).2 = Ret tt /\
  projectWithShop !! (projectDir ++ [lit "module.log"])
  = Some (File [Chars (lit "[2025-01-01 10:00:00] Created module: shop | route: shop"
                       ++ newline)]) /\
  (generateFrontendModule (rt := exampleRuntime) projectDir
     (lit "2025-01-02 09:00:00") (lit "shop") None projectWithShop).1
    !! (projectDir ++ [lit "module.log"])
  = Some (File [Chars (lit "[2025-01-01 10:00:00] Created module: shop | route: shop"
                       ++ newline);
                Chars (lit "[2025-01-02 09:00:00] Created module: shop | route: shop"
                       ++ newline)]).
Proof. repeat split; vm_compute; reflexivity. Qed.

Section NoExit.
Context {rt : Runtime}.

Lemma noExit_ret {A} (a : A) : noExit (mret a).
Proof. intros t t' c. discriminate. Qed.

Lemma noExit_throw {A} e : noExit (@throw A e).
Proof. intros t t' c. discriminate. Qed.

Lemma noExit_lift {A} (o : outcome A) : (forall c, o <> Exit c) -> noExit (lift o).
Proof. intros Ho t t' c [= _ E]. now apply (Ho c). Qed.

Lemma noExit_bind {A B} (m : io A) (k : A -> io B) :
  noExit m -> (forall a, noExit (k a)) -> noExit (m ≫= k).
Proof.
  intros Hm Hk t t' c E. unfold mbind, io_bind in E.
  destruct (m t) as [t1 [a | e | c1]] eqn:Em.
  - now apply (Hk a t1 t' c).
  - discriminate E.
  - now apply (Hm t t1 c1).
Qed.

Lemma noExit_tryCatch {A} (m : io A) (h : exn -> io A) :
  noExit m -> (forall e, noExit (h e)) -> noExit (tryCatch m h).
Proof.
  intros Hm Hh t t' c E. unfold tryCatch in E.
  destruct (m t) as [t1 [a | e | c1]] eqn:Em.
  - discriminate E.
  - now apply (Hh e t1 t' c).
  - now apply (Hm t t1 c1).
Qed.

Lemma noExit_existsSync p : noExit (existsSync p).
Proof. intros t t' c. discriminate. Qed.

Lemma noExit_readFileSync p : noExit (readFileSync p).
Proof.
  intros t t' c. unfold readFileSync. destruct (t !! p) as [[|f]|]; discriminate.
Qed.

Lemma noExit_mkdirSync p : noExit (mkdirSync p).
Proof.
  intros t t' c. unfold mkdirSync. remember (prefixes p) as qs.
  destruct (existsb (isFile t) qs); discriminate.
Qed.

Lemma noExit_writeFileSync p f : noExit (writeFileSync p f).
Proof. intros t t' c. unfold writeFileSync. destruct (writable t p); discriminate. Qed.

Lemma noExit_appendFileSync p s : noExit (appendFileSync p s).
Proof. intros t t' c. unfold appendFileSync. destruct (writable t p); discriminate. Qed.

Lemma jsonParse_noExit f c : jsonParse f <> Exit c.
Proof. destruct f as [|[] []]; discriminate. Qed.

Lemma dropNamed_noExit name l c : dropNamed name l <> Exit c.
Proof.
  induction l as [|m rest IH]; [discriminate|]. cbn [dropNamed].
  destruct (getProp m (lit "name")) as [v | e | c1] eqn:Ev;
    [| discriminate | destruct m; discriminate Ev].
  destruct (dropNamed name rest) as [kept | e | c1]; [discriminate .. | exact IH].
Qed.

Lemma frontendManifest_noExit doc name route c : frontendManifest doc name route <> Exit c.
Proof.
  destruct doc as [| b | x | s | items | fields]; try discriminate.
  unfold frontendManifest.
  destruct (match lookupField (lit "modules") fields with
            | Some v => if truthy v then Some v else Some (JArr [])
            | None => Some (JArr [])
            end) as [[| | | | l |]|]; try discriminate.
  pose proof (dropNamed_noExit name l c) as Hd.
  destruct (dropNamed name l); [discriminate .. | congruence].
Qed.

End NoExit.

(** The only [process.exit] of the frontend generator is the handler of
    a failed [mkdirSync]: it has no guard on what exists. *)
Lemma frontend_exit_is_mkdir_failure {rt : Runtime} (cwd : path) (ts inputName : jsstring)
    (route : option jsstring) (t t' : tree) (c : Z) :
  generateFrontendModule cwd ts inputName route t = (t', Exit c) ->
  c = 1 /\
  exists e,
    (mkdirSync (pathJoin (frontendModuleFolder cwd inputName) [lit "components"]);;
     mkdirSync (pathJoin cwd [lit "src"; lit "routes";
                              match route with
                              | Some r => if nonEmpty r then r else toKebab inputName
                              | None => toKebab inputName
                              end])) t
    = (t', Throw e).
Proof.
  unfold generateFrontendModule, frontendModuleFolder.
  set (mk := mkdirSync _;; mkdirSync _).
  intros E. unfold mbind at 1, io_bind at 1 in E. unfold tryCatch in E.
  destruct (mk t) as [t1 [[] | e | c1]] eqn:Emk.
  - exfalso. revert E.
    match goal with |- ?m t1 = _ -> _ => assert (Hm : noExit m); [| apply Hm] end.
    repeat first
      [ apply noExit_bind; [| intros ?]
      | apply noExit_tryCatch; [| intros ?]
      | apply noExit_ret | apply noExit_existsSync | apply noExit_readFileSync
      | apply noExit_writeFileSync | apply noExit_appendFileSync
      | apply noExit_lift; intros ?; first [apply jsonParse_noExit | apply frontendManifest_noExit]
      | match goal with |- noExit (if ?b then _ else _) => destruct b end ].
  - unfold processExit in E. injection E as <- <-. split; [reflexivity | now exists e].
  - exfalso. revert Emk. subst mk.
    match goal with |- ?m t = _ -> _ => assert (Hm : noExit m); [| apply Hm] end.
    apply noExit_bind; [| intros ?]; apply noExit_mkdirSync.
Qed.

(** C3 (as amended). [create-server]: when the module directory exists,
    the run ends with exit status 1 and the tree is as it was.  With at
    least one segment in the path it is the guard that ends it. *)
Theorem server_guard {rt : Runtime} (cwd : path) (tsHelper tsDone rawPath : jsstring)
    (t : tree) :
  is_Some (t !! serverModuleFolder cwd rawPath) ->
  exists o,
    generateServerModule cwd tsHelper tsDone rawPath t = (t, o) /\
    exitStatus o = 1 /\
    (parts (parseModulePath rawPath) <> [] -> o = Exit 1).
Proof.
  intros Hdir. unfold generateServerModule.
  destruct (buildRoutePath_cases (parts (parseModulePath rawPath)))
    as [[Hnil E] | [Hne [r E]]]; rewrite E.
  - exists (Throw TypeError). repeat split. intros Hp. now destruct Hp.
  - exists (Exit 1). rewrite bind_lift, bind_existsSync.
    fold (serverModuleFolder cwd rawPath).
    rewrite bool_decide_eq_true_2 by exact Hdir. repeat split.
Qed.

Lemma server_guard_witness :
  exists o,
    generateServerModule (rt := exampleRuntime) projectDir (lit "2025-01-03T08:00:00.000Z")
      (lit "2025-01-03T08:00:00.001Z") (lit "bands/linkinpark/song") projectWithSong
    = (projectWithSong, o) /\
    exitStatus o = 1 /\
    (parts (parseModulePath (lit "bands/linkinpark/song")) <> [] -> o = Exit 1).
Proof.
  apply (server_guard (rt := exampleRuntime)).
  exists Dir. vm_compute. reflexivity.
Defined.

Section IoOnly.
Context {rt : Runtime}.

Lemma ioOnly_ret {A} (a : A) : ioOnly (mret a).
Proof. intros t t' o [= _ <-]. left. now exists a. Qed.

Lemma ioOnly_bind {A B} (m : io A) (k : A -> io B) :
  ioOnly m -> (forall a, ioOnly (k a)) -> ioOnly (m ≫= k).
Proof.
  intros Hm Hk t t' o E. unfold mbind, io_bind in E.
  destruct (m t) as [t1 [a | e | c]] eqn:Em.
  - eapply Hk. exact E.
  - injection E as _ <-. destruct (Hm _ _ _ Em) as [[a Ha] | Ha]; [discriminate Ha|].
    injection Ha as ->. now right.
  - injection E as _ <-. destruct (Hm _ _ _ Em) as [[a Ha] | Ha]; discriminate Ha.
Qed.

Lemma ioOnly_existsSync p : ioOnly (existsSync p).
Proof. intros t t' o [= _ <-]. left. eauto. Qed.

Lemma ioOnly_mkdirSync p : ioOnly (mkdirSync p).
Proof.
  intros t t' o E. unfold mkdirSync in E. remember (prefixes p) as qs.
  destruct (existsb (isFile t) qs); injection E as _ <-; [now right | left; eauto].
Qed.

Lemma ioOnly_writeFileSync p c : ioOnly (writeFileSync p c).
Proof.
  intros t t' o E. unfold writeFileSync in E.
  destruct (writable t p); injection E as _ <-; [left; eauto | now right].
Qed.

Lemma ioOnly_appendFileSync p s : ioOnly (appendFileSync p s).
Proof.
  intros t t' o E. unfold appendFileSync in E.
  destruct (writable t p); injection E as _ <-; [left; eauto | now right].
Qed.

(** A step that only the file system can stop has returned when the
    whole run was not stopped by the file system. *)
Lemma bind_inv_ioOnly {A B} (m : io A) (k : A -> io B) t t' o :
  ioOnly m -> (m ≫= k) t = (t', o) -> o <> Throw IOError ->
  exists a t1, m t = (t1, Ret a) /\ k a t1 = (t', o).
Proof.
  intros Hm E Ho. unfold mbind, io_bind in E.
  destruct (m t) as [t1 [a | e | c]] eqn:Em.
  - now exists a, t1.
  - injection E as _ <-. destruct (Hm _ _ _ Em) as [[a Ha] | Ha]; [discriminate Ha|].
    injection Ha as ->. now destruct Ho.
  - injection E as _ <-. destruct (Hm _ _ _ Em) as [[a Ha] | Ha]; discriminate Ha.
Qed.

End IoOnly.

Ltac ioOnly_step :=
  first
    [ apply ioOnly_bind; [| intros ?]
    | apply ioOnly_ret | apply ioOnly_existsSync | apply ioOnly_mkdirSync
    | apply ioOnly_writeFileSync | apply ioOnly_appendFileSync
    | match goal with |- ioOnly (if ?b then _ else _) => destruct b end
    | progress unfold log ].

(** C4. [create-server] run a second time on the same path, after a
    first run that the file system did not stop: the second run ends with
    exit status 1 and the tree, with the module files, the route files,
    the manifest and the log in it, is as the first run left it.  After a
    first run that completed it is the guard that ends the second. *)
Theorem server_second_run {rt : Runtime} (cwd : path) (ts1 ts2 ts3 ts4 rawPath : jsstring)
    (t t1 : tree) (o1 : outcome unit) :
  generateServerModule cwd ts1 ts2 rawPath t = (t1, o1) ->
  o1 <> Throw IOError ->
  exists o2,
    generateServerModule cwd ts3 ts4 rawPath t1 = (t1, o2) /\
    exitStatus o2 = 1 /\
    (o1 = Ret tt -> o2 = Exit 1).
Proof.
  intros Hrun Hio.
  destruct (buildRoutePath_cases (parts (parseModulePath rawPath)))
    as [[Hnil E] | [Hne [r E]]].
  { (* no segment: both runs throw in buildRoutePath *)
    unfold generateServerModule in Hrun. rewrite E, bind_lift_throw in Hrun.
    injection Hrun as <- <-. exists (Throw TypeError).
    unfold generateServerModule. rewrite E, bind_lift_throw.
    repeat split. discriminate. }
  assert (Hsecond : is_Some (t1 !! serverModuleFolder cwd rawPath) ->
            generateServerModule cwd ts3 ts4 rawPath t1 = (t1, Exit 1)).
  { intros Hdir. unfold generateServerModule. rewrite E, bind_lift, bind_existsSync.
    fold (serverModuleFolder cwd rawPath).
    now rewrite bool_decide_eq_true_2 by exact Hdir. }
  exists (Exit 1). split; [|now split]. apply Hsecond.
  unfold generateServerModule in Hrun. rewrite E, bind_lift, bind_existsSync in Hrun.
  fold (serverModuleFolder cwd rawPath) in Hrun.
  destruct (bool_decide (is_Some (t !! serverModuleFolder cwd rawPath))) eqn:Hguard.
  { (* the first run was ended by the guard *)
    injection Hrun as <- _. now apply bool_decide_eq_true in Hguard. }
  apply bind_inv_ioOnly in Hrun as (? & ? & _ & Hrun); [| repeat ioOnly_step | exact Hio].
  apply bind_inv_ioOnly in Hrun as (? & ? & _ & Hrun); [| repeat ioOnly_step | exact Hio].
  apply bind_inv_ioOnly in Hrun as (? & ? & _ & Hrun); [| repeat ioOnly_step | exact Hio].
  apply bind_inv_ioOnly in Hrun as (? & ? & _ & Hrun); [| repeat ioOnly_step | exact Hio].
  apply bind_inv_ioOnly in Hrun as ([] & t4 & Hmk & Hrun); [| repeat ioOnly_step | exact Hio].
  apply mkdirSync_creates in Hmk. fold (serverModuleFolder cwd rawPath) in Hmk.
  assert (Hg : forall A (m : io A), grows m -> forall ta tb o,
             m ta = (tb, o) -> is_Some (ta !! serverModuleFolder cwd rawPath) ->
             is_Some (tb !! serverModuleFolder cwd rawPath)).
  { intros A m Hm ta tb o Em. now apply (Hm ta tb o Em). }
  eapply Hg; [| exact Hrun | rewrite Hmk; eauto].
  repeat grows_step.
Qed.

Lemma server_second_run_witness :
  exists o2,
    generateServerModule (rt := exampleRuntime) projectDir
      (lit "2025-01-03T08:00:00.000Z") (lit "2025-01-03T08:00:00.001Z")
      (lit "bands/linkinpark/song") projectWithSong
    = (projectWithSong, o2) /\
    exitStatus o2 = 1 /\
    (Ret tt = Ret tt -> o2 = Exit 1).
Proof.
  apply (server_second_run (rt := exampleRuntime) projectDir
           (lit "2025-01-01T10:00:00.000Z") (lit "2025-01-01T10:00:00.001Z")
           (lit "2025-01-03T08:00:00.000Z") (lit "2025-01-03T08:00:00.001Z")
           (lit "bands/linkinpark/song") emptyProject projectWithSong (Ret tt)).
  - unfold projectWithSong.
    match goal with |- ?run = (?run.1, _) => transitivity (run.1, run.2) end.
    + apply surjective_pairing.
    + f_equal.
  - discriminate.
Defined.

(** The condition on the first run cannot be dropped: the writes are not
    transactional.  When the first run is stopped by the file system
    after the response helper is written and before the module directory
    is made, the second run passes the guard and writes the module. *)
Example second_run_after_log_failure :
  (generateServerModule (rt := exampleRuntime) projectDir
     (lit "2025-01-01T10:00:00.000Z") (lit "2025-01-01T10:00:00.001Z")
     (lit "bands/linkinpark/song") projectWithoutLog).2 = Throw IOError /\
  projectAfterLogFailure !! serverModuleFolder projectDir (lit "bands/linkinpark/song") = None /\
  projectAfterLogFailure !! (projectDir ++ [lit "src"; lit "lib"; lit "helpers"; lit "response.ts"])
  = Some (File [Rendered ResponseHelperTs []]) /\
  (generateServerModule (rt := exampleRuntime) projectDir
     (lit "2025-01-03T08:00:00.000Z") (lit "2025-01-03T08:00:00.001Z")
     (lit "bands/linkinpark/song") projectAfterLogFailure).1
    !! (serverModuleFolder projectDir (lit "bands/linkinpark/song") ++ [lit "types.ts"])
  = Some (File [Rendered TypesTs [lit "song"]]).
Proof. repeat split; vm_compute; reflexivity. Qed.

Lemma parts_blank input :
  Forall (fun seg => blank seg = true) (split isSlash input) ->
  parts (parseModulePath input) = [].
Proof.
  intros Hb. unfold parseModulePath. cbn [parts]. apply filter_none.
  eapply Forall_impl; [exact Hb|]. cbn beta. intros seg Hs.
  rewrite blank_forallb. unfold blank in Hs. now rewrite Hs.
Qed.

(** C10. The leaf name is the last segment that is not blank, when there
    is one.  When every segment is blank the parser has no leaf name and
    an empty [folderPath], and [generateServerModule] has no check for
    it: the run goes on into [buildRoutePath], whose [plural(undefined)]
    throws, instead of ending with a usage error. *)
Theorem leaf_name_partial (input : jsstring) :
  (Exists (fun seg => blank seg = false) (split isSlash input) ->
   exists pre leaf post,
     split isSlash input = pre ++ leaf :: post /\
     blank leaf = false /\
     Forall (fun seg => blank seg = true) post /\
     moduleName (parseModulePath input) = Some leaf) /\
  (Forall (fun seg => blank seg = true) (split isSlash input) ->
   moduleName (parseModulePath input) = None /\
   folderPath (parseModulePath input) = [] /\
   forall (R : Runtime) (cwd : path) (tsHelper tsDone : jsstring) (t : tree),
     generateServerModule cwd tsHelper tsDone input t = (t, Throw TypeError)) /\
  moduleName (parseModulePath (lit "/")) = None /\
  moduleName (parseModulePath (lit "///")) = None /\
  moduleName (parseModulePath (lit " / ")) = None /\
  moduleName (parseModulePath (lit "bands/linkinpark/song/ /")) = Some (lit "song").
Proof.
  split; [|split; [|repeat split]].
  - intros He.
    destruct (last_filter (fun seg => negb (blank seg)) (split isSlash input))
      as (pre & leaf & post & Hs & Hleaf & Hpost & Hlast).
    { eapply Exists_impl; [exact He|]. cbn beta. now intros seg ->. }
    exists pre, leaf, post. repeat split.
    + exact Hs.
    + now apply negb_true_iff.
    + eapply Forall_impl; [exact Hpost|]. cbn beta. intros seg. apply negb_false_iff.
    + unfold parseModulePath. cbn [moduleName]. rewrite <- Hlast. f_equal.
      apply filter_ext. intros v. apply blank_forallb.
  - intros Hb. pose proof (parts_blank input Hb) as Hp.
    unfold parseModulePath in Hp. cbn [parts] in Hp.
    repeat split.
    + unfold parseModulePath. cbn [moduleName]. now rewrite Hp.
    + unfold parseModulePath. cbn [folderPath]. now rewrite Hp.
    + intros R cwd tsHelper tsDone t.
      assert (E : buildRoutePath (parts (parseModulePath input)) = Throw TypeError)
        by now rewrite (parts_blank input Hb).
      unfold generateServerModule. rewrite E. apply bind_lift_throw.
Qed.

(** ** The generated service *)

Lemma includes_spec s k :
  includes s k = true <-> exists pre post, s = pre ++ k ++ post.
Proof.
  induction s as [|c t IH]; cbn [includes].
  - rewrite orb_false_r, bool_decide_eq_true. split.
    + intros E. rewrite take_nil in E. subst k. now exists [], [].
    + intros (pre & post & E). symmetry in E.
      apply app_eq_nil in E as [_ E]. apply app_eq_nil in E as [-> _].
      apply take_nil.
  - rewrite orb_true_iff, bool_decide_eq_true, IH. split.
    + intros [E | (pre & post & ->)].
      * exists [], (drop (length k) (c :: t)). cbn [app].
        rewrite <- E at 1. symmetry. apply take_drop.
      * now exists (c :: pre), post.
    + intros ([|c' pre] & post & E).
      * left. cbn [app] in E. rewrite E. apply take_app_length.
      * right. injection E as _ ->. now exists pre, post.
Qed.

Lemma filterThrowing_total {A B} (emb : A -> B) (f : B -> outcome bool) (g : A -> bool) l :
  (forall x, f (emb x) = Ret (g x)) ->
  filterThrowing f (map emb l) = Ret (map emb (List.filter g l)).
Proof.
  intros Hf. induction l as [|x t IH]; [reflexivity|].
  cbn [map filterThrowing List.filter]. rewrite Hf, IH. now destruct (g x).
Qed.

Lemma filter_map_comm {A B} (emb : A -> B) (f : B -> bool) l :
  List.filter f (map emb l) = map emb (List.filter (fun x => f (emb x)) l).
Proof.
  induction l as [|x t IH]; [reflexivity|]. cbn [map List.filter]. rewrite IH.
  now destruct (f (emb x)).
Qed.

Lemma filter_filter {A} (f g : A -> bool) l :
  List.filter g (List.filter f l) = List.filter (fun x => f x && g x) l.
Proof.
  induction l as [|x t IH]; [reflexivity|]. cbn [List.filter].
  destruct (f x); cbn [List.filter andb]; rewrite IH; reflexivity.
Qed.

Lemma filter_true {A} (l : list A) : List.filter (fun _ => true) l = l.
Proof. induction l as [|x t IH]; [reflexivity|]. cbn [List.filter]. now rewrite IH. Qed.

Lemma filter_sublist {A} (f : A -> bool) l : sublist (List.filter f l) l.
Proof.
  induction l as [|x t IH]; [constructor|]. cbn [List.filter].
  destruct (f x); now constructor.
Qed.

Lemma filterClass_typed {rt : Runtime} (recs : list person) (query : URLSearchParams) :
  filterClass (map toObj recs) query = Ret (map toObj (List.filter (passes query) recs)).
Proof.
  unfold filterClass.
  set (fa := fun x : person =>
               match addressFilter query with
               | Some a => bool_decide (toLowerCase (address x) = toLowerCase a)
               | None => true
               end).
  set (fn := fun x : person =>
               match ageFilter query with
               | Some n => PrimFloat.eqb (age x) n
               | None => true
               end).
  set (fs := fun x : person =>
               match searchFilter query with
               | Some s => includes (toLowerCase (name x)) (toLowerCase s)
               | None => true
               end).
  assert (Hpass : List.filter (passes query) recs
                  = List.filter fs (List.filter fn (List.filter fa recs))).
  { rewrite !filter_filter. apply filter_ext. intros x.
    unfold passes. subst fa fn fs. cbn beta. now rewrite andb_assoc. }
  rewrite Hpass. clear Hpass.
  assert (Ha : match queryGet query (lit "address") with
               | Some a =>
                   if nonEmpty a
                   then filterThrowing
                          (fun x => match lowerOf (lookupField (lit "address") x) with
                                    | Ret l => Ret (bool_decide (l = toLowerCase a))
                                    | Throw e => Throw e
                                    | Exit c => Exit c
                                    end) (map toObj recs)
                   else Ret (map toObj recs)
               | None => Ret (map toObj recs)
               end = Ret (map toObj (List.filter fa recs))).
  { subst fa. unfold addressFilter.
    destruct (queryGet query (lit "address")) as [a|]; [destruct (nonEmpty a)|].
    - now apply filterThrowing_total.
    - now rewrite filter_true.
    - now rewrite filter_true. }
  rewrite Ha. clear Ha. cbv zeta.
  assert (Hn : match queryGet query (lit "age") with
               | Some a =>
                   if nonEmpty a && negb (PrimFloat.is_nan (toNumber (JStr a)))
                   then List.filter
                          (fun x => numEq (lookupField (lit "age") x) (toNumber (JStr a)))
                          (map toObj (List.filter fa recs))
                   else map toObj (List.filter fa recs)
               | None => map toObj (List.filter fa recs)
               end = map toObj (List.filter fn (List.filter fa recs))).
  { subst fn. unfold ageFilter.
    destruct (queryGet query (lit "age")) as [a|];
      [destruct (nonEmpty a && negb (PrimFloat.is_nan (toNumber (JStr a))))|].
    - now rewrite filter_map_comm.
    - now rewrite filter_true.
    - now rewrite filter_true. }
  rewrite Hn. clear Hn.
  subst fs. unfold searchFilter.
  destruct (queryGet query (lit "s")) as [k|]; [destruct (nonEmpty k)|].
  - now apply filterThrowing_total.
  - now rewrite filter_true.
  - now rewrite filter_true.
Qed.

(** C5. The list service keeps exactly the records that pass every
    filter asked for, in the order of the store, and hands the store back
    as it was.  The address is compared up to case, the age as a number
    (an [age] that reads as NaN asks for nothing), the search key is
    looked for in the lower-cased name.  Without filters every record is
    returned; an address no record has gives the empty list. *)
Theorem list_filters {rt : Runtime} (recs : list person) (query : URLSearchParams) :
  let store := map toObj recs in
  let kept := List.filter (passes query) recs in
  filterClass store query = Ret (map toObj kept) /\
  getAllClass (Some query) store
  = (store, Ret (responseOk (Some (JArr (map JObj (map toObj kept)))) None)) /\
  sublist kept recs /\
  (forall x, In x kept <->
     In x recs /\
     (forall a, addressFilter query = Some a ->
        toLowerCase (address x) = toLowerCase a) /\
     (forall n, ageFilter query = Some n -> PrimFloat.eqb (age x) n = true) /\
     (forall s, searchFilter query = Some s ->
        exists pre post, toLowerCase (name x) = pre ++ toLowerCase s ++ post)) /\
  (forall a, queryGet query (lit "age") = Some a ->
     PrimFloat.is_nan (toNumber (JStr a)) = true -> ageFilter query = None) /\
  (addressFilter query = None -> ageFilter query = None -> searchFilter query = None ->
   kept = recs) /\
  getAllClass None store = (store, Ret (responseOk (Some (JArr (map JObj store))) None)) /\
  (forall a, addressFilter query = Some a ->
     Forall (fun x => toLowerCase (address x) <> toLowerCase a) recs -> kept = []).
Proof.
  cbv zeta. pose proof (filterClass_typed recs query) as Hf.
  split; [exact Hf|]. split; [unfold getAllClass; now rewrite Hf|].
  split; [apply filter_sublist|]. split; [|split; [|split; [|split]]].
  - intros x. rewrite filter_In. unfold passes.
    rewrite !andb_true_iff. split.
    + intros (Hin & (Ha & Hn) & Hs). repeat split; [exact Hin | | | ].
      * intros a Ea. rewrite Ea in Ha. now apply bool_decide_eq_true in Ha.
      * intros n En. now rewrite En in Hn.
      * intros k Ek. rewrite Ek in Hs. now apply includes_spec.
    + intros (Hin & Ha & Hn & Hs). repeat split; [exact Hin | | | ].
      * destruct (addressFilter query) as [a|]; [|reflexivity].
        apply bool_decide_eq_true. now apply Ha.
      * destruct (ageFilter query) as [n|]; [|reflexivity]. now apply Hn.
      * destruct (searchFilter query) as [k|]; [|reflexivity].
        apply includes_spec. now apply Hs.
  - intros a Ea Hnan. unfold ageFilter. rewrite Ea, Hnan.
    now rewrite andb_false_r.
  - intros Ea En Es. unfold passes. rewrite Ea, En, Es. apply filter_true.
  - reflexivity.
  - intros a Ea Hno. apply filter_none.
    eapply Forall_impl; [exact Hno|]. cbn beta. intros x Hx.
    unfold passes. rewrite Ea.
    rewrite bool_decide_eq_false_2 by exact Hx. reflexivity.
Qed.

Example list_by_age :
  filterClass (rt := exampleRuntime) (songStore)
    [(lit "age", lit "21"); (lit "s", lit "USER")]
  = Ret [toObj {| id := lit "u1"; name := lit "Song User 2";
                  email := lit "song2@example.com"; address := lit "City 2";
                  age := 21%float |}].
Proof. vm_compute. reflexivity. Qed.

Example list_without_filters :
  getAllClass (rt := exampleRuntime) (Some [])
    (songStore)
  = (songStore,
     Ret (responseOk
            (Some (JArr (map JObj (songStore))))
            None)).
Proof. reflexivity. Qed.

Example list_ignores_unreadable_age :
  filterClass (rt := exampleRuntime) (songStore)
    [(lit "age", lit "old")]
  = Ret (songStore).
Proof. vm_compute. reflexivity. Qed.

Example list_by_unknown_address :
  filterClass (rt := exampleRuntime) (songStore)
    [(lit "address", lit "nowhere")]
  = Ret [].
Proof. vm_compute. reflexivity. Qed.





Example insert_reads_age :
  (insertClass (rt := exampleRuntime) (lit "u5") (Some exampleBody) []).1
  = [ [ (lit "id", JStr (lit "u5")); (lit "name", JStr (lit "Mike"));
        (lit "email", JStr (lit "mike@example.com")); (lit "address", JStr []);
        (lit "age", JNum 47%float) ] ].
Proof. vm_compute. reflexivity. Qed.

Example insert_rejects_missing_email :
  insertClass (rt := exampleRuntime) (lit "u5")
    (Some (JObj [(lit "name", JStr (lit "Mike"))])) []
  = ([], responseBadRequest (lit "Invalid payload") None).
Proof. reflexivity. Qed.

(** ** Seed data *)

Example seed_store_of_song :
  seedStore (rt := exampleRuntime) exampleUuid (lit "song") = Some songStore /\
  seedStore (rt := exampleRuntime) exampleUuid (lit "member") = Some memberStore.
Proof. split; vm_compute; reflexivity. Qed.

(** For a module name with a dash the text of [values.ts] is no module:
    [FAKE_USER-PROFILE] is no name. *)
Example seed_store_of_dashed_name :
  seedStore (rt := exampleRuntime) exampleUuid (lit "user-profile") = None.
Proof. vm_compute. reflexivity. Qed.

(** The text of [values.ts] for the module [song], its first record
    written out. *)
Example values_text_of_song :
  templateValues (rt := exampleRuntime) (lit "song")
  = lit "// Values for song module" ++ newline ++ newline
    ++ lit "import type { Song } from " ++ quote ++ lit "./types" ++ quote ++ lit ";"
    ++ newline ++ newline
    ++ lit "export let FAKE_SONG: Song[] = [" ++ newline
    ++ lit "    {" ++ newline
    ++ lit "        id: crypto.randomUUID()," ++ newline
    ++ lit "        name: " ++ quote ++ lit "Song User 1" ++ quote ++ lit "," ++ newline
    ++ lit "        email: " ++ quote ++ lit "song1@example.com" ++ quote ++ lit "," ++ newline
    ++ lit "        address: " ++ quote ++ lit "City 1" ++ quote ++ lit "," ++ newline
    ++ lit "        age: 20" ++ newline
    ++ lit "    }," ++ newline
    ++ join (lit "," ++ newline)
         (map (fun i => printRecord (seedRecord (rt := exampleRuntime) (lit "song") i))
              [1; 2; 3; 4]%nat)
    ++ newline ++ lit "];" ++ newline.
Proof. vm_compute. reflexivity. Qed.

(** A text in which a literal holds an escape is outside what the reader
    accepts. *)
Example tokens_of_escape :
  tokens (lit "x = " ++ quote ++ [ascii_of_nat 92] ++ lit "n" ++ quote) = None /\
  tokens (lit "x = " ++ quote ++ lit "n" ++ quote ++ lit "; // done")
  = Some [TIdent (lit "x"); TPunct Equals; TStr (lit "n"); TPunct Semicolon].
Proof. split; vm_compute; reflexivity. Qed.

(** *** The lexer on text that is known in part *)

Lemma identStart_not_space c : identStart c = true -> isWhiteSpace c = false.
Proof. destruct c as [[] [] [] [] [] [] [] []]; (reflexivity || discriminate). Qed.

Lemma strChar_not_quote c : strChar c = true -> isQuote c = false.
Proof. unfold strChar. now destruct (isQuote c). Qed.

Lemma identPart_strChar c : identPart c = true -> strChar c = true.
Proof. destruct c as [[] [] [] [] [] [] [] []]; (reflexivity || discriminate). Qed.

Lemma identPart_strChars s : forallb identPart s = true -> forallb strChar s = true.
Proof.
  induction s as [|c s IH]; [reflexivity|]. cbn [forallb]. intros H.
  apply andb_true_iff in H as [Hc H]. now rewrite (identPart_strChar c Hc), IH.
Qed.

Lemma identifierName_parts s : identifierName s = true -> forallb identPart s = true.
Proof.
  destruct s as [|c s]; [discriminate|]. cbn [identifierName forallb]. intros H.
  apply andb_true_iff in H as [Hc H]. unfold identPart at 1. now rewrite Hc, H.
Qed.

Lemma strChars_comment s :
  forallb strChar s = true -> forallb (fun c => negb (isLineTerminator c)) s = true.
Proof.
  induction s as [|c s IH]; [reflexivity|]. cbn [forallb]. intros H.
  apply andb_true_iff in H as [Hc H]. rewrite IH by exact H.
  unfold strChar in Hc. apply negb_true_iff in Hc.
  apply orb_false_iff in Hc as [_ Hc]. now rewrite Hc.
Qed.

Lemma lexRun_app st a b :
  lexRun st (a ++ b)
  = match lexRun st a with
    | Some (st', t1) =>
        match lexRun st' b with
        | Some (st'', t2) => Some (st'', t1 ++ t2)
        | None => None
        end
    | None => None
    end.
Proof.
  revert st. induction a as [|c a IH]; intros st; cbn [app lexRun].
  { now destruct (lexRun st b) as [[st' t]|]. }
  destruct (step st c) as [[st' new]|]; [|reflexivity]. cbn [mbind option_bind].
  rewrite IH. destruct (lexRun st' a) as [[st1 t1]|]; [|reflexivity].
  cbn [mbind option_bind].
  destruct (lexRun st1 b) as [[st2 t2]|]; [|reflexivity].
  cbn [mbind option_bind]. now rewrite app_assoc.
Qed.

(** Inside a line comment nothing but a line terminator counts. *)
Lemma lex_comment body :
  forallb (fun c => negb (isLineTerminator c)) body = true ->
  lexRun InComment body = Some (InComment, []).
Proof.
  induction body as [|c body IH]; [reflexivity|]. cbn [forallb lexRun step].
  intros H. apply andb_true_iff in H as [Hc H]. apply negb_true_iff in Hc.
  rewrite Hc. cbn [mbind option_bind]. now rewrite IH.
Qed.

Lemma lex_identPart body acc :
  forallb identPart body = true ->
  lexRun (InIdent acc) body = Some (InIdent (acc ++ body), []).
Proof.
  revert acc. induction body as [|c body IH]; intros acc.
  { now rewrite app_nil_r. }
  cbn [forallb lexRun step]. intros H. apply andb_true_iff in H as [Hc H].
  rewrite Hc. cbn [mbind option_bind]. rewrite IH by exact H.
  cbn [mbind option_bind app]. now rewrite <- app_assoc.
Qed.

Lemma lex_identStart id :
  identifierName id = true -> lexRun Start id = Some (InIdent id, []).
Proof.
  destruct id as [|c id]; [discriminate|]. cbn [identifierName lexRun step].
  intros H. apply andb_true_iff in H as [Hc H]. unfold stepStart.
  rewrite (identStart_not_space c Hc), Hc. cbn [mbind option_bind].
  now rewrite lex_identPart by exact H.
Qed.

Lemma lex_strChars body acc :
  forallb strChar body = true ->
  lexRun (InStr acc) body = Some (InStr (acc ++ body), []).
Proof.
  revert acc. induction body as [|c body IH]; intros acc.
  { now rewrite app_nil_r. }
  cbn [forallb lexRun step]. intros H. apply andb_true_iff in H as [Hc H].
  rewrite (strChar_not_quote c Hc), Hc. cbn [mbind option_bind].
  rewrite IH by exact H. cbn [mbind option_bind app]. now rewrite <- app_assoc.
Qed.

(** A literal without escapes is one token, and its text is its
    value. *)
Lemma lex_string body :
  forallb strChar body = true ->
  lexRun Start (quote ++ body ++ quote) = Some (Start, [TStr body]).
Proof.
  intros H. change (quote ++ body ++ quote) with ([ascii_of_nat 34] ++ (body ++ quote)).
  rewrite lexRun_app. change (lexRun Start [ascii_of_nat 34]) with (Some (InStr [], @nil token)).
  cbv beta iota. rewrite lexRun_app, (lex_strChars body [] H). reflexivity.
Qed.

Lemma lexRun_string body rest :
  forallb strChar body = true ->
  lexRun Start (quote ++ body ++ quote ++ rest)
  = match lexRun Start rest with
    | Some (st, more) => Some (st, TStr body :: more)
    | None => None
    end.
Proof.
  intros H. rewrite !app_assoc, lexRun_app, <- app_assoc, (lex_string body H). reflexivity.
Qed.

Lemma lexRun_string2 a b rest :
  forallb strChar (a ++ b) = true ->
  lexRun Start (quote ++ a ++ b ++ quote ++ rest)
  = match lexRun Start rest with
    | Some (st, more) => Some (st, TStr (a ++ b) :: more)
    | None => None
    end.
Proof. intros H. rewrite <- (lexRun_string _ _ H). now rewrite <- !app_assoc. Qed.

Lemma lexRun_string3 a b c rest :
  forallb strChar (a ++ b ++ c) = true ->
  lexRun Start (quote ++ a ++ b ++ c ++ quote ++ rest)
  = match lexRun Start rest with
    | Some (st, more) => Some (st, TStr (a ++ b ++ c) :: more)
    | None => None
    end.
Proof. intros H. rewrite <- (lexRun_string _ _ H). now rewrite <- !app_assoc. Qed.

Lemma isReserved_FAKE (u : jsstring) : isReserved (lit "FAKE_" ++ u) = false.
Proof.
  apply bool_decide_eq_false_2. unfold reservedWords. cbn [map List.map]. intros Hin.
  repeat (apply elem_of_cons in Hin as [Hin | Hin]; [discriminate Hin|]).
  now apply elem_of_nil in Hin.
Qed.

(** [strChars_closed]: the units of a literal stand for themselves. *)
Ltac strChars_closed :=
  rewrite ?forallb_app;
  repeat match goal with
         | H : forallb strChar ?s = true |- context [forallb strChar ?s] => rewrite H
         end;
  vm_compute; reflexivity.

(** [lex_piece]: the lexer over the next piece of a text, a string
    literal as a whole, a name by the lemmas above, text that is known by
    evaluation. *)
Ltac lex_piece :=
  first
    [ rewrite lexRun_string by strChars_closed
    | rewrite lexRun_string2 by strChars_closed
    | rewrite lexRun_string3 by strChars_closed
    | rewrite lexRun_app;
      first
        [ rewrite lex_comment by assumption
        | rewrite lex_identStart by assumption
        | rewrite lex_identPart by assumption
        | match goal with
          | |- context [lexRun ?st ?p] =>
              let r := eval vm_compute in (lexRun st p) in
              match r with
              | Some _ => change (lexRun st p) with r
              end
          end ];
      cbv beta iota ].

(** The text [templateValues] writes for a name reads back as the array
    literal of its five records. *)
Lemma values_read_back {rt : Runtime} (name : jsstring) :
  identifierName name = true ->
  identifierName (capitalize name) = true ->
  isReserved (capitalize name) = false ->
  forallb identPart (toUpperCase name) = true ->
  readValues (templateValues name) = Some (seedLiteral name).
Proof.
  intros Hn HC HCr HU. unfold readValues, tokens, templateValues, seedLiteral.
  remember (capitalize name) as C. remember (toUpperCase name) as U.
  pose proof (identPart_strChars _ (identifierName_parts _ Hn)) as Hns.
  pose proof (identPart_strChars _ (identifierName_parts _ HC)) as HCs.
  pose proof (strChars_comment _ Hns) as Hnc.
  cbn [map List.map seq join]. unfold printRecord, seedRecord.
  cbn [map List.map join]. unfold printField, printExpr. cbn [fst snd].
  rewrite <- ?HeqC. rewrite <- !app_assoc.
  repeat lex_piece.
  match goal with
  | |- context [lexRun ?st ?p] =>
      let r := eval vm_compute in (lexRun st p) in change (lexRun st p) with r
  end.
  cbv beta iota. cbn [app mbind option_bind finish].
  pose proof (isReserved_FAKE U) as HF. cbn [app lit list_ascii_of_string] in HF.
  repeat (cbv [parseValues expectIdent expectPunct takeName takeString mbind option_bind];
          first [ rewrite bool_decide_eq_true_2 by reflexivity
                | rewrite HCr | rewrite HF ]).
  vm_compute. reflexivity.
Qed.

(** With the upper-case mapping of the example runtime every module
    name that is an identifier meets the conditions of the next
    theorem. *)
Lemma identifiers_qualify (module : jsstring) :
  identifierName module = true ->
  identifierName (capitalize (rt := exampleRuntime) module) = true /\
  isReserved (capitalize (rt := exampleRuntime) module) = false /\
  forallb identPart (toUpperCase (Runtime := exampleRuntime) module) = true.
Proof.
  intros Hn. pose proof (identifierName_parts _ Hn) as Hparts.
  assert (Hpart : forall c, identPart c = true -> identPart (upperUnit c) = true)
    by (intros [[] [] [] [] [] [] [] []]; (reflexivity || discriminate)).
  assert (Hstart : forall c, identStart c = true -> identStart (upperUnit c) = true)
    by (intros [[] [] [] [] [] [] [] []]; (reflexivity || discriminate)).
  assert (Hlow : forall c, identStart c = true ->
            (97 <=? unit_code (upperUnit c))%N && (unit_code (upperUnit c) <=? 122)%N = false)
    by (intros [[] [] [] [] [] [] [] []]; (reflexivity || discriminate)).
  destruct module as [|c r]; [discriminate Hn|].
  assert (Hcap : capitalize (rt := exampleRuntime) (c :: r) = upperUnit c :: r).
  { unfold capitalize, slice, relIndex. cbn [toUpperCase exampleRuntime take map app length].
    f_equal.
    replace (Z.of_nat (S (length r)) <? 0) with false by (symmetry; apply Z.ltb_ge; lia).
    change (1 <? 0) with false. cbv iota.
    replace (Z.min 1 (Z.of_nat (S (length r)))) with 1 by lia.
    replace (Z.min (Z.of_nat (S (length r))) (Z.of_nat (S (length r))))
      with (Z.of_nat (S (length r))) by lia.
    change (Z.to_nat 1) with 1%nat. cbn [drop].
    apply take_ge. lia. }
  cbn [identifierName] in Hn. apply andb_true_iff in Hn as [Hc Hr].
  rewrite Hcap. split; [|split].
  - cbn [identifierName]. now rewrite (Hstart c Hc), Hr.
  - apply bool_decide_eq_false_2. intros Hin.
    assert (Hall : forallb (fun w => match w with
                                     | d :: _ => (97 <=? unit_code d)%N && (unit_code d <=? 122)%N
                                     | [] => false
                                     end) reservedWords = true) by (vm_compute; reflexivity).
    rewrite forallb_forall in Hall. apply list_elem_of_In, Hall in Hin.
    now rewrite (Hlow c Hc) in Hin.
  - cbn [toUpperCase exampleRuntime]. clear Hcap Hc Hr.
    induction (c :: r) as [|d l IH]; [reflexivity|]. cbn [map forallb] in *.
    apply andb_true_iff in Hparts as [Hd Hl]. now rewrite (Hpart d Hd), IH.
Qed.

(** C6. For a module name that is an identifier (and whose capitalised
    and upper-case forms are names the module can declare), the text
    [templateValues] writes is a module whose array has five records.
    Their ages are 20, 21, 22, 23 and 24 in this order; the identifier
    of each is the value of its own call of [crypto.randomUUID], made
    when the module is loaded, so the identifiers differ exactly when
    the values of the five calls do; the name is the capitalised module
    name, " User " and the index counted from 1. *)
Theorem seed_records {rt : Runtime} (uuid : nat -> jsstring) (module : jsstring) :
  identifierName module = true ->
  identifierName (capitalize module) = true ->
  isReserved (capitalize module) = false ->
  forallb identPart (toUpperCase module) = true ->
  exists store,
    seedStore uuid module = Some store /\
    length store = 5%nat /\
    map (lookupField (lit "age")) store
    = [Some (JNum 20%float); Some (JNum 21%float); Some (JNum 22%float);
       Some (JNum 23%float); Some (JNum 24%float)] /\
    map (lookupField (lit "id")) store
    = map (fun k => Some (JStr (uuid k))) (seq 0 5) /\
    (NoDup (map (lookupField (lit "id")) store) <-> NoDup (map uuid (seq 0 5))) /\
    map (lookupField (lit "name")) store
    = map (fun i => Some (JStr (capitalize module ++ lit " User " ++ decimal (i + 1))))
          (seq 0 5) /\
    store = map toObj (seedPeople uuid module).
Proof.
  intros Hn HC HCr HU.
  exists (evalArray uuid 0 (seedLiteral module)).
  split.
  { unfold seedStore. now rewrite (values_read_back module Hn HC HCr HU). }
  split; [reflexivity|]. split; [reflexivity|]. split; [reflexivity|].
  split; [|split; reflexivity].
  change (map (lookupField (lit "id")) (evalArray uuid 0 (seedLiteral module)))
    with ((fun s => Some (JStr s)) <$> (map uuid (seq 0 5))).
  assert (Hinj : Inj (=) (=) (fun s : jsstring => Some (JStr s)))
    by (intros a b E; now injection E).
  apply (NoDup_fmap (fun s : jsstring => Some (JStr s))).
Qed.

Lemma seed_records_witness :
  exists store,
    seedStore (rt := exampleRuntime) exampleUuid (lit "member") = Some store /\
    length store = 5%nat /\
    map (lookupField (lit "age")) store
    = [Some (JNum 20%float); Some (JNum 21%float); Some (JNum 22%float);
       Some (JNum 23%float); Some (JNum 24%float)] /\
    map (lookupField (lit "id")) store
    = map (fun k => Some (JStr (exampleUuid k))) (seq 0 5) /\
    (NoDup (map (lookupField (lit "id")) store) <-> NoDup (map exampleUuid (seq 0 5))) /\
    map (lookupField (lit "name")) store
    = map (fun i => Some (JStr (capitalize (rt := exampleRuntime) (lit "member")
                                ++ lit " User " ++ decimal (i + 1))))
          (seq 0 5) /\
    store = map toObj (seedPeople (rt := exampleRuntime) exampleUuid (lit "member")).
Proof.
  apply (seed_records (rt := exampleRuntime) exampleUuid (lit "member")); reflexivity.
Defined.

(** * Further properties of the code *)

(** ** The pluraliser and the parsed path *)

Lemma endsWith_snoc t c : endsWith (t ++ [c]) [c] = true.
Proof. apply endsWith_app. Qed.

(** X1. Whatever the leaf, its plural ends in "s", and the pluraliser
    leaves its own results as they are. *)
Theorem plural_ends_in_s (str : jsstring) :
  endsWith (plural str) (lit "s") = true /\
  plural (plural str) = plural str.
Proof.
  assert (He : endsWith (plural str) (lit "s") = true).
  { unfold plural. destruct (endsWith str (lit "s")) eqn:Es; [exact Es|].
    destruct (endsWith str (lit "y")).
    - change (lit "ies") with (lit "ie" ++ lit "s"). rewrite app_assoc.
      apply endsWith_app.
    - apply endsWith_app. }
  split; [exact He|]. unfold plural at 1. now rewrite He.
Qed.

Lemma split_slash_free s :
  Forall (fun c => isSlash c = false) s -> split isSlash s = [s].
Proof.
  induction 1 as [|c t Hc _ IH]; [reflexivity|].
  cbn [split]. now rewrite Hc, IH.
Qed.

Lemma split_app_slash p s :
  Forall (fun c => isSlash c = false) p ->
  split isSlash (p ++ lit "/" ++ s) = p :: split isSlash s.
Proof.
  induction 1 as [|c t Hc _ IH]; [reflexivity|].
  cbn [app split]. rewrite Hc. cbn [app] in IH. now rewrite IH.
Qed.

(** [split] undoes [join] on segments without a slash. *)
Lemma split_join ps :
  ps <> [] -> Forall (Forall (fun c => isSlash c = false)) ps ->
  split isSlash (join (lit "/") ps) = ps.
Proof.
  intros Hne Hps. induction Hps as [|p rest Hp Hrest IH]; [now destruct Hne|].
  destruct rest as [|q rest].
  - cbn [join]. now apply split_slash_free.
  - rewrite join_cons2, split_app_slash by exact Hp. f_equal. now apply IH.
Qed.

Lemma parts_invariant input :
  Forall (fun seg => blank seg = false /\ Forall (fun c => isSlash c = false) seg)
         (parts (parseModulePath input)).
Proof.
  unfold parseModulePath. cbn [parts]. apply Forall_forall. intros seg Hin.
  apply list_elem_of_In, filter_In in Hin as [Hin Hb]. split.
  - rewrite blank_forallb in Hb. now apply negb_true_iff in Hb.
  - pose proof (split_no_sep isSlash input) as Hs.
    rewrite Forall_forall in Hs. apply Hs. now apply list_elem_of_In.
Qed.

Lemma filter_all {A} (f : A -> bool) l :
  Forall (fun x => f x = true) l -> List.filter f l = l.
Proof. induction 1 as [|x t Hx _ IH]; cbn [List.filter]; [reflexivity | now rewrite Hx, IH]. Qed.

(** Parsing the text of a list of parts gives the parts back. *)
Lemma parse_join ps :
  Forall (fun seg => blank seg = false /\ Forall (fun c => isSlash c = false) seg) ps ->
  parts (parseModulePath (join (lit "/") ps)) = ps.
Proof.
  intros Hps. unfold parseModulePath. cbn [parts].
  destruct ps as [|p rest]; [reflexivity|].
  rewrite split_join; [| discriminate |].
  - apply filter_all. eapply Forall_impl; [exact Hps|]. cbn beta.
    intros seg [Hb _]. rewrite blank_forallb. unfold blank in Hb. now rewrite Hb.
  - eapply Forall_impl; [exact Hps|]. cbn beta. now intros seg [_ Hs].
Qed.

(** X2. The parts the parser keeps are never blank and hold no slash,
    and [folderPath] is a normal form: parsed again, it gives the same
    leaf name, the same folder path and the same parts. *)
Theorem folderPath_reparse (input : jsstring) :
  Forall (fun seg => blank seg = false /\ Forall (fun c => c <> "/"%char) seg)
         (parts (parseModulePath input)) /\
  parseModulePath (folderPath (parseModulePath input)) = parseModulePath input.
Proof.
  pose proof (parts_invariant input) as Hinv. split.
  - eapply Forall_impl; [exact Hinv|]. cbn beta. intros seg [Hb Hs]. split; [exact Hb|].
    eapply Forall_impl; [exact Hs|]. cbn beta. intros c Hc ->. discriminate Hc.
  - pose proof (parse_join _ Hinv) as Hp.
    change (join (lit "/") (parts (parseModulePath input)))
      with (folderPath (parseModulePath input)) in Hp.
    unfold parseModulePath at 1. unfold parseModulePath at 1 in Hp. cbn [parts] in Hp.
    rewrite Hp. reflexivity.
Qed.

Lemma blank_app a b : blank (a ++ b) = blank a && blank b.
Proof. unfold blank. apply forallb_app. Qed.

Lemma plural_keeps_shape leaf :
  blank leaf = false -> Forall (fun c => isSlash c = false) leaf ->
  blank (plural leaf) = false /\ Forall (fun c => isSlash c = false) (plural leaf).
Proof.
  intros Hb Hs. unfold plural.
  destruct (endsWith leaf (lit "s")); [now split|].
  destruct (endsWith leaf (lit "y")) eqn:Ey.
  - apply endsWith_inv in Ey as [t ->]. change (lit "y") with ["y"%char].
    rewrite slice_init. split.
    + rewrite blank_app. apply andb_false_intro2. reflexivity.
    + apply Forall_app in Hs as [Ht _]. apply Forall_app. split; [exact Ht|].
      repeat constructor.
  - split.
    + rewrite blank_app, Hb. reflexivity.
    + apply Forall_app. split; [exact Hs | repeat constructor].
Qed.

Lemma join_snoc sep ps p :
  ps <> [] -> join sep (ps ++ [p]) = join sep ps ++ sep ++ p.
Proof.
  induction ps as [|q qs IH]; [easy|]. intros _.
  destruct qs as [|q' qs]; [reflexivity|].
  change ((q :: q' :: qs) ++ [p]) with (q :: (q' :: qs) ++ [p]).
  change ((q' :: qs) ++ [p]) with (q' :: qs ++ [p]) at 1.
  rewrite !join_cons2. change (q' :: qs ++ [p]) with ((q' :: qs) ++ [p]).
  rewrite IH by discriminate. now rewrite <- !app_assoc.
Qed.

(** X3. The route path of a parsed module path is again a path of the
    same shape: parsed, it has the same parent segments and the
    pluralised leaf as its leaf name. *)
Theorem route_reparse (input : jsstring) (parents : list jsstring) (leaf : jsstring) :
  parts (parseModulePath input) = parents ++ [leaf] ->
  exists route,
    buildRoutePath (parts (parseModulePath input)) = Ret route /\
    parts (parseModulePath route) = parents ++ [plural leaf] /\
    moduleName (parseModulePath route) = Some (plural leaf) /\
    folderPath (parseModulePath route) = route.
Proof.
  intros Hp. pose proof (parts_invariant input) as Hinv. rewrite Hp in *.
  apply Forall_app in Hinv as [Hpar Hleaf].
  apply Forall_cons in Hleaf as [[Hb Hs] _].
  destruct (plural_keeps_shape leaf Hb Hs) as [Hb' Hs'].
  assert (Hroute : buildRoutePath (parents ++ [leaf])
                   = Ret (join (lit "/") (parents ++ [plural leaf]))).
  { unfold buildRoutePath. rewrite last_snoc, slice_init.
    destruct parents as [|q qs]; [reflexivity|].
    rewrite join_nonEmpty.
    - now rewrite join_snoc.
    - apply Forall_cons in Hpar as [[Hq _] _]. intros ->. discriminate Hq. }
  exists (join (lit "/") (parents ++ [plural leaf])). split; [exact Hroute|].
  assert (Hparts : parts (parseModulePath (join (lit "/") (parents ++ [plural leaf])))
                   = parents ++ [plural leaf]).
  { apply parse_join. apply Forall_app. split; [exact Hpar|]. now repeat constructor. }
  split; [exact Hparts|].
  unfold parseModulePath in *. cbn [parts moduleName folderPath] in *.
  rewrite Hparts. split; [apply last_snoc | reflexivity].
Qed.

Lemma route_reparse_witness :
  exists route,
    buildRoutePath (parts (parseModulePath (lit "shop//category/"))) = Ret route /\
    parts (parseModulePath route) = [lit "shop"] ++ [plural (lit "category")] /\
    moduleName (parseModulePath route) = Some (plural (lit "category")) /\
    folderPath (parseModulePath route) = route.
Proof. exact (route_reparse (lit "shop//category/") [lit "shop"] (lit "category") eq_refl). Defined.

(** ** Where the generators write *)

Lemma normalizeSegs_clean acc segs :
  Forall (fun s => s <> [] /\ s <> lit "." /\ s <> lit "..") segs ->
  normalizeSegs acc segs = rev acc ++ segs.
Proof.
  intros Hc. revert acc. induction Hc as [|s rest (H0 & H1 & H2) _ IH]; intros acc.
  - cbn [normalizeSegs]. now rewrite app_nil_r.
  - cbn [normalizeSegs].
    rewrite !bool_decide_eq_false_2 by assumption. cbn [orb].
    rewrite IH. cbn [rev]. now rewrite <- app_assoc.
Qed.

Lemma normalizeSegs_app acc a b :
  Forall (fun s => s <> [] /\ s <> lit "." /\ s <> lit "..") a ->
  normalizeSegs acc (a ++ b) = normalizeSegs (rev a ++ acc) b.
Proof.
  intros Hc. revert acc. induction Hc as [|s rest (H0 & H1 & H2) _ IH]; intros acc.
  - reflexivity.
  - cbn [app normalizeSegs].
    rewrite !bool_decide_eq_false_2 by assumption. cbn [orb].
    rewrite IH. cbn [rev]. now rewrite <- app_assoc.
Qed.

(** X4. Unless a part of the path is "." or "..", the module directory
    of [create-server] is [src/lib/modules] under the working directory
    followed by the parts, one directory each. *)
Theorem serverModuleFolder_below (cwd : path) (rawPath : jsstring) :
  Forall (fun seg => seg <> lit "." /\ seg <> lit "..") (parts (parseModulePath rawPath)) ->
  serverModuleFolder cwd rawPath
  = cwd ++ [lit "src"; lit "lib"; lit "modules"] ++ parts (parseModulePath rawPath).
Proof.
  intros Hdots. pose proof (parts_invariant rawPath) as Hinv.
  unfold serverModuleFolder, pathJoin.
  change (folderPath (parseModulePath rawPath))
    with (join (lit "/") (parts (parseModulePath rawPath))).
  cbn [flat_map]. rewrite app_nil_r.
  change (split isSlash (lit "src/lib/modules")) with [lit "src"; lit "lib"; lit "modules"].
  destruct (parts (parseModulePath rawPath)) as [|p rest] eqn:Ep.
  - change (split isSlash (join (lit "/") [])) with [@nil ascii].
    rewrite normalizeSegs_app by (repeat constructor; discriminate).
    cbn [normalizeSegs]. rewrite bool_decide_eq_true_2 by reflexivity. cbn [orb].
    rewrite rev_app_distr, !rev_involutive. reflexivity.
  - rewrite split_join; [| discriminate |].
    + rewrite normalizeSegs_clean, rev_involutive; [reflexivity|].
      apply Forall_app. split; [repeat constructor; discriminate|].
      apply Forall_forall. intros seg Hin.
      rewrite Forall_forall in Hinv, Hdots.
      destruct (Hinv seg Hin) as [Hb _]. destruct (Hdots seg Hin) as [H1 H2].
      repeat split; [| exact H1 | exact H2]. intros ->. discriminate Hb.
    + eapply Forall_impl; [exact Hinv|]. cbn beta. now intros seg [_ Hs].
Qed.

Lemma serverModuleFolder_below_witness :
  serverModuleFolder projectDir (lit "bands/linkinpark/song")
  = projectDir ++ [lit "src"; lit "lib"; lit "modules"]
    ++ parts (parseModulePath (lit "bands/linkinpark/song")).
Proof.
  apply serverModuleFolder_below. repeat constructor; discriminate.
Defined.

(** With ".." among the parts the module directory leaves
    [src/lib/modules], and the working directory with enough of them. *)
Example serverModuleFolder_escapes :
  serverModuleFolder projectDir (lit "../../../../etc")
  = [lit "home"; lit "dev"; lit "etc"].
Proof. reflexivity. Qed.

Lemma replaceRuns_nil b s : replaceRuns b s = [] -> s = [] \/ b = true.
Proof.
  destruct s as [|c t]; [now left|]. cbn [replaceRuns].
  destruct (isKebabSep c); [destruct b; [now right | discriminate] | discriminate].
Qed.

(** [toKebab] gives the empty name exactly for a blank input, and the
    module directory is then [src/lib/modules] itself. *)
Lemma toKebab_nil_iff (s : jsstring) (cwd : path) :
  (toKebab s = [] <-> blank s = true) /\
  (blank s = true ->
   frontendModuleFolder cwd s = cwd ++ [lit "src"; lit "lib"; lit "modules"]).
Proof.
  assert (Hiff : toKebab s = [] <-> blank s = true).
  { unfold toKebab, blank. rewrite forallb_forall. split.
    - intros E. apply replaceRuns_nil in E as [E | E]; [|discriminate E].
      apply map_eq_nil in E. apply trim_blank in E. rewrite Forall_forall in E.
      intros c Hc. apply E. now apply list_elem_of_In.
    - intros Hb. assert (E : trim s = []).
      { apply trim_blank. apply Forall_forall. intros c Hc. apply Hb.
        now apply list_elem_of_In. }
      now rewrite E. }
  split; [exact Hiff|]. intros Hb. apply Hiff in Hb.
  unfold frontendModuleFolder, pathJoin. rewrite Hb.
  change (flat_map (split isSlash) [lit "src"; lit "lib"; lit "modules"; []])
    with ([lit "src"; lit "lib"; lit "modules"] ++ [@nil ascii]).
  rewrite normalizeSegs_app by (repeat constructor; discriminate).
  cbn [normalizeSegs]. rewrite bool_decide_eq_true_2 by reflexivity. cbn [orb].
  rewrite rev_app_distr, !rev_involutive. reflexivity.
Qed.

(** ** The manifest, further *)

Lemma lookupField_setField_eq k v fields : lookupField k (setField k v fields) = Some v.
Proof.
  induction fields as [|[k' v'] rest IH]; cbn [setField lookupField].
  - now rewrite bool_decide_eq_true_2.
  - destruct (bool_decide (k' = k)) eqn:E; cbn [lookupField].
    + now rewrite bool_decide_eq_true_2.
    + now rewrite E.
Qed.

Lemma lookupField_setField_ne k k' v fields :
  k' <> k -> lookupField k' (setField k v fields) = lookupField k' fields.
Proof.
  intros Hne. induction fields as [|[k0 v0] rest IH]; cbn [setField lookupField].
  - rewrite bool_decide_eq_false_2; [reflexivity | congruence].
  - destruct (bool_decide (k0 = k)) eqn:E; cbn [lookupField].
    + apply bool_decide_eq_true in E. subst k0.
      rewrite !bool_decide_eq_false_2 by congruence. reflexivity.
    + now rewrite IH.
Qed.

Lemma setField_setField k v v' fields :
  setField k v (setField k v' fields) = setField k v fields.
Proof.
  induction fields as [|[k0 v0] rest IH]; cbn [setField].
  - now rewrite bool_decide_eq_true_2.
  - destruct (bool_decide (k0 = k)) eqn:E; cbn [setField].
    + now rewrite bool_decide_eq_true_2.
    + now rewrite E, IH.
Qed.

Lemma some_app f l l' : some f l = Ret false -> some f (l ++ l') = some f l'.
Proof.
  induction l as [|m rest IH]; [reflexivity|]. cbn [some app].
  destruct (f m) as [[|] | e | c]; try discriminate. exact IH.
Qed.

(** X6. Registering a path with the server generator is idempotent: on
    the manifest a registration wrote, registering the same path again
    writes nothing. *)
Theorem serverManifest_idempotent (fields : list (jsstring * json))
    (pathString : jsstring) (doc' : json) :
  serverManifest (JObj fields) pathString = Ret (Some doc') ->
  serverManifest doc' pathString = Ret None.
Proof.
  unfold serverManifest at 1.
  set (l := match lookupField (lit "modules") fields with
            | Some (JArr l) => l
            | _ => []
            end).
  destruct (some (entryMatches pathString) l) as [[|] | e | c] eqn:Es; try discriminate.
  intros [= <-]. unfold serverManifest. rewrite lookupField_setField_eq.
  rewrite (some_app _ _ _ Es). cbn [some entryMatches].
  now rewrite bool_decide_eq_true_2.
Qed.

Lemma serverManifest_idempotent_witness :
  serverManifest
    (JObj [ (lit "name", JStr (lit "app"));
            (lit "modules", JArr [manifestEntry (lit "shop") (lit "shop"); JStr (lit "song");
                                  JStr (lit "bands/album")]) ])
    (lit "bands/album")
  = Ret None.
Proof.
  apply (serverManifest_idempotent
           [ (lit "name", JStr (lit "app"));
             (lit "modules", JArr [manifestEntry (lit "shop") (lit "shop"); JStr (lit "song")]) ]
           (lit "bands/album")).
  reflexivity.
Defined.

(** X7. Both manifest updates keep every member of the manifest other
    than [modules] as it was; the server update also keeps every entry of
    the list, in order, in front of the path it adds. *)
Theorem manifest_keeps_the_rest (fields : list (jsstring * json))
    (name route pathString : jsstring) :
  (forall doc', serverManifest (JObj fields) pathString = Ret (Some doc') ->
     exists fields' l,
       doc' = JObj fields' /\
       (forall k, k <> lit "modules" -> lookupField k fields' = lookupField k fields) /\
       lookupField (lit "modules") fields' = Some (JArr (l ++ [JStr pathString])) /\
       (forall l0, lookupField (lit "modules") fields = Some (JArr l0) -> l = l0)) /\
  (forall doc', frontendManifest (JObj fields) name route = Ret doc' ->
     exists fields',
       doc' = JObj fields' /\
       (forall k, k <> lit "modules" -> lookupField k fields' = lookupField k fields)) /\
  serverManifest moduleConfig pathString
  = Ret (Some (JObj [ (lit "name", JStr (lit "sv-modular-app"));
                      (lit "version", JStr (lit "1.0.0"));
                      (lit "type", JStr (lit "module"));
                      (lit "routes", JArr [JStr (lit "/src/routes")]);
                      (lit "modules", JArr [JStr pathString]) ])).
Proof.
  split; [|split; [|reflexivity]].
  - intros doc'. unfold serverManifest.
    set (l := match lookupField (lit "modules") fields with
              | Some (JArr l) => l
              | _ => []
              end).
    destruct (some (entryMatches pathString) l) as [[|] | e | c]; try discriminate.
    intros [= <-]. eexists _, l. split; [reflexivity|]. split; [|split].
    + intros k Hk. now apply lookupField_setField_ne.
    + apply lookupField_setField_eq.
    + intros l0 E. subst l. now rewrite E.
  - intros doc'. unfold frontendManifest.
    destruct (match lookupField (lit "modules") fields with
              | Some v => if truthy v then Some v else Some (JArr [])
              | None => Some (JArr [])
              end) as [[| | | | l |]|]; try discriminate.
    destruct (dropNamed name l) as [kept | e | c]; try discriminate.
    intros [= <-]. eexists. split; [reflexivity|].
    intros k Hk. now apply lookupField_setField_ne.
Qed.

Lemma dropNamed_no_null name l kept :
  dropNamed name l = Ret kept -> Forall (fun m => m <> JNull) l.
Proof.
  revert kept. induction l as [|m rest IH]; intros kept E; [constructor|].
  cbn [dropNamed] in E.
  destruct (getProp m (lit "name")) as [v | e | c] eqn:Ev; try discriminate.
  destruct (dropNamed name rest) as [kept' | e | c] eqn:Er; try discriminate.
  constructor; [|eapply IH; reflexivity].
  intros ->. discriminate Ev.
Qed.

Lemma filter_idem {A} (f : A -> bool) l :
  List.filter f (List.filter f l) = List.filter f l.
Proof.
  induction l as [|x t IH]; [reflexivity|]. cbn [List.filter].
  destruct (f x) eqn:E; cbn [List.filter]; [now rewrite E, IH | exact IH].
Qed.

(** X8. After the frontend generator has updated the manifest, exactly
    one entry of [modules] carries the module's name, the new one, at the
    end; and the update is idempotent: run again with the same name and
    route it gives the same manifest. *)
Theorem frontendManifest_idempotent (fields : list (jsstring * json))
    (name route : jsstring) (doc' : json) :
  frontendManifest (JObj fields) name route = Ret doc' ->
  frontendManifest doc' name route = Ret doc' /\
  exists fields' kept,
    doc' = JObj fields' /\
    lookupField (lit "modules") fields' = Some (JArr (kept ++ [manifestEntry name route])) /\
    List.filter (namedLike name) kept = [].
Proof.
  unfold frontendManifest at 1.
  destruct (match lookupField (lit "modules") fields with
            | Some v => if truthy v then Some v else Some (JArr [])
            | None => Some (JArr [])
            end) as [[| | | | l |]|]; try discriminate.
  destruct (dropNamed name l) as [kept | e | c] eqn:Ed; try discriminate.
  intros [= <-].
  pose proof (dropNamed_no_null _ _ _ Ed) as Hnn.
  rewrite (dropNamed_filter name l Hnn) in Ed. injection Ed as <-.
  set (kept := List.filter (fun m => negb (namedLike name m)) l).
  assert (Hentry : namedLike name (manifestEntry name route) = true).
  { unfold namedLike, manifestEntry. cbn [lookupField].
    rewrite bool_decide_eq_true_2 by reflexivity. cbn [isStr].
    now apply bool_decide_eq_true. }
  split.
  - unfold frontendManifest. rewrite lookupField_setField_eq. cbn [truthy].
    rewrite dropNamed_filter.
    + rewrite List.filter_app. subst kept. rewrite filter_idem.
      cbn [List.filter]. rewrite Hentry. cbn [negb]. rewrite app_nil_r.
      now rewrite setField_setField.
    + apply Forall_app. split; [|repeat constructor; discriminate].
      apply Forall_forall. intros m Hm. rewrite Forall_forall in Hnn.
      apply Hnn. apply list_elem_of_In. apply list_elem_of_In in Hm.
      now apply filter_In in Hm as [Hm _].
  - eexists _, kept. split; [reflexivity|]. split; [apply lookupField_setField_eq|].
    subst kept. apply filter_none. apply Forall_forall. intros m Hm.
    apply list_elem_of_In, filter_In in Hm as [_ Hm]. now apply negb_true_iff.
Qed.

Lemma frontendManifest_idempotent_witness :
  frontendManifest
    (JObj [ (lit "name", JStr (lit "app"));
            (lit "modules", JArr [JStr (lit "song"); manifestEntry (lit "shop") (lit "store")]) ])
    (lit "shop") (lit "store")
  = Ret (JObj [ (lit "name", JStr (lit "app"));
                (lit "modules", JArr [JStr (lit "song"); manifestEntry (lit "shop") (lit "store")]) ]) /\
  exists fields' kept,
    JObj [ (lit "name", JStr (lit "app"));
           (lit "modules", JArr [JStr (lit "song"); manifestEntry (lit "shop") (lit "store")]) ]
    = JObj fields' /\
    lookupField (lit "modules") fields'
    = Some (JArr (kept ++ [manifestEntry (lit "shop") (lit "store")])) /\
    List.filter (namedLike (lit "shop")) kept = [].
Proof.
  apply (frontendManifest_idempotent
           [ (lit "name", JStr (lit "app"));
             (lit "modules", JArr [manifestEntry (lit "shop") (lit "shop"); JStr (lit "song")]) ]
           (lit "shop") (lit "store")).
  reflexivity.
Defined.

(** ** The files at the root of the project *)

Lemma pathJoin_clean base segs :
  Forall (fun s => s <> [] /\ s <> lit "." /\ s <> lit ".."
                   /\ Forall (fun c => isSlash c = false) s) segs ->
  pathJoin base segs = base ++ segs.
Proof.
  intros Hc. unfold pathJoin.
  assert (E : flat_map (split isSlash) segs = segs).
  { induction Hc as [|s rest (_ & _ & _ & Hs) _ IH]; [reflexivity|].
    cbn [flat_map]. now rewrite split_slash_free, IH. }
  rewrite E, normalizeSegs_clean, rev_involutive; [reflexivity|].
  eapply Forall_impl; [exact Hc|]. cbn beta. tauto.
Qed.

Ltac clean_segments :=
  repeat constructor; try discriminate; try reflexivity.

Lemma manifest_path cwd : pathJoin cwd [lit "module.json"] = cwd ++ [lit "module.json"].
Proof. apply pathJoin_clean. clean_segments. Qed.

Lemma log_path cwd : pathJoin cwd [lit "module.log"] = cwd ++ [lit "module.log"].
Proof. apply pathJoin_clean. clean_segments. Qed.

Lemma parentDir_snoc (base : path) seg : parentDir (base ++ [seg]) = base.
Proof.
  unfold parentDir. rewrite length_app. cbn [length].
  replace (length base + 1 - 1)%nat with (length base) by lia.
  apply take_app_length.
Qed.

Lemma writable_file_in_dir (t : tree) base seg :
  t !! base = Some Dir -> t !! (base ++ [seg]) <> Some Dir ->
  writable t (base ++ [seg]) = true.
Proof.
  intros Hb Hp. unfold writable. rewrite parentDir_snoc, Hb.
  destruct (t !! (base ++ [seg])) as [[|c]|]; [now destruct Hp | reflexivity | reflexivity].
Qed.

(** X9. [generateModuleJson] never overwrites: with a [module.json] in
    place it exits with status 1 and changes nothing.  Without one it
    writes the default configuration; when that write fails the error is
    swallowed, so the run still returns normally, with nothing written. *)
Theorem generateModuleJson_cases (cwd : path) (t : tree) :
  (is_Some (t !! (cwd ++ [lit "module.json"])) ->
   generateModuleJson cwd t = (t, Exit 1)) /\
  (t !! (cwd ++ [lit "module.json"]) = None -> t !! cwd = Some Dir ->
   generateModuleJson cwd t
   = (<[cwd ++ [lit "module.json"] := File [JsonText moduleConfig]]> t, Ret tt) /\
   generateModuleJson cwd
     (<[cwd ++ [lit "module.json"] := File [JsonText moduleConfig]]> t)
   = (<[cwd ++ [lit "module.json"] := File [JsonText moduleConfig]]> t, Exit 1)) /\
  (t !! (cwd ++ [lit "module.json"]) = None -> t !! cwd <> Some Dir ->
   generateModuleJson cwd t = (t, Ret tt)).
Proof.
  unfold generateModuleJson. rewrite manifest_path.
  split; [|split].
  - intros Hf. rewrite bind_existsSync. now rewrite bool_decide_eq_true_2.
  - intros Hn Hd. split.
    + rewrite bind_existsSync. rewrite bool_decide_eq_false_2 by (rewrite Hn; apply is_Some_None).
      unfold tryCatch, writeFileSync.
      rewrite writable_file_in_dir; [reflexivity | exact Hd | now rewrite Hn].
    + rewrite bind_existsSync. rewrite bool_decide_eq_true_2; [reflexivity|].
      rewrite lookup_insert_eq. eauto.
  - intros Hn Hd. rewrite bind_existsSync.
    rewrite bool_decide_eq_false_2 by (rewrite Hn; apply is_Some_None).
    unfold tryCatch, writeFileSync, writable. rewrite parentDir_snoc, Hn.
    destruct (t !! cwd) as [[|c]|]; [now destruct Hd | reflexivity | reflexivity].
Qed.

(** X10. A [module.json] that does not parse is not reported by the
    server generator's update: it is replaced by a manifest that holds
    the new path only, and what the file held before is lost. *)
Theorem updateModuleJson_replaces_unparsable (cwd : path)
    (pathString : jsstring) (t : tree) (c : content) :
  t !! (cwd ++ [lit "module.json"]) = Some (File c) ->
  jsonParse c = Throw SyntaxError ->
  t !! cwd = Some Dir ->
  updateModuleJson cwd pathString t
  = (<[cwd ++ [lit "module.json"] :=
         File [JsonText (JObj [(lit "modules", JArr [JStr pathString])])]]> t,
     Ret tt).
Proof.
  intros Hf Hp Hd. unfold updateModuleJson. rewrite manifest_path.
  rewrite bind_existsSync. rewrite bool_decide_eq_true_2 by (rewrite Hf; eauto).
  unfold mbind at 1, io_bind at 1, tryCatch.
  unfold mbind at 1, io_bind at 1, readFileSync. rewrite Hf. unfold lift. rewrite Hp.
  cbn [mret io_ret]. unfold mbind, io_bind, lift.
  change (serverManifest emptyManifest pathString)
    with (@Ret (option json) (Some (JObj [(lit "modules", JArr [JStr pathString])]))).
  unfold writeFileSync. rewrite writable_file_in_dir; [reflexivity | exact Hd |].
  now rewrite Hf.
Qed.

Lemma updateModuleJson_replaces_unparsable_witness :
  updateModuleJson projectDir (lit "shop")
    (<[projectDir ++ [lit "module.json"] := File [Chars (lit "{ modules: [")]]> emptyProject)
  = (<[projectDir ++ [lit "module.json"] :=
         File [JsonText (JObj [(lit "modules", JArr [JStr (lit "shop")])])]]>
       (<[projectDir ++ [lit "module.json"] := File [Chars (lit "{ modules: [")]]> emptyProject),
     Ret tt).
Proof.
  apply (updateModuleJson_replaces_unparsable projectDir (lit "shop")
           _ [Chars (lit "{ modules: [")]).
  - apply lookup_insert_eq.
  - reflexivity.
  - rewrite lookup_insert_ne by (intros E; apply (f_equal (@length jsstring)) in E; discriminate E).
    vm_compute. reflexivity.
Defined.

(** ** The generated service, further *)

Lemma age_not_nan (n : float) :
  PrimFloat.is_nan (if truthy (JNum n) then n else 0%float) = false.
Proof.
  cbn [truthy]. destruct (PrimFloat.is_nan n) eqn:En.
  - rewrite orb_true_r. reflexivity.
  - rewrite orb_false_r. destruct (PrimFloat.eqb n 0); [reflexivity | exact En].
Qed.

(** X11. [insert<Class>] never throws and answers 201 or 400.  With 201
    exactly one record went to the end of the store: it carries the new
    identifier, the truthy [name] and [email] of the body, and an [age]
    that is a number and not NaN.  With 400 the store is as it was. *)
Theorem insert_outcomes {rt : Runtime} (uuid : jsstring) (body : option json)
    (store : list obj) :
  let r := insertClass uuid body store in
  (status r.2 = 201 /\
   exists item nm em a,
     r.1 = store ++ [item] /\ data r.2 = Some (JObj item) /\
     lookupField (lit "id") item = Some (JStr uuid) /\
     lookupField (lit "name") item = Some nm /\ truthy nm = true /\
     lookupField (lit "email") item = Some em /\ truthy em = true /\
     lookupField (lit "age") item = Some (JNum a) /\ PrimFloat.is_nan a = false)
  \/ (status r.2 = 400 /\ success r.2 = false /\ r.1 = store).
Proof.
  cbv zeta. unfold insertClass.
  destruct body as [body|]; [|right; repeat split].
  destruct (getProp body (lit "name")) as [[nm|] | e | c] eqn:En;
    destruct (getProp body (lit "email")) as [[em|] | e' | c'] eqn:Ee;
    destruct (getProp body (lit "address")) as [addr | e'' | c''];
    destruct (getProp body (lit "age")) as [age | e''' | c'''];
    try (right; repeat split; fail).
  destruct (truthy nm) eqn:Tn; [|right; repeat split].
  destruct (truthy em) eqn:Te; [|right; repeat split].
  left. cbn [negb orb fst snd]. split; [reflexivity|].
  eexists _, nm, em, _. split; [reflexivity|]. split; [reflexivity|].
  repeat split; try assumption; try reflexivity.
  apply age_not_nan.
Qed.




Lemma findIndex_none {A} (f : A -> bool) l :
  Forall (fun x => f x = false) l -> findIndex f l = None.
Proof. induction 1 as [|x t Hx _ IH]; [reflexivity|]. cbn [findIndex]. now rewrite Hx, IH. Qed.

Lemma findIndex_first {A} (f : A -> bool) pre x post :
  Forall (fun y => f y = false) pre -> f x = true ->
  findIndex f (pre ++ x :: post) = Some (length pre).
Proof.
  intros Hpre Hx. induction Hpre as [|y t Hy _ IH]; cbn [app findIndex length].
  - now rewrite Hx.
  - now rewrite Hy, IH.
Qed.

Lemma find_none {A} (f : A -> bool) l :
  Forall (fun x => f x = false) l -> List.find f l = None.
Proof. induction 1 as [|x t Hx _ IH]; [reflexivity|]. cbn [List.find]. now rewrite Hx. Qed.

(** X13. [delete<Class>ById] removes the first record that carries the
    identifier and nothing else, and returns it; the records before and
    after keep their order.  Without such a record it answers 404 and
    the store is as it was.  When no later record carries the identifier
    either, a lookup by it then answers 404. *)
Theorem delete_first_match (Class id : jsstring) (store : list obj) :
  (Forall (fun x => hasId id x = false) store ->
   deleteClassById Class id store = (store, responseNotFound (Class ++ lit " not found") None)) /\
  (forall pre x post,
     store = pre ++ x :: post ->
     Forall (fun y => hasId id y = false) pre -> hasId id x = true ->
     deleteClassById Class id store
     = (pre ++ post, responseOk (Some (JObj x)) (Some (Class ++ lit " deleted"))) /\
     (Forall (fun y => hasId id y = false) post ->
      status (getClassById Class id (pre ++ post)) = 404)).
Proof.
  split.
  - intros Hno. unfold deleteClassById.
    change (fun x : obj => isStr id (lookupField (lit "id") x)) with (hasId id).
    now rewrite findIndex_none.
  - intros pre x post -> Hpre Hx. split.
    + unfold deleteClassById.
      change (fun x : obj => isStr id (lookupField (lit "id") x)) with (hasId id).
      rewrite findIndex_first by assumption.
      rewrite list_lookup_middle by reflexivity. cbn [fmap option_fmap option_map].
      now rewrite delete_middle.
    + intros Hpost. unfold getClassById.
      change (fun x : obj => isStr id (lookupField (lit "id") x)) with (hasId id).
      rewrite find_none; [reflexivity|]. now apply Forall_app.
Qed.

Lemma lookupField_not_in k (fields : list (jsstring * json)) :
  k ∉ map fst fields -> lookupField k fields = None.
Proof.
  induction fields as [|[k0 v0] rest IH]; [reflexivity|]. cbn [map fst lookupField].
  intros Hk. apply not_elem_of_cons in Hk as [Hne Hk].
  rewrite bool_decide_eq_false_2 by congruence. now apply IH.
Qed.

Lemma setField_not_in k v (o : obj) :
  lookupField k o = None -> setField k v o = o ++ [(k, v)].
Proof.
  induction o as [|[k0 v0] rest IH]; [reflexivity|]. cbn [lookupField setField app].
  destruct (bool_decide (k0 = k)); [discriminate|]. intros H. now rewrite IH.
Qed.

Lemma lookupField_insertIndex n k v (o : obj) k' :
  lookupField k o = None ->
  lookupField k' (insertIndex n k v o)
  = if bool_decide (k = k') then Some v else lookupField k' o.
Proof.
  induction o as [|[k0 v0] rest IH]; cbn [insertIndex lookupField]; [reflexivity|].
  destruct (bool_decide (k0 = k)) eqn:E0; [discriminate|]. intros Hk.
  apply bool_decide_eq_false in E0.
  destruct (arrayIndex k0) as [n0|]; [destruct (n0 <? n)|]; cbn [lookupField];
    try reflexivity.
  rewrite (IH Hk). destruct (bool_decide (k = k')) eqn:E; [|reflexivity].
  apply bool_decide_eq_true in E. subst k'.
  now rewrite bool_decide_eq_false_2 by exact E0.
Qed.

Lemma lookupField_defineField k v (o : obj) k' :
  lookupField k' (defineField k v o)
  = if bool_decide (k = k') then Some v else lookupField k' o.
Proof.
  assert (Hset : lookupField k' (setField k v o)
                 = if bool_decide (k = k') then Some v else lookupField k' o).
  { destruct (bool_decide (k = k')) eqn:E.
    - apply bool_decide_eq_true in E. subst k'. apply lookupField_setField_eq.
    - apply bool_decide_eq_false in E. apply lookupField_setField_ne. congruence. }
  unfold defineField. destruct (arrayIndex k) as [n|]; [|exact Hset].
  destruct (lookupField k o) eqn:Ek; [exact Hset|].
  now apply lookupField_insertIndex.
Qed.

Lemma define_fields_lookup k (target : obj) (fields : list (jsstring * json)) :
  NoDup (map fst fields) ->
  lookupField k (foldl (fun acc kv => defineField kv.1 kv.2 acc) target fields)
  = match lookupField k fields with
    | Some v => Some v
    | None => lookupField k target
    end.
Proof.
  intros Hnd. revert target.
  induction fields as [|[k0 v0] rest IH]; intros target; [reflexivity|].
  cbn [map fst] in Hnd. apply NoDup_cons in Hnd as [Hk0 Hnd].
  cbn [foldl fst snd lookupField]. rewrite IH by exact Hnd.
  rewrite lookupField_defineField.
  destruct (bool_decide (k0 = k)) eqn:E; [|reflexivity].
  apply bool_decide_eq_true in E. subst k0.
  now rewrite lookupField_not_in by exact Hk0.
Qed.

Lemma insertIndex_last n k v (o : obj) :
  Forall (fun kv => exists m, arrayIndex kv.1 = Some m /\ m < n) o ->
  insertIndex n k v o = o ++ [(k, v)].
Proof.
  induction 1 as [|[k0 v0] rest (m & Hm & Hlt) _ IH]; [reflexivity|].
  cbn [insertIndex app]. cbn [fst] in Hm. rewrite Hm.
  apply Z.ltb_lt in Hlt. now rewrite Hlt, IH.
Qed.

(** Defining the properties of a well-ordered object in turn gives the
    object back. *)
Lemma define_wellOrdered (acc o : obj) :
  wellOrdered (acc ++ o) ->
  foldl (fun acc kv => defineField kv.1 kv.2 acc) acc o = acc ++ o.
Proof.
  revert acc. induction o as [|[k v] rest IH]; intros acc Hw.
  { cbn [foldl]. now rewrite app_nil_r. }
  cbn [foldl fst snd].
  assert (Hstep : defineField k v acc = acc ++ [(k, v)]).
  { destruct Hw as [Hnd Hs]. rewrite map_app in Hnd, Hs. cbn [map fst] in Hnd, Hs.
    assert (Hk : lookupField k acc = None).
    { apply lookupField_not_in. apply NoDup_app in Hnd as (_ & Hno & _).
      intros Hin. apply (Hno k Hin). now left. }
    unfold defineField. rewrite Hk.
    destruct (arrayIndex k) as [n|] eqn:En; [|now apply setField_not_in].
    apply insertIndex_last. apply Forall_forall. intros [k0 v0] Hin. cbn [fst].
    assert (Hb : keyBefore k0 k).
    { eapply (StronglySorted_app_1_elem_of keyBefore _ _ k0 k Hs).
      - apply list_elem_of_fmap. now exists (k0, v0).
      - now left. }
    unfold keyBefore in Hb. rewrite En in Hb.
    destruct (arrayIndex k0) as [m|]; [now exists m | contradiction]. }
  rewrite Hstep. rewrite IH; rewrite <- app_assoc; [reflexivity | exact Hw].
Qed.

(** X14. [edit<Class>ById] looks the identifier up first: without a
    record that carries it the answer is 404 and the store is as it was,
    whatever the body.  Otherwise the first such record, and no other, is
    replaced in its place by its merge with the body; a body that cannot
    be read makes the call throw with the store as it was.  In the merge
    a member of the body wins over the member of that name, a body
    without properties gives the record back, and the units of a string
    body become properties listed in front of the record's own. *)
Theorem edit_first_match (Class id : jsstring) (store : list obj) :
  (Forall (fun x => hasId id x = false) store ->
   forall body,
     editClassById Class id body store
     = (store, Ret (responseNotFound (Class ++ lit " not found") None))) /\
  (forall pre x post,
     store = pre ++ x :: post ->
     Forall (fun y => hasId id y = false) pre -> hasId id x = true ->
     editClassById Class id None store = (store, Throw SyntaxError) /\
     forall body,
       editClassById Class id (Some body) store
       = (pre ++ spread x body :: post,
          Ret (responseOk (Some (JObj (spread x body))) None))) /\
  (forall (x : obj) (fields : list (jsstring * json)) (k : jsstring),
     NoDup (map fst x) -> NoDup (map fst fields) ->
     lookupField k (spread x (JObj fields))
     = match lookupField k fields with
       | Some v => Some v
       | None => lookupField k x
       end) /\
  (forall (x : obj) (body : json),
     wellOrdered x ->
     match body with JNull | JBool _ | JNum _ => True | _ => False end ->
     spread x body = x) /\
  (forall (x : obj) (c d : ascii),
     wellOrdered x -> Forall (fun kv => arrayIndex kv.1 = None) x ->
     spread x (JStr [c; d]) = (lit "0", JStr [c]) :: (lit "1", JStr [d]) :: x).
Proof.
  split; [|split; [|split; [|split]]].
  - intros Hno body. unfold editClassById.
    change (fun x : obj => isStr id (lookupField (lit "id") x)) with (hasId id).
    now rewrite findIndex_none.
  - intros pre x post -> Hpre Hx. unfold editClassById.
    change (fun x : obj => isStr id (lookupField (lit "id") x)) with (hasId id).
    rewrite findIndex_first by assumption. split; [reflexivity|].
    intros body. rewrite list_lookup_middle by reflexivity. cbn [default from_option].
    rewrite insert_app_r_alt by lia. rewrite Nat.sub_diag. reflexivity.
  - intros x fields k Hx Hnd. unfold spread. cbn [spreadSource].
    rewrite foldl_app, (define_fields_lookup _ _ _ Hnd), (define_fields_lookup _ _ _ Hx).
    cbn [lookupField]. now destruct (lookupField k fields), (lookupField k x).
  - intros x body Hw Hb. unfold spread.
    assert (spreadSource body = []) as -> by (destruct body; (reflexivity || contradiction)).
    rewrite app_nil_r. exact (define_wellOrdered [] x Hw).
  - intros x c d Hw Hx. unfold spread. rewrite foldl_app.
    rewrite (define_wellOrdered [] x Hw).
    change (spreadSource (JStr [c; d])) with [(lit "0", JStr [c]); (lit "1", JStr [d])].
    cbn [app foldl fst snd].
    assert (Hnone : forall k0 : jsstring, arrayIndex k0 <> None -> lookupField k0 x = None).
    { intros k0 Hk0. apply lookupField_not_in. intros Hin.
      apply list_elem_of_fmap in Hin as ([k1 v1] & -> & Hin).
      rewrite Forall_forall in Hx. now apply Hk0, (Hx (k1, v1)). }
    assert (Hfirst : forall n k0 v0, insertIndex n k0 v0 x = (k0, v0) :: x).
    { intros n k0 v0. destruct x as [|[k1 v1] rest]; [reflexivity|].
      cbn [insertIndex]. apply Forall_cons in Hx as [H1 _]. cbn [fst] in H1.
      now rewrite H1. }
    assert (H0 : defineField (lit "0") (JStr [c]) x = (lit "0", JStr [c]) :: x).
    { unfold defineField. change (arrayIndex (lit "0")) with (Some 0).
      rewrite Hnone by (change (arrayIndex (lit "0")) with (Some 0); discriminate).
      apply Hfirst. }
    rewrite H0. unfold defineField. change (arrayIndex (lit "1")) with (Some 1).
    cbn [lookupField]. rewrite bool_decide_eq_false_2 by discriminate.
    rewrite Hnone by (change (arrayIndex (lit "1")) with (Some 1); discriminate).
    cbn [insertIndex]. change (arrayIndex (lit "0")) with (Some 0).
    change (0 <? 1) with true. cbn iota. now rewrite Hfirst.
Qed.

(** A body of type string, and a body with a numeric name: its
    properties are listed in front of the record's. *)
Example edit_with_string_body :
  spread [(lit "id", JStr (lit "u1")); (lit "name", JStr (lit "Ann"))] (JStr (lit "ab"))
  = [ (lit "0", JStr (lit "a")); (lit "1", JStr (lit "b"));
      (lit "id", JStr (lit "u1")); (lit "name", JStr (lit "Ann")) ] /\
  spread [(lit "id", JStr (lit "u1")); (lit "name", JStr (lit "Ann"))]
    (JObj [(lit "name", JStr (lit "Bob")); (lit "7", JNum 1); (lit "07", JNum 2);
           (lit "3", JNum 3)])
  = [ (lit "3", JNum 3); (lit "7", JNum 1);
      (lit "id", JStr (lit "u1")); (lit "name", JStr (lit "Bob")); (lit "07", JNum 2) ].
Proof. split; vm_compute; reflexivity. Qed.

(** X15. Listing is idempotent on records of the declared interface:
    the list a query returns, queried again in the same way, comes back
    whole. *)
Theorem filter_idempotent {rt : Runtime} (recs : list person) (query : URLSearchParams)
    (kept : list obj) :
  filterClass (map toObj recs) query = Ret kept ->
  filterClass kept query = Ret kept.
Proof.
  rewrite filterClass_typed. intros [= <-].
  rewrite filterClass_typed. now rewrite filter_idem.
Qed.

Lemma filter_idempotent_witness :
  filterClass (rt := exampleRuntime)
    [toObj {| id := lit "u1"; name := lit "Song User 2"; email := lit "song2@example.com";
              address := lit "City 2"; age := 21%float |}]
    [(lit "age", lit "21"); (lit "s", lit "USER")]
  = Ret [toObj {| id := lit "u1"; name := lit "Song User 2"; email := lit "song2@example.com";
                  address := lit "City 2"; age := 21%float |}].
Proof.
  apply (filter_idempotent (rt := exampleRuntime) (seedPeople (rt := exampleRuntime) exampleUuid (lit "song"))).
  vm_compute. reflexivity.
Defined.

Lemma filterThrowing_throws {A} (f : A -> outcome bool) (l : list A) :
  Forall (fun x => (exists b, f x = Ret b) \/ f x = Throw TypeError) l ->
  Exists (fun x => f x = Throw TypeError) l ->
  filterThrowing f l = Throw TypeError.
Proof.
  intros Hall Hex. induction Hall as [|x t Hx Hall IH]; [inversion Hex|].
  cbn [filterThrowing].
  destruct Hx as [[b Hb] | Hb]; rewrite Hb; [|reflexivity].
  inversion Hex as [? ? Hx' | ? ? Ht]; subst; [congruence|].
  now rewrite IH.
Qed.

(** X16. The service trusts the types of its records: when some record
    has an [address] that is not a string (insert and edit put any value
    of the body there), every listing that filters by address throws a
    TypeError instead of answering. *)
Theorem filter_throws_on_untyped_address {rt : Runtime} (store : list obj)
    (query : URLSearchParams) (a : jsstring) :
  addressFilter query = Some a ->
  Exists (fun x => forall s, lookupField (lit "address") x <> Some (JStr s)) store ->
  filterClass store query = Throw TypeError /\
  getAllClass (Some query) store = (store, Throw TypeError).
Proof.
  intros Ha Hex.
  assert (E : filterClass store query = Throw TypeError).
  { unfold filterClass. unfold addressFilter in Ha.
    destruct (queryGet query (lit "address")) as [a'|]; [|discriminate Ha].
    destruct (nonEmpty a'); [|discriminate Ha].
    rewrite filterThrowing_throws; [reflexivity | |].
    - apply Forall_forall. intros x _.
      destruct (lookupField (lit "address") x) as [[| | | s | |]|]; cbn [lowerOf]; eauto.
    - eapply Exists_impl; [exact Hex|]. cbn beta. intros x Hx.
      destruct (lookupField (lit "address") x) as [[| | | s | |]|]; cbn [lowerOf];
        try reflexivity.
      now destruct (Hx s). }
  split; [exact E|]. unfold getAllClass. now rewrite E.
Qed.

Lemma filter_throws_on_untyped_address_witness :
  let store :=
    (insertClass (rt := exampleRuntime) (lit "u0")
       (Some (JObj [(lit "name", JStr (lit "Mike")); (lit "email", JStr (lit "m@example.com"));
                    (lit "address", JNum 5%float)])) []).1 in
  filterClass (rt := exampleRuntime) store [(lit "address", lit "city 1")] = Throw TypeError /\
  getAllClass (rt := exampleRuntime) (Some [(lit "address", lit "city 1")]) store
  = (store, Throw TypeError).
Proof.
  apply (filter_throws_on_untyped_address (rt := exampleRuntime) _ _ (lit "city 1")).
  - reflexivity.
  - left. intros s. discriminate.
Defined.

Lemma blank_trim s : blank s = true <-> trim s = [].
Proof.
  unfold blank. rewrite trim_blank, forallb_forall, Forall_forall.
  split; intros H c Hc; apply H; now apply list_elem_of_In.
Qed.

(** X17. The detail handlers never reach the store with a missing id or
    one that is empty or white space only: GET, PUT (whatever the body,
    readable or not) and DELETE answer 400 and the store is as it was.
    Any other id is handed to the service as it came, untrimmed. *)
Theorem detail_handlers_validate_id (Class : jsstring) (store : list obj) :
  (forall id body,
     id = None \/ (exists s, id = Some s /\ blank s = true) ->
     detailGET Class id store = (store, Ret (responseBadRequest (lit "Invalid ID") None)) /\
     detailPUT Class id body store = (store, Ret (responseBadRequest (lit "Invalid ID") None)) /\
     detailDELETE Class id store = (store, Ret (responseBadRequest (lit "Invalid ID") None))) /\
  (forall s body,
     blank s = false ->
     detailGET Class (Some s) store = (store, Ret (getClassById Class s store)) /\
     detailPUT Class (Some s) body store = editClassById Class s body store /\
     detailDELETE Class (Some s) store
     = ((deleteClassById Class s store).1, Ret (deleteClassById Class s store).2)).
Proof.
  split.
  - intros id body Hid.
    assert (E : validateId id = None).
    { destruct Hid as [-> | (s & -> & Hb)]; [reflexivity|].
      unfold validateId. apply blank_trim in Hb. rewrite Hb.
      rewrite bool_decide_eq_true_2 by reflexivity. now rewrite orb_true_r. }
    unfold detailGET, detailPUT, detailDELETE. now rewrite E.
  - intros s body Hb.
    assert (E : validateId (Some s) = Some s).
    { unfold validateId.
      assert (Ht : trim s <> []) by (intros Ht; apply blank_trim in Ht; congruence).
      rewrite (bool_decide_eq_false_2 _ Ht).
      destruct s; [discriminate Hb | reflexivity]. }
    unfold detailGET, detailPUT, detailDELETE. rewrite E.
    repeat split. now destruct (deleteClassById Class s store).
Qed.

(** ** What the generators do to the tree *)

Lemma bind_ret_inv {A B} (m : io A) (k : A -> io B) t t' b :
  (m ≫= k) t = (t', Ret b) ->
  exists a t1, m t = (t1, Ret a) /\ k a t1 = (t', Ret b).
Proof.
  unfold mbind, io_bind. destruct (m t) as [t1 [a | e | c]]; intros E.
  - now exists a, t1.
  - discriminate E.
  - discriminate E.
Qed.

Lemma isFile_insert_file (t : tree) q c p :
  t !! q <> Some Dir ->
  (t !! p = Some Dir -> <[q := File c]> t !! p = Some Dir)
  /\ (isFile t p = true -> isFile (<[q := File c]> t) p = true).
Proof.
  intros Hq. unfold isFile. destruct (decide (q = p)) as [-> | Hne].
  - rewrite lookup_insert_eq. split; [intros E; now destruct Hq | reflexivity].
  - rewrite lookup_insert_ne by exact Hne. tauto.
Qed.

Lemma writable_not_dir t p : writable t p = true -> t !! p <> Some Dir.
Proof. unfold writable. destruct (t !! p) as [[|c]|]; [discriminate | intros _; discriminate ..]. Qed.

Lemma no_file_among (qs : list path) (t : tree) (p : path) :
  existsb (isFile t) qs = false -> isFile t p = true -> p ∉ qs.
Proof.
  intros He Hp Hin. apply list_elem_of_In in Hin.
  assert (Ht : existsb (isFile t) qs = true) by (apply existsb_exists; eauto).
  congruence.
Qed.

Section KeepsKind.
Context {rt : Runtime}.

Lemma keepsKind_same {A} (m : io A) :
  (forall t t' o, m t = (t', o) -> t' = t) -> keepsKind m.
Proof. intros Hm t t' o E p. rewrite (Hm _ _ _ E). tauto. Qed.

Lemma keepsKind_ret {A} (a : A) : keepsKind (mret a).
Proof. apply keepsKind_same. now intros t t' o [= <- _]. Qed.

Lemma keepsKind_lift {A} (o : outcome A) : keepsKind (lift o).
Proof. apply keepsKind_same. now intros t t' o' [= <- _]. Qed.

Lemma keepsKind_throw {A} e : keepsKind (@throw A e).
Proof. apply keepsKind_same. now intros t t' o' [= <- _]. Qed.

Lemma keepsKind_exit {A} c : keepsKind (@processExit A c).
Proof. apply keepsKind_same. now intros t t' o' [= <- _]. Qed.

Lemma keepsKind_existsSync p : keepsKind (existsSync p).
Proof. apply keepsKind_same. now intros t t' o' [= <- _]. Qed.

Lemma keepsKind_readFileSync p : keepsKind (readFileSync p).
Proof.
  apply keepsKind_same. intros t t' o E. unfold readFileSync in E.
  destruct (t !! p) as [[|c]|]; now injection E as <- _.
Qed.

Lemma keepsKind_bind {A B} (m : io A) (k : A -> io B) :
  keepsKind m -> (forall a, keepsKind (k a)) -> keepsKind (m ≫= k).
Proof.
  intros Hm Hk t t' o E p. unfold mbind, io_bind in E.
  destruct (m t) as [t1 [a | e | c]] eqn:Em.
  - destruct (Hm _ _ _ Em p) as [Hd Hf]. destruct (Hk a _ _ _ E p) as [Hd' Hf']. tauto.
  - injection E as <- _. exact (Hm _ _ _ Em p).
  - injection E as <- _. exact (Hm _ _ _ Em p).
Qed.

Lemma keepsKind_tryCatch {A} (m : io A) (h : exn -> io A) :
  keepsKind m -> (forall e, keepsKind (h e)) -> keepsKind (tryCatch m h).
Proof.
  intros Hm Hh t t' o E p. unfold tryCatch in E.
  destruct (m t) as [t1 [a | e | c]] eqn:Em.
  - injection E as <- _. exact (Hm _ _ _ Em p).
  - destruct (Hm _ _ _ Em p) as [Hd Hf]. destruct (Hh e _ _ _ E p) as [Hd' Hf']. tauto.
  - injection E as <- _. exact (Hm _ _ _ Em p).
Qed.

Lemma keepsKind_mkdirSync q : keepsKind (mkdirSync q).
Proof.
  intros t t' o E p. unfold mkdirSync in E. remember (prefixes q) as qs.
  destruct (existsb (isFile t) qs) eqn:He; injection E as <- _; [tauto|].
  split.
  - intros Hd. rewrite foldr_mkdir_lookup. now destruct (bool_decide (p ∈ qs)).
  - intros Hf. unfold isFile. rewrite foldr_mkdir_lookup.
    rewrite bool_decide_eq_false_2 by (eapply no_file_among; eassumption).
    exact Hf.
Qed.

Lemma keepsKind_writeFileSync q c : keepsKind (writeFileSync q c).
Proof.
  intros t t' o E p. unfold writeFileSync in E.
  destruct (writable t q) eqn:Hw; injection E as <- _; [|tauto].
  apply isFile_insert_file. now apply writable_not_dir.
Qed.

Lemma keepsKind_appendFileSync q s : keepsKind (appendFileSync q s).
Proof.
  intros t t' o E p. unfold appendFileSync in E.
  destruct (writable t q) eqn:Hw; injection E as <- _; [|tauto].
  apply isFile_insert_file. now apply writable_not_dir.
Qed.

End KeepsKind.

Ltac kind_step :=
  first
    [ apply keepsKind_bind; [| intros ?]
    | apply keepsKind_tryCatch; [| intros ?]
    | apply keepsKind_ret | apply keepsKind_lift | apply keepsKind_throw
    | apply keepsKind_exit | apply keepsKind_existsSync | apply keepsKind_readFileSync
    | apply keepsKind_mkdirSync | apply keepsKind_writeFileSync
    | apply keepsKind_appendFileSync
    | match goal with
      | |- keepsKind (if ?b then _ else _) => destruct b
      | |- keepsKind (match ?x with _ => _ end) => destruct x
      end
    | progress unfold log, updateModuleJson, render, renderValues ].

(** X18. Whatever they are given and however they end, the three
    generators never remove an entry of the tree and never change its
    kind: what was a directory is a directory afterwards, what was a file
    is a file. *)
Theorem generators_keep_kinds {rt : Runtime} (cwd : path) :
  (forall tsHelper tsDone rawPath,
     keepsKind (generateServerModule cwd tsHelper tsDone rawPath)) /\
  (forall ts inputName route, keepsKind (generateFrontendModule cwd ts inputName route)) /\
  keepsKind (generateModuleJson cwd).
Proof.
  split; [|split].
  - intros. unfold generateServerModule. repeat kind_step.
  - intros. unfold generateFrontendModule. repeat kind_step.
  - unfold generateModuleJson. repeat kind_step.
Qed.

(** *** Where a joined path ends *)

Lemma normalizeSegs_snoc acc segs seg :
  seg <> [] -> seg <> lit "." -> seg <> lit ".." ->
  normalizeSegs acc (segs ++ [seg]) = normalizeSegs acc segs ++ [seg].
Proof.
  intros H0 H1 H2. revert acc. induction segs as [|s rest IH]; intros acc.
  - cbn [app normalizeSegs]. rewrite !bool_decide_eq_false_2 by assumption.
    cbn [orb rev]. reflexivity.
  - cbn [app normalizeSegs].
    destruct (bool_decide (s = []) || bool_decide (s = lit ".")); [apply IH|].
    destruct (bool_decide (s = lit "..")); apply IH.
Qed.

Lemma split_free (sep : ascii -> bool) s :
  Forall (fun c => sep c = false) s -> split sep s = [s].
Proof.
  induction 1 as [|c t Hc _ IH]; [reflexivity|]. cbn [split]. now rewrite Hc, IH.
Qed.

(** Text without a separator, put after a string, stays in its last
    segment. *)
Lemma split_app_free (sep : ascii -> bool) s suffix :
  Forall (fun c => sep c = false) suffix ->
  exists init y, split sep (s ++ suffix) = init ++ [y ++ suffix].
Proof.
  intros Hs. induction s as [|c s (init & y & IH)].
  - exists [], []. cbn [app]. now apply split_free.
  - cbn [app split]. rewrite IH. destruct (sep c).
    + now exists ([] :: init), y.
    + destruct init as [|i init]; cbn [app].
      * now exists [], (c :: y).
      * now exists ((c :: i) :: init), y.
Qed.

Lemma flat_map_snoc {A B} (f : A -> list B) l x : flat_map f (l ++ [x]) = flat_map f l ++ f x.
Proof. rewrite flat_map_app. cbn [flat_map]. now rewrite app_nil_r. Qed.

(** The last segment of a joined path whose last argument ends in text
    of three units or more without a slash ends in that text. *)
Lemma pathJoin_last base args s suffix :
  Forall (fun c => isSlash c = false) suffix -> (3 <= length suffix)%nat ->
  exists y, last (pathJoin base (args ++ [s ++ suffix])) = Some (y ++ suffix).
Proof.
  intros Hs Hlen. unfold pathJoin. rewrite flat_map_snoc.
  destruct (split_app_free isSlash s suffix Hs) as (init & y & ->).
  exists y. rewrite app_assoc, normalizeSegs_snoc.
  - apply last_snoc.
  - intros E. apply (f_equal (@length ascii)) in E. rewrite length_app in E. cbn in E. lia.
  - intros E. apply (f_equal (@length ascii)) in E. rewrite length_app in E. cbn in E. lia.
  - intros E. apply (f_equal (@length ascii)) in E. rewrite length_app in E. cbn in E. lia.
Qed.

(** A file whose name ends in other text than [name] is not the file
    [name] of the directory [dir]. *)
Lemma pathJoin_ne base args s suffix (dir : path) name :
  Forall (fun c => isSlash c = false) suffix -> (3 <= length suffix)%nat ->
  (forall y, y ++ suffix <> name) ->
  pathJoin base (args ++ [s ++ suffix]) <> dir ++ [name].
Proof.
  intros Hs Hlen Hne E. destruct (pathJoin_last base args s suffix Hs Hlen) as [y Hy].
  rewrite E, last_snoc in Hy. injection Hy as Hy. now apply (Hne y).
Qed.

Lemma pathJoin_snoc base args seg :
  Forall (fun c => isSlash c = false) seg -> (3 <= length seg)%nat ->
  pathJoin base (args ++ [seg]) = pathJoin base args ++ [seg].
Proof.
  intros Hs Hlen. unfold pathJoin. rewrite flat_map_snoc, (split_free _ _ Hs).
  apply normalizeSegs_snoc; intros E; apply (f_equal (@length ascii)) in E; cbn in E; lia.
Qed.

(** [path_ne]: the path written by a step is not the one looked at;
    their names end differently. *)
Ltac path_ne :=
  match goal with
  | |- pathJoin ?base [?a] <> _ =>
      change (pathJoin base [a]) with (pathJoin base ([] ++ [a]))
  | |- pathJoin ?base [?a; ?b] <> _ =>
      change (pathJoin base [a; b]) with (pathJoin base ([a] ++ [b]))
  end;
  match goal with
  | |- pathJoin _ (_ ++ [_ ++ _]) <> _ => idtac
  | |- pathJoin ?base (?args ++ [?a]) <> _ =>
      change (pathJoin base (args ++ [a])) with (pathJoin base (args ++ [[] ++ a]))
  end;
  apply pathJoin_ne;
  [ vm_compute; repeat constructor
  | vm_compute; lia
  | let E := fresh "E" in
    intros y E; apply (f_equal (@rev ascii)) in E; rewrite rev_app_distr in E;
    cbn in E; congruence ].

Section AppendsOnly.
Context {rt : Runtime}.
Variable lp : path.

Lemma appendsOnly_same {A} (m : io A) :
  (forall t t' o, m t = (t', o) -> t' = t) -> appendsOnly lp m.
Proof.
  intros Hm t t' o c E Hc. rewrite (Hm _ _ _ E). exists []. now rewrite app_nil_r.
Qed.

Lemma appendsOnly_ret {A} (a : A) : appendsOnly lp (mret a).
Proof. apply appendsOnly_same. now intros t t' o [= <- _]. Qed.

Lemma appendsOnly_lift {A} (o : outcome A) : appendsOnly lp (lift o).
Proof. apply appendsOnly_same. now intros t t' o' [= <- _]. Qed.

Lemma appendsOnly_throw {A} e : appendsOnly lp (@throw A e).
Proof. apply appendsOnly_same. now intros t t' o' [= <- _]. Qed.

Lemma appendsOnly_exit {A} c : appendsOnly lp (@processExit A c).
Proof. apply appendsOnly_same. now intros t t' o' [= <- _]. Qed.

Lemma appendsOnly_existsSync p : appendsOnly lp (existsSync p).
Proof. apply appendsOnly_same. now intros t t' o' [= <- _]. Qed.

Lemma appendsOnly_readFileSync p : appendsOnly lp (readFileSync p).
Proof.
  apply appendsOnly_same. intros t t' o E. unfold readFileSync in E.
  destruct (t !! p) as [[|c]|]; now injection E as <- _.
Qed.

Lemma appendsOnly_bind {A B} (m : io A) (k : A -> io B) :
  appendsOnly lp m -> (forall a, appendsOnly lp (k a)) -> appendsOnly lp (m ≫= k).
Proof.
  intros Hm Hk t t' o c E Hc. unfold mbind, io_bind in E.
  destruct (m t) as [t1 [a | e | c1]] eqn:Em.
  - destruct (Hm _ _ _ _ Em Hc) as [m1 H1]. destruct (Hk a _ _ _ _ E H1) as [m2 H2].
    exists (m1 ++ m2). now rewrite app_assoc.
  - injection E as <- _. exact (Hm _ _ _ _ Em Hc).
  - injection E as <- _. exact (Hm _ _ _ _ Em Hc).
Qed.

Lemma appendsOnly_tryCatch {A} (m : io A) (h : exn -> io A) :
  appendsOnly lp m -> (forall e, appendsOnly lp (h e)) -> appendsOnly lp (tryCatch m h).
Proof.
  intros Hm Hh t t' o c E Hc. unfold tryCatch in E.
  destruct (m t) as [t1 [a | e | c1]] eqn:Em.
  - injection E as <- _. exact (Hm _ _ _ _ Em Hc).
  - destruct (Hm _ _ _ _ Em Hc) as [m1 H1]. destruct (Hh e _ _ _ _ E H1) as [m2 H2].
    exists (m1 ++ m2). now rewrite app_assoc.
  - injection E as <- _. exact (Hm _ _ _ _ Em Hc).
Qed.

Lemma appendsOnly_mkdirSync q : appendsOnly lp (mkdirSync q).
Proof.
  intros t t' o c E Hc. unfold mkdirSync in E. remember (prefixes q) as qs.
  exists []. rewrite app_nil_r.
  destruct (existsb (isFile t) qs) eqn:He; injection E as <- _; [exact Hc|].
  rewrite foldr_mkdir_lookup.
  rewrite bool_decide_eq_false_2; [exact Hc|].
  eapply no_file_among; [exact He|]. unfold isFile. now rewrite Hc.
Qed.

Lemma appendsOnly_writeFileSync q f : q <> lp -> appendsOnly lp (writeFileSync q f).
Proof.
  intros Hq t t' o c E Hc. unfold writeFileSync in E. exists []. rewrite app_nil_r.
  destruct (writable t q); injection E as <- _; [|exact Hc].
  now rewrite lookup_insert_ne.
Qed.

Lemma appendsOnly_appendFileSync q s : appendsOnly lp (appendFileSync q s).
Proof.
  intros t t' o c E Hc. unfold appendFileSync in E.
  destruct (writable t q); injection E as <- _; [|exists []; now rewrite app_nil_r].
  destruct (decide (q = lp)) as [-> | Hne].
  - rewrite Hc, lookup_insert_eq. now exists [Chars s].
  - rewrite lookup_insert_ne by exact Hne. exists []. now rewrite app_nil_r.
Qed.

End AppendsOnly.

Ltac appends_step :=
  first
    [ apply appendsOnly_bind; [| intros ?]
    | apply appendsOnly_tryCatch; [| intros ?]
    | apply appendsOnly_ret | apply appendsOnly_lift | apply appendsOnly_throw
    | apply appendsOnly_exit | apply appendsOnly_existsSync | apply appendsOnly_readFileSync
    | apply appendsOnly_mkdirSync | apply appendsOnly_appendFileSync
    | match goal with
      | |- appendsOnly _ (if ?b then _ else _) => destruct b
      | |- appendsOnly _ (match ?x with _ => _ end) => destruct x
      end
    | progress unfold log, updateModuleJson, render, renderValues ].

(** X19. [module.log] is append-only for both generators: whatever a
    run is given and however it ends, the text the log held before the
    run is still there afterwards, at the front. *)
Theorem log_is_append_only {rt : Runtime} (cwd : path) :
  (forall tsHelper tsDone rawPath,
     appendsOnly (cwd ++ [lit "module.log"])
       (generateServerModule cwd tsHelper tsDone rawPath)) /\
  (forall ts inputName route,
     appendsOnly (cwd ++ [lit "module.log"])
       (generateFrontendModule cwd ts inputName route)).
Proof.
  split.
  - intros. unfold generateServerModule. repeat appends_step;
      apply appendsOnly_writeFileSync; path_ne.
  - intros. unfold generateFrontendModule. repeat appends_step;
      apply appendsOnly_writeFileSync; path_ne.
Qed.

(** *** What a completed run leaves behind *)

Lemma writeFileSync_ret p c t t' :
  writeFileSync p c t = (t', Ret tt) -> isFile t' p = true.
Proof.
  unfold writeFileSync. destruct (writable t p); [|discriminate].
  intros E. assert (t' = <[p := File c]> t) as -> by congruence.
  unfold isFile. now rewrite lookup_insert_eq.
Qed.

Lemma appendFileSync_ret p s t t' :
  appendFileSync p s t = (t', Ret tt) -> isFile t' p = true.
Proof.
  unfold appendFileSync. destruct (writable t p); [|discriminate].
  intros E. injection E as <-. unfold isFile. now rewrite lookup_insert_eq.
Qed.

Lemma in_prefixes (p : path) : p ∈ prefixes p.
Proof.
  unfold prefixes. apply list_elem_of_fmap. exists (length p). split.
  - now rewrite firstn_all.
  - apply elem_of_seq. lia.
Qed.

Lemma mkdirSync_ret p t t' :
  mkdirSync p t = (t', Ret tt) -> t' !! p = Some Dir.
Proof.
  unfold mkdirSync. pose proof (in_prefixes p) as Hin. remember (prefixes p) as qs.
  destruct (existsb (isFile t) qs); [discriminate|].
  intros E. assert (t' = foldr (fun q acc => <[q := Dir]> acc) t qs) as -> by congruence.
  rewrite foldr_mkdir_lookup. now rewrite bool_decide_eq_true_2.
Qed.

Lemma updateModuleJson_ret {rt : Runtime} (cwd : path) pathString t t' :
  updateModuleJson cwd pathString t = (t', Ret tt) ->
  isFile t' (pathJoin cwd [lit "module.json"]) = true.
Proof.
  unfold updateModuleJson. set (file := pathJoin cwd [lit "module.json"]).
  intros H.
  apply bind_ret_inv in H as (found & t1 & Hf & H).
  assert (t1 = t /\ found = bool_decide (is_Some (t !! file))) as [-> ->]
    by (unfold existsSync in Hf; split; congruence).
  apply bind_ret_inv in H as (doc & t2 & Hd & H).
  apply bind_ret_inv in H as (update & t3 & Hu & H).
  assert (t3 = t2 /\ serverManifest doc pathString = Ret update) as [-> Hu']
    by (unfold lift in Hu; split; congruence).
  destruct (t !! file) as [[|c]|] eqn:Et.
  - (* a directory: it cannot be read, and cannot be written *)
    rewrite bool_decide_eq_true_2 in Hd by eauto.
    unfold tryCatch, mbind, io_bind, readFileSync in Hd. rewrite Et in Hd.
    assert (t2 = t /\ doc = emptyManifest) as [-> ->]
      by (unfold mret, io_ret in Hd; split; congruence).
    change (serverManifest emptyManifest pathString)
      with (@Ret (option json) (Some (JObj [(lit "modules", JArr [JStr pathString])]))) in Hu'.
    assert (update = Some (JObj [(lit "modules", JArr [JStr pathString])])) as -> by congruence.
    unfold writeFileSync, writable in H. fold file in H. rewrite Et in H. discriminate H.
  - (* a file: it stays one *)
    assert (Hk : keepsKind (if bool_decide (is_Some (Some (File c)))
                            then tryCatch (c ← readFileSync file; lift (jsonParse c))
                                          (fun _ => mret emptyManifest)
                            else mret emptyManifest)) by (repeat kind_step).
    assert (F : isFile t file = true) by (unfold isFile; now rewrite Et).
    apply (proj2 (Hk _ _ _ Hd file)) in F.
    destruct update as [doc'|].
    + now apply writeFileSync_ret in H.
    + unfold mret, io_ret in H. congruence.
  - (* nothing there: the manifest is written *)
    rewrite bool_decide_eq_false_2 in Hd by (intros [x Hx]; discriminate Hx).
    assert (t2 = t /\ doc = emptyManifest) as [-> ->]
      by (unfold mret, io_ret in Hd; split; congruence).
    change (serverManifest emptyManifest pathString)
      with (@Ret (option json) (Some (JObj [(lit "modules", JArr [JStr pathString])]))) in Hu'.
    assert (update = Some (JObj [(lit "modules", JArr [JStr pathString])])) as -> by congruence.
    now apply writeFileSync_ret in H.
Qed.

Lemma keepsKind_some {A} (m : io A) t t' o p :
  keepsKind m -> m t = (t', o) -> is_Some (t !! p) -> is_Some (t' !! p).
Proof.
  intros Hk E [x Hx]. destruct (Hk _ _ _ E p) as [Hd Hf]. destruct x as [|c].
  - rewrite Hd; eauto.
  - unfold isFile in Hf. rewrite Hx in Hf. specialize (Hf eq_refl).
    destruct (t' !! p) as [[|c']|]; try discriminate; eauto.
Qed.

(** [carry H F]: the fact [F] about the tree before the rest of a run
    [H] still holds after it. *)
Ltac carry H F :=
  match type of H with
  | ?k ?ti = (?tf, ?o) =>
      let Hk := fresh "Hk" in
      assert (Hk : keepsKind k) by (repeat kind_step);
      first [ apply (proj1 (Hk ti tf o H _)) in F
            | apply (proj2 (Hk ti tf o H _)) in F
            | apply (keepsKind_some k ti tf o _ Hk H) in F ];
      clear Hk
  end.

(** X20. A run of [create-server] that completes found no module folder
    and leaves the module folder with its four files, the route folder
    and its [[id]] folder with a [+server.ts] each, the response helper,
    the log and the manifest. *)
Theorem server_run_completed {rt : Runtime} (cwd : path) (tsHelper tsDone rawPath : jsstring)
    (t t' : tree) :
  generateServerModule cwd tsHelper tsDone rawPath t = (t', Ret tt) ->
  exists route,
    buildRoutePath (parts (parseModulePath rawPath)) = Ret route /\
    t !! serverModuleFolder cwd rawPath = None /\
    t' !! serverModuleFolder cwd rawPath = Some Dir /\
    Forall (fun name => isFile t' (pathJoin (serverModuleFolder cwd rawPath) [name]) = true)
      [lit "types.ts"; lit "values.ts"; lit "services.ts"; lit "spec.md"] /\
    t' !! pathJoin cwd [lit "src/routes/api"; route] = Some Dir /\
    t' !! pathJoin (pathJoin cwd [lit "src/routes/api"; route]) [lit "[id]"] = Some Dir /\
    isFile t' (pathJoin (pathJoin cwd [lit "src/routes/api"; route]) [lit "+server.ts"]) = true /\
    isFile t' (pathJoin (pathJoin cwd [lit "src/routes/api"; route])
                 [lit "[id]"; lit "+server.ts"]) = true /\
    is_Some (t' !! pathJoin (pathJoin cwd [lit "src/lib/helpers"]) [lit "response.ts"]) /\
    isFile t' (pathJoin cwd [lit "module.log"]) = true /\
    isFile t' (pathJoin cwd [lit "module.json"]) = true.
Proof.
  intros H. unfold generateServerModule in H. fold (serverModuleFolder cwd rawPath) in H.
  apply bind_ret_inv in H as (route & t0 & Hr & H).
  assert (t0 = t /\ buildRoutePath (parts (parseModulePath rawPath)) = Ret route) as [-> Hroute]
    by (unfold lift in Hr; split; congruence).
  exists route. split; [exact Hroute|]. clear Hr.
  apply bind_ret_inv in H as (found & t1 & Hf & H).
  assert (t1 = t /\ found = bool_decide (is_Some (t !! serverModuleFolder cwd rawPath)))
    as [-> ->] by (unfold existsSync in Hf; split; congruence).
  clear Hf.
  destruct (bool_decide (is_Some (t !! serverModuleFolder cwd rawPath))) eqn:Hguard;
    [unfold processExit in H; discriminate H|].
  apply bool_decide_eq_false in Hguard. apply eq_None_not_Some in Hguard.
  split; [exact Hguard|].
  apply bind_ret_inv in H as (hasDir & t2 & _ & H).
  apply bind_ret_inv in H as ([] & t3 & _ & H).
  apply bind_ret_inv in H as (hasFile & t4 & Hh & H).
  apply bind_ret_inv in H as ([] & t5 & Hw & H).
  assert (Hhelper :
    is_Some (t5 !! pathJoin (pathJoin cwd [lit "src/lib/helpers"]) [lit "response.ts"])).
  { assert (t4 = t3 /\ hasFile = bool_decide (is_Some
              (t3 !! pathJoin (pathJoin cwd [lit "src/lib/helpers"]) [lit "response.ts"])))
      as [-> ->] by (unfold existsSync in Hh; split; congruence).
    destruct (bool_decide (is_Some
                (t3 !! pathJoin (pathJoin cwd [lit "src/lib/helpers"]) [lit "response.ts"])))
      eqn:Hhas.
    - apply bool_decide_eq_true in Hhas.
      assert (t5 = t3) as -> by (unfold mret, io_ret in Hw; congruence). exact Hhas.
    - apply bind_ret_inv in Hw as ([] & t4' & Hw1 & Hw2).
      apply writeFileSync_ret in Hw1. carry Hw2 Hw1.
      unfold isFile in Hw1.
      destruct (t5 !! pathJoin (pathJoin cwd [lit "src/lib/helpers"]) [lit "response.ts"]);
        [eauto | discriminate Hw1]. }
  clear Hh Hw. carry H Hhelper.
  apply bind_ret_inv in H as ([] & t6 & Hmod & H).
  apply mkdirSync_ret in Hmod. carry H Hmod.
  apply bind_ret_inv in H as (types & t7 & _ & H).
  apply bind_ret_inv in H as ([] & t8 & Htypes & H).
  apply writeFileSync_ret in Htypes. carry H Htypes.
  apply bind_ret_inv in H as (values & t9 & _ & H).
  apply bind_ret_inv in H as ([] & t10 & Hvalues & H).
  apply writeFileSync_ret in Hvalues. carry H Hvalues.
  apply bind_ret_inv in H as (services & t11 & _ & H).
  apply bind_ret_inv in H as ([] & t12 & Hservices & H).
  apply writeFileSync_ret in Hservices. carry H Hservices.
  apply bind_ret_inv in H as (spec & t13 & _ & H).
  apply bind_ret_inv in H as ([] & t14 & Hspec & H).
  apply writeFileSync_ret in Hspec. carry H Hspec.
  apply bind_ret_inv in H as ([] & t15 & Hrdir & H).
  apply mkdirSync_ret in Hrdir. carry H Hrdir.
  apply bind_ret_inv in H as ([] & t16 & Hidir & H).
  apply mkdirSync_ret in Hidir. carry H Hidir.
  apply bind_ret_inv in H as (routeList & t17 & _ & H).
  apply bind_ret_inv in H as ([] & t18 & Hlist & H).
  apply writeFileSync_ret in Hlist. carry H Hlist.
  apply bind_ret_inv in H as (routeDetail & t19 & _ & H).
  apply bind_ret_inv in H as ([] & t20 & Hdetail & H).
  apply writeFileSync_ret in Hdetail. carry H Hdetail.
  apply bind_ret_inv in H as ([] & t21 & Hlog & H).
  unfold log in Hlog. apply appendFileSync_ret in Hlog. carry H Hlog.
  apply updateModuleJson_ret in H.
  repeat split; try assumption.
  repeat constructor; assumption.
Qed.

(** X20 at work: the first run on the empty project. *)
Lemma server_run_completed_witness :
  exists route,
    buildRoutePath (parts (parseModulePath (lit "bands/linkinpark/song"))) = Ret route /\
    emptyProject !! serverModuleFolder projectDir (lit "bands/linkinpark/song") = None /\
    projectWithSong !! serverModuleFolder projectDir (lit "bands/linkinpark/song") = Some Dir /\
    Forall (fun name =>
              isFile projectWithSong
                (pathJoin (serverModuleFolder projectDir (lit "bands/linkinpark/song")) [name])
              = true)
      [lit "types.ts"; lit "values.ts"; lit "services.ts"; lit "spec.md"] /\
    projectWithSong !! pathJoin projectDir [lit "src/routes/api"; route] = Some Dir /\
    projectWithSong !! pathJoin (pathJoin projectDir [lit "src/routes/api"; route]) [lit "[id]"]
    = Some Dir /\
    isFile projectWithSong
      (pathJoin (pathJoin projectDir [lit "src/routes/api"; route]) [lit "+server.ts"]) = true /\
    isFile projectWithSong
      (pathJoin (pathJoin projectDir [lit "src/routes/api"; route])
         [lit "[id]"; lit "+server.ts"]) = true /\
    is_Some (projectWithSong
               !! pathJoin (pathJoin projectDir [lit "src/lib/helpers"]) [lit "response.ts"]) /\
    isFile projectWithSong (pathJoin projectDir [lit "module.log"]) = true /\
    isFile projectWithSong (pathJoin projectDir [lit "module.json"]) = true.
Proof.
  apply (server_run_completed (rt := exampleRuntime) projectDir
           (lit "2025-01-01T10:00:00.000Z") (lit "2025-01-01T10:00:00.001Z")
           (lit "bands/linkinpark/song") emptyProject projectWithSong).
  unfold projectWithSong.
  match goal with |- ?run = (?run.1, _) => transitivity (run.1, run.2) end.
  - apply surjective_pairing.
  - f_equal.
Defined.

(** *** The response helper *)

Section LeavesFile.
Context {rt : Runtime}.
Variable lp : path.

Lemma leavesFile_same {A} (m : io A) :
  (forall t t' o, m t = (t', o) -> t' = t) -> leavesFile lp m.
Proof. intros Hm t t' o c E Hc. now rewrite (Hm _ _ _ E). Qed.

Lemma leavesFile_ret {A} (a : A) : leavesFile lp (mret a).
Proof. apply leavesFile_same. now intros t t' o [= <- _]. Qed.

Lemma leavesFile_lift {A} (o : outcome A) : leavesFile lp (lift o).
Proof. apply leavesFile_same. now intros t t' o' [= <- _]. Qed.

Lemma leavesFile_throw {A} e : leavesFile lp (@throw A e).
Proof. apply leavesFile_same. now intros t t' o' [= <- _]. Qed.

Lemma leavesFile_exit {A} c : leavesFile lp (@processExit A c).
Proof. apply leavesFile_same. now intros t t' o' [= <- _]. Qed.

Lemma leavesFile_existsSync p : leavesFile lp (existsSync p).
Proof. apply leavesFile_same. now intros t t' o' [= <- _]. Qed.

Lemma leavesFile_readFileSync p : leavesFile lp (readFileSync p).
Proof.
  apply leavesFile_same. intros t t' o E. unfold readFileSync in E.
  destruct (t !! p) as [[|c]|]; now injection E as <- _.
Qed.

Lemma leavesFile_bind {A B} (m : io A) (k : A -> io B) :
  leavesFile lp m -> (forall a, leavesFile lp (k a)) -> leavesFile lp (m ≫= k).
Proof.
  intros Hm Hk t t' o c E Hc. unfold mbind, io_bind in E.
  destruct (m t) as [t1 [a | e | c1]] eqn:Em.
  - exact (Hk a _ _ _ _ E (Hm _ _ _ _ Em Hc)).
  - injection E as <- _. exact (Hm _ _ _ _ Em Hc).
  - injection E as <- _. exact (Hm _ _ _ _ Em Hc).
Qed.

Lemma leavesFile_tryCatch {A} (m : io A) (h : exn -> io A) :
  leavesFile lp m -> (forall e, leavesFile lp (h e)) -> leavesFile lp (tryCatch m h).
Proof.
  intros Hm Hh t t' o c E Hc. unfold tryCatch in E.
  destruct (m t) as [t1 [a | e | c1]] eqn:Em.
  - injection E as <- _. exact (Hm _ _ _ _ Em Hc).
  - exact (Hh e _ _ _ _ E (Hm _ _ _ _ Em Hc)).
  - injection E as <- _. exact (Hm _ _ _ _ Em Hc).
Qed.

Lemma leavesFile_mkdirSync q : leavesFile lp (mkdirSync q).
Proof.
  intros t t' o c E Hc. unfold mkdirSync in E. remember (prefixes q) as qs.
  destruct (existsb (isFile t) qs) eqn:He; injection E as <- _; [exact Hc|].
  rewrite foldr_mkdir_lookup.
  rewrite bool_decide_eq_false_2; [exact Hc|].
  eapply no_file_among; [exact He|]. unfold isFile. now rewrite Hc.
Qed.

Lemma leavesFile_writeFileSync q f : q <> lp -> leavesFile lp (writeFileSync q f).
Proof.
  intros Hq t t' o c E Hc. unfold writeFileSync in E.
  destruct (writable t q); injection E as <- _; [|exact Hc].
  now rewrite lookup_insert_ne.
Qed.

Lemma leavesFile_appendFileSync q s : q <> lp -> leavesFile lp (appendFileSync q s).
Proof.
  intros Hq t t' o c E Hc. unfold appendFileSync in E.
  destruct (writable t q); injection E as <- _; [|exact Hc].
  now rewrite lookup_insert_ne.
Qed.

(** A write under [if (!fs.existsSync(p))] leaves the file at [p] as it
    is. *)
Lemma leavesFile_guard {B} (w : io unit) (k : unit -> io B) :
  (forall a, leavesFile lp (k a)) ->
  leavesFile lp (existsSync lp ≫= fun b : bool => (if b then mret tt else w) ≫= k).
Proof.
  intros Hk t t' o c E Hc. rewrite bind_existsSync in E.
  rewrite bool_decide_eq_true_2 in E by (rewrite Hc; eauto).
  exact (Hk tt _ _ _ _ E Hc).
Qed.

End LeavesFile.

Ltac leaves_step :=
  first
    [ apply leavesFile_guard; intros ?
    | apply leavesFile_bind; [| intros ?]
    | apply leavesFile_tryCatch; [| intros ?]
    | apply leavesFile_ret | apply leavesFile_lift | apply leavesFile_throw
    | apply leavesFile_exit | apply leavesFile_existsSync | apply leavesFile_readFileSync
    | apply leavesFile_mkdirSync
    | match goal with
      | |- leavesFile _ (if ?b then _ else _) => destruct b
      | |- leavesFile _ (match ?x with _ => _ end) => destruct x
      end
    | progress unfold log, updateModuleJson, render, renderValues ].

(** X21. [create-server] never overwrites a response helper: when
    [src/lib/helpers/response.ts] is a file before a run, it is the same
    file after it, however the run ends. *)
Theorem response_helper_kept {rt : Runtime} (cwd : path) (tsHelper tsDone rawPath : jsstring) :
  leavesFile (pathJoin (pathJoin cwd [lit "src/lib/helpers"]) [lit "response.ts"])
    (generateServerModule cwd tsHelper tsDone rawPath).
Proof.
  unfold generateServerModule.
  change (pathJoin (pathJoin cwd [lit "src/lib/helpers"]) [lit "response.ts"])
    with (pathJoin (pathJoin cwd [lit "src/lib/helpers"]) ([] ++ [lit "response.ts"])).
  rewrite pathJoin_snoc by (vm_compute; first [lia | repeat constructor]).
  repeat leaves_step;
    first [apply leavesFile_writeFileSync | apply leavesFile_appendFileSync]; path_ne.
Qed.

(** *** When the frontend generator exits *)

(** X22. [create] ends in [process.exit] exactly when one of its two
    [mkdirSync] calls fails; the status is then 1 and the tree is as the
    failed call left it, with no file written, no log line and no
    manifest entry. *)
Theorem frontend_exit_iff_mkdir_fails {rt : Runtime} (cwd : path) (ts inputName : jsstring)
    (route : option jsstring) (t t' : tree) (c : Z) :
  generateFrontendModule cwd ts inputName route t = (t', Exit c) <->
  c = 1 /\
  exists e,
    (mkdirSync (pathJoin (frontendModuleFolder cwd inputName) [lit "components"]);;
     mkdirSync (pathJoin cwd [lit "src"; lit "routes";
                              match route with
                              | Some r => if nonEmpty r then r else toKebab inputName
                              | None => toKebab inputName
                              end])) t
    = (t', Throw e).
Proof.
  unfold generateFrontendModule, frontendModuleFolder.
  set (mk := mkdirSync _;; mkdirSync _).
  unfold mbind at 1, io_bind at 1. unfold tryCatch.
  split.
  - intros E. destruct (mk t) as [t1 [[] | e | c1]] eqn:Emk.
    + exfalso. revert E.
      match goal with |- ?m t1 = _ -> _ => assert (Hm : noExit m); [| apply Hm] end.
      repeat first
        [ apply noExit_bind; [| intros ?]
        | apply noExit_tryCatch; [| intros ?]
        | apply noExit_ret | apply noExit_existsSync | apply noExit_readFileSync
        | apply noExit_writeFileSync | apply noExit_appendFileSync
        | apply noExit_lift; intros ?; first [apply jsonParse_noExit | apply frontendManifest_noExit]
        | match goal with |- noExit (if ?b then _ else _) => destruct b end ].
    + unfold processExit in E. injection E as <- <-. split; [reflexivity | now exists e].
    + exfalso. revert Emk. subst mk.
      match goal with |- ?m t = _ -> _ => assert (Hm : noExit m); [| apply Hm] end.
      apply noExit_bind; [| intros ?]; apply noExit_mkdirSync.
  - intros [-> [e ->]]. reflexivity.
Qed.

(** With [src] a file no directory can be made, and the run exits. *)
Example frontend_exits_on_blocked_mkdir :
  (generateFrontendModule (rt := exampleRuntime) projectDir
     (lit "2025-01-01 10:00:00") (lit "shop") None projectWithSrcFile).2
  = Exit 1.
Proof. vm_compute. reflexivity. Qed.

(** *** The time stamp of the frontend log *)

Lemma checked_below (P : nat -> bool) (lo len n : nat) :
  forallb P (seq lo len) = true -> (lo <= n < lo + len)%nat -> P n = true.
Proof.
  intros Hall Hn. rewrite forallb_forall in Hall. apply Hall. apply in_seq. lia.
Qed.

Lemma pad_length (n : nat) : (n < 100)%nat -> length (pad n) = 2%nat.
Proof.
  intros Hn. apply Nat.eqb_eq.
  apply (checked_below (fun n => Nat.eqb (length (pad n)) 2) 0 100); [|lia].
  vm_compute. reflexivity.
Qed.

Lemma year_length (y : nat) : (1000 <= y < 10 * 1000)%nat -> length (decimal y) = 4%nat.
Proof.
  intros Hy. apply Nat.eqb_eq.
  apply (checked_below (fun n => Nat.eqb (length (decimal n)) 4) 1000 (9 * 1000)); [|lia].
  vm_compute. reflexivity.
Qed.

(** X23. For a date of the years 1000 to 9999 [timestamp()] is 19 units
    long and has its separators in fixed places:
    [YYYY-MM-DD hh:mm:ss]. *)
Theorem timestamp_layout (d : localTime) :
  (1000 <= fullYear d < 10 * 1000)%nat ->
  (month d < 12)%nat -> (date d <= 31)%nat ->
  (hours d < 24)%nat -> (minutes d < 60)%nat -> (seconds d < 60)%nat ->
  length (timestamp d) = 19%nat /\
  timestamp d !! 4%nat = Some "-"%char /\
  timestamp d !! 7%nat = Some "-"%char /\
  timestamp d !! 10%nat = Some " "%char /\
  timestamp d !! 13%nat = Some ":"%char /\
  timestamp d !! 16%nat = Some ":"%char.
Proof.
  intros Hy Hmo Hd Hh Hmi Hs. unfold timestamp.
  pose proof (year_length (fullYear d) Hy) as Ly.
  pose proof (pad_length (month d + 1) ltac:(lia)) as Lmo.
  pose proof (pad_length (date d) ltac:(lia)) as Ld.
  pose proof (pad_length (hours d) ltac:(lia)) as Lh.
  pose proof (pad_length (minutes d) ltac:(lia)) as Lmi.
  pose proof (pad_length (seconds d) ltac:(lia)) as Ls.
  destruct (decimal (fullYear d)) as [|y1 [|y2 [|y3 [|y4 [|]]]]]; try discriminate Ly.
  destruct (pad (month d + 1)) as [|m1 [|m2 [|]]]; try discriminate Lmo.
  destruct (pad (date d)) as [|d1 [|d2 [|]]]; try discriminate Ld.
  destruct (pad (hours d)) as [|h1 [|h2 [|]]]; try discriminate Lh.
  destruct (pad (minutes d)) as [|i1 [|i2 [|]]]; try discriminate Lmi.
  destruct (pad (seconds d)) as [|s1 [|s2 [|]]]; try discriminate Ls.
  repeat split.
Qed.

Lemma timestamp_layout_witness :
  length (timestamp {| fullYear := 2025; month := 0; date := 1;
                       hours := 10; minutes := 0; seconds := 0 |}) = 19%nat /\
  timestamp {| fullYear := 2025; month := 0; date := 1;
               hours := 10; minutes := 0; seconds := 0 |} !! 4%nat = Some "-"%char /\
  timestamp {| fullYear := 2025; month := 0; date := 1;
               hours := 10; minutes := 0; seconds := 0 |} !! 7%nat = Some "-"%char /\
  timestamp {| fullYear := 2025; month := 0; date := 1;
               hours := 10; minutes := 0; seconds := 0 |} !! 10%nat = Some " "%char /\
  timestamp {| fullYear := 2025; month := 0; date := 1;
               hours := 10; minutes := 0; seconds := 0 |} !! 13%nat = Some ":"%char /\
  timestamp {| fullYear := 2025; month := 0; date := 1;
               hours := 10; minutes := 0; seconds := 0 |} !! 16%nat = Some ":"%char.
Proof.
  apply (timestamp_layout {| fullYear := 2025; month := 0; date := 1;
                             hours := 10; minutes := 0; seconds := 0 |}); cbn; lia.
Defined.

Example timestamp_new_year :
  timestamp {| fullYear := 2025; month := 0; date := 1;
               hours := 10; minutes := 0; seconds := 0 |} = lit "2025-01-01 10:00:00".
Proof. vm_compute. reflexivity. Qed.

(** *** A blank module name *)

Lemma tryCatch_ret_inv {A} (m : io A) (h : exn -> io A) t t' a :
  tryCatch m h t = (t', Ret a) ->
  m t = (t', Ret a) \/ exists e t1, m t = (t1, Throw e) /\ h e t1 = (t', Ret a).
Proof.
  unfold tryCatch. destruct (m t) as [t1 [b | e | c]]; intros E.
  - now left.
  - right. now exists e, t1.
  - discriminate E.
Qed.

Lemma writeFileSync_ret_content p c t t' :
  writeFileSync p c t = (t', Ret tt) -> t' !! p = Some (File c).
Proof.
  unfold writeFileSync. destruct (writable t p); [|discriminate].
  intros E. assert (t' = <[p := File c]> t) as -> by congruence.
  apply lookup_insert_eq.
Qed.

Lemma pathJoin_nil (base : path) : pathJoin base [] = base.
Proof. unfold pathJoin. cbn [flat_map normalizeSegs]. apply rev_involutive. Qed.

(** X5. The frontend generator takes a blank module name as it is.
    [toKebab] gives the empty name exactly for a blank input.  A run on
    such a name with no route that completes has filled
    [src/lib/modules] itself (its [components] folder and the four
    TypeScript files lie directly in it), has replaced the page of the
    root route, [src/routes/+page.svelte], by the module's route page,
    and has written the manifest its update gives for the empty name and
    the empty route. *)
Theorem frontend_blank_name {rt : Runtime} (cwd : path) (s : jsstring) :
  (toKebab s = [] <-> blank s = true) /\
  (blank s = true ->
   forall ts t t',
     generateFrontendModule cwd ts s None t = (t', Ret tt) ->
     t' !! (cwd ++ [lit "src"; lit "lib"; lit "modules"; lit "components"]) = Some Dir /\
     Forall (fun name =>
               isFile t' (cwd ++ [lit "src"; lit "lib"; lit "modules"; name]) = true)
       [lit "store.ts"; lit "types.ts"; lit "service.ts"; lit "values.ts"] /\
     t' !! (cwd ++ [lit "src"; lit "routes"; lit "+page.svelte"])
     = Some (File [Rendered RoutePageSvelte [toPascal [] ++ lit "Page"; []]]) /\
     exists doc doc',
       frontendManifest doc [] [] = Ret doc' /\
       t' !! (cwd ++ [lit "module.json"]) = Some (File [JsonText doc'])).
Proof.
  destruct (toKebab_nil_iff s cwd) as [Hiff Hdir].
  split; [exact Hiff|]. intros Hb ts t t' H.
  specialize (Hdir Hb). apply Hiff in Hb.
  unfold generateFrontendModule in H. fold (frontendModuleFolder cwd s) in H.
  rewrite Hdir, Hb in H.
  assert (Hroutes : pathJoin cwd [lit "src"; lit "routes"; []] = cwd ++ [lit "src"; lit "routes"]).
  { change [lit "src"; lit "routes"; []] with ([lit "src"; lit "routes"] ++ [@nil ascii]).
    unfold pathJoin. rewrite flat_map_app.
    change (flat_map (split isSlash) [lit "src"; lit "routes"])
      with [lit "src"; lit "routes"].
    change (flat_map (split isSlash) [[]]) with [@nil ascii].
    rewrite normalizeSegs_app by (repeat constructor; discriminate).
    cbn [normalizeSegs]. rewrite bool_decide_eq_true_2 by reflexivity. cbn [orb].
    rewrite rev_app_distr, !rev_involutive. reflexivity. }
  rewrite Hroutes in H.
  assert (Hfile : forall (base : path) name,
            Forall (fun c => isSlash c = false) name -> (3 <= length name)%nat ->
            pathJoin base [name] = base ++ [name]).
  { intros base name Hs Hl. change [name] with ([] ++ [name]).
    rewrite pathJoin_snoc by assumption. now rewrite pathJoin_nil. }
  rewrite !Hfile in H by (vm_compute; first [lia | repeat constructor]).
  rewrite <- !app_assoc in H. cbn [app] in H.
  apply bind_ret_inv in H as ([] & t0 & Hmk & H).
  apply tryCatch_ret_inv in Hmk as [Hmk | (e & t1 & _ & Hexit)];
    [|unfold processExit in Hexit; discriminate Hexit].
  apply bind_ret_inv in Hmk as ([] & t1 & Hmk1 & Hmk2).
  apply mkdirSync_ret in Hmk1. carry Hmk2 Hmk1. carry H Hmk1.
  apply bind_ret_inv in H as ([] & t2 & Hstore & H).
  apply writeFileSync_ret in Hstore. carry H Hstore.
  apply bind_ret_inv in H as ([] & t3 & Htypes & H).
  apply writeFileSync_ret in Htypes. carry H Htypes.
  apply bind_ret_inv in H as ([] & t4 & Hservice & H).
  apply writeFileSync_ret in Hservice. carry H Hservice.
  apply bind_ret_inv in H as ([] & t5 & Hvalues & H).
  apply writeFileSync_ret in Hvalues. carry H Hvalues.
  apply bind_ret_inv in H as ([] & t6 & _ & H).
  apply bind_ret_inv in H as ([] & t7 & Hpage & H).
  apply writeFileSync_ret_content in Hpage.
  match type of H with
  | ?k t7 = _ =>
      assert (Hl : leavesFile (cwd ++ [lit "src"; lit "routes"; lit "+page.svelte"]) k)
  end.
  { repeat leaves_step;
      first [apply leavesFile_writeFileSync | apply leavesFile_appendFileSync];
      intros E; apply app_inv_head in E; discriminate E. }
  pose proof (Hl _ _ _ _ H Hpage) as Hpage'.
  apply bind_ret_inv in H as ([] & t8 & _ & H).
  apply bind_ret_inv in H as (found & t9 & _ & H).
  apply bind_ret_inv in H as (doc & t10 & _ & H).
  apply bind_ret_inv in H as (doc' & t11 & Hdoc & H).
  assert (t11 = t10 /\ frontendManifest doc [] [] = Ret doc') as [-> Hdoc']
    by (unfold lift in Hdoc; split; congruence).
  apply writeFileSync_ret_content in H.
  rewrite Hfile in Hmk1, Hstore, Htypes, Hservice, Hvalues
    by (vm_compute; first [lia | repeat constructor]).
  rewrite <- app_assoc in Hmk1, Hstore, Htypes, Hservice, Hvalues.
  split; [exact Hmk1|]. split; [repeat constructor; assumption|].
  split; [exact Hpage'|]. now exists doc, doc'.
Qed.

(** On the empty project a run with the name of two spaces completes. *)
Example frontend_run_on_blank_name :
  (generateFrontendModule (rt := exampleRuntime) projectDir
     (lit "2025-01-01 10:00:00") (lit "  ") None emptyProject).2 = Ret tt.
Proof. vm_compute. reflexivity. Qed.
